(** * OLED driver over a bit-banged TWI master: model and properties

    A shallow embedding of [lib/hal/avr/twi_soft/twi_soft.c],
    [lib/oled/oled.c], [lib/oled/tty/tty.c] and [lib/hal/avr/twi/twi.c].
    The software transport is modelled at the level of the two bus lines
    (port registers, volatile pin reads, an ordered record of line
    events); the display layer at the level of the transport calls it
    issues, together with its cursor variables; the text layer on top of
    the display layer, with its three static variables; the hardware
    transport at the level of its register writes and volatile reads. *)

From Stdlib Require Import ZArith List Bool Lia.
Import ListNotations.
Open Scope Z_scope.

(** [unsigned char] arithmetic: values are kept in [0, 256). *)
Definition u8 (x : Z) : Z := x mod 256.

(** Modelled from the spec: the header [common/enums/TWI_enums.h] is not
    part of the sources at hand.  The bus status is the enumeration
    {None, Ack-failure, Arbitration-lost, Start-failure, General-error};
    the constructor names are the ones [twi_soft.c] and [twi.c] return. *)
Inductive TWI_Error : Type :=
  | TWI_None
  | TWI_Start
  | TWI_Arbitration
  | TWI_Ack
  | TWI_General.

(** Modelled from the spec: the operation direction {Write, Read} is
    encoded into the low bit of the address byte, and address 0x3C with
    Write gives the byte 0x78, so Write is 0 and Read is 1. *)
Definition TWI_Operation := Z.
Definition TWI_Write : TWI_Operation := 0.
Definition TWI_Read : TWI_Operation := 1.

(** Modelled from the spec: the acknowledge intent of a receive operation
    is the enumeration {Ack, Nack} of the same missing header; the sources
    compare it with [TWI_ACK] and [TWI_NACK]. *)
Inductive TWI_Acknowledge : Type :=
  | TWI_ACK
  | TWI_NACK.

(* ================================================================== *)
(** ** Software TWI master ([twi_soft.c], [twi_soft.h]) *)
(* ================================================================== *)

Module TwiSoft.

(** Pin numbers: [PINB0] and [PINB1]. *)
Definition TWI_SOFT_SCL : Z := 0.
Definition TWI_SOFT_SDA : Z := 1.
Definition CHAR_BIT : Z := 8.

Definition TWI_SOFT_STATUS_BUS_INIT_COMPLETE : Z := 0x00.
Definition TWI_SOFT_STATUS_TRANSMIT : Z := 0x01.
Definition TWI_SOFT_STATUS_RECEIVE : Z := 0x02.
Definition TWI_SOFT_STATUS_BUS_ERROR : Z := 0xFF.

(** What the master does to the lines, in program order.  [Sample v] is
    one volatile read of the pin register that returned [v]. *)
Inductive line_event : Type :=
  | SCL_low
  | SCL_high
  | SDA_low
  | SDA_high
  | Wait
  | Sample (pin : Z)
  | Nop.

(** The port registers, the status byte, the number of pin reads done so
    far and the record of line events. *)
Record hw : Type := mkHw {
  DDR : Z;
  PORT : Z;
  twi_soft_bus_status : Z;
  reads : nat;
  wire : list line_event
}.

Definition hw_reset : hw := mkHw 0 0 0 0 [].

Definition emit (e : line_event) (st : hw) : hw :=
  mkHw (DDR st) (PORT st) (twi_soft_bus_status st) (reads st) (wire st ++ [e]).

Definition set_regs (ddr port : Z) (st : hw) : hw :=
  mkHw ddr port (twi_soft_bus_status st) (reads st) (wire st).

Definition set_status (s : Z) (st : hw) : hw :=
  mkHw (DDR st) (PORT st) s (reads st) (wire st).

(** [r &= ~m] and [r |= m]. *)
Definition clear_mask (r m : Z) : Z := Z.land r (Z.lnot m).
Definition set_mask (r m : Z) : Z := Z.lor r m.
Definition bit (n : Z) : Z := Z.shiftl 1 n.

(** The line macros of [twi_soft.h], in the variant compiled when
    [TWI_SOFT_PULLUP_ENABLE] is not defined (the default). *)
Definition SCL_LOW (st : hw) : hw :=
  emit SCL_low
    (set_regs (set_mask (DDR st) (bit TWI_SOFT_SCL))
              (clear_mask (PORT st) (bit TWI_SOFT_SCL)) st).

Definition SDA_LOW (st : hw) : hw :=
  emit SDA_low
    (set_regs (set_mask (DDR st) (bit TWI_SOFT_SDA))
              (clear_mask (PORT st) (bit TWI_SOFT_SCL)) st).

Definition SDA_HIGH (st : hw) : hw :=
  emit SDA_high
    (set_regs (clear_mask (DDR st) (bit TWI_SOFT_SDA))
              (clear_mask (PORT st) (bit TWI_SOFT_SCL)) st).

Definition SCL_HIGH (st : hw) : hw :=
  emit SCL_high
    (set_regs (clear_mask (DDR st) (bit TWI_SOFT_SCL))
              (clear_mask (PORT st) (bit TWI_SOFT_SCL)) st).

(** [_delay_us(TWI_SOFT_CLOCK_PULSE_US)]: half a bit period. *)
Definition delay (st : hw) : hw := emit Wait st.

(** A function either falls through to its next statement or returns. *)
Inductive flow : Type :=
  | Next (st : hw)
  | Return (e : TWI_Error) (st : hw).

Section Bus.

(** The value the [k]-th read of the pin register yields.  It is decided
    by the devices on the bus, so the model takes it as given. *)
Variable PINB : nat -> Z.

Definition read_PIN (st : hw) : Z * hw :=
  let v := PINB (reads st) in
  (v, mkHw (DDR st) (PORT st) (twi_soft_bus_status st) (S (reads st))
           (wire st ++ [Sample v])).

(** [twi_soft_init] *)
Definition twi_soft_init (st : hw) : Z * hw :=
  let st := set_regs (DDR st)
              (clear_mask (PORT st) (Z.lor (bit TWI_SOFT_SCL) (bit TWI_SOFT_SDA))) st in
  let st := SCL_HIGH st in
  let st := SDA_HIGH st in
  let st := delay st in
  let st := delay st in
  let (p1, st) := read_PIN st in
  if Z.land p1 (bit TWI_SOFT_SCL) =? 0 then (TWI_SOFT_STATUS_BUS_ERROR, st)
  else
    let (p2, st) := read_PIN st in
    if Z.land p2 (bit TWI_SOFT_SDA) =? 0 then (TWI_SOFT_STATUS_BUS_ERROR, st)
    else (TWI_SOFT_STATUS_BUS_INIT_COMPLETE, st).

(** [twi_soft_disable] *)
Definition twi_soft_disable (st : hw) : hw :=
  let m := Z.lor (bit TWI_SOFT_SCL) (bit TWI_SOFT_SDA) in
  set_regs (clear_mask (DDR st) m) (clear_mask (PORT st) m) st.

(** [twi_soft_status] *)
Definition twi_soft_status (st : hw) : Z := twi_soft_bus_status st.

(** [twi_soft_start] ([TWI_SOFT_BLOCK_IE] is not defined). *)
Definition twi_soft_start (st : hw) : TWI_Error * hw :=
  let st := set_status (u8 (set_mask (twi_soft_bus_status st) TWI_SOFT_STATUS_TRANSMIT)) st in
  let st := SCL_HIGH st in
  let st := delay st in
  let st := SDA_LOW st in
  let st := delay st in
  let st := SCL_LOW st in
  (TWI_None, st).

(** [twi_soft_stop] *)
Definition twi_soft_stop (st : hw) : hw :=
  let st := SCL_LOW st in
  let st := SDA_LOW st in
  let st := delay st in
  let st := SCL_HIGH st in
  let st := delay st in
  let st := SDA_HIGH st in
  let st := delay st in
  set_status (u8 (clear_mask (twi_soft_bus_status st) TWI_SOFT_STATUS_TRANSMIT)) st.

(** [while(!(TWI_SOFT_PIN & (1<<TWI_SOFT_SCL))) asm volatile("NOP");]
    The loop has no bound in the source; [fuel] bounds the number of
    reads, and [None] stands for a wait that has not ended within it. *)
Fixpoint clock_stretch (fuel : nat) (st : hw) : option hw :=
  match fuel with
  | O => None
  | S fuel' =>
      let (pin, st) := read_PIN st in
      if Z.land pin (bit TWI_SOFT_SCL) =? 0
      then clock_stretch fuel' (emit Nop st)
      else Some st
  end.

(** The second half of one iteration of the loop of [twi_soft_set]. *)
Definition clock_pulse (fuel : nat) (st : hw) : option flow :=
  let st := SCL_HIGH st in
  match clock_stretch fuel st with
  | None => None
  | Some st => Some (Next (delay st))
  end.

(** One iteration of the loop of [twi_soft_set], for loop index [i].
    The pin is read for the arbitration check only when [temp] is 1:
    [&&] does not evaluate its right operand otherwise. *)
Definition set_bit_cycle (fuel : nat) (data i : Z) (st : hw) : option flow :=
  let st := SCL_LOW st in
  let '(temp, st) :=
    if negb (Z.land (Z.shiftl data i) 0x80 =? 0)
    then (1, SDA_HIGH st)
    else (0, SDA_LOW st) in
  let st := delay st in
  if temp =? 1 then
    let (pin, st) := read_PIN st in
    if Z.land pin (bit TWI_SOFT_SDA) =? 0
    then Some (Return TWI_Arbitration st)
    else clock_pulse fuel st
  else clock_pulse fuel st.

(** [n] iterations of the loop, starting at index [i]. *)
Fixpoint set_bits (n : nat) (fuel : nat) (data i : Z) (st : hw) : option flow :=
  match n with
  | O => Some (Next st)
  | S n' =>
      match set_bit_cycle fuel data i st with
      | Some (Next st') => set_bits n' fuel data (i + 1) st'
      | r => r
      end
  end.

(** The statements of [twi_soft_set] after its loop. *)
Definition ack_phase (st : hw) : TWI_Error * hw :=
  let st := SCL_LOW st in
  let st := SDA_HIGH st in
  let st := delay st in
  let (pin, st) := read_PIN st in
  let temp := if Z.land pin (bit TWI_SOFT_SDA) =? 0 then TWI_None else TWI_Ack in
  let st := SCL_HIGH st in
  let st := delay st in
  (temp, st).

(** [twi_soft_set] *)
Definition twi_soft_set (fuel : nat) (data : Z) (st : hw) : option (TWI_Error * hw) :=
  match set_bits (Z.to_nat CHAR_BIT) fuel data 0 st with
  | None => None
  | Some (Return e st') => Some (e, st')
  | Some (Next st') => Some (ack_phase st')
  end.

(** [twi_soft_address] *)
Definition twi_soft_address (fuel : nat) (address : Z) (operation : TWI_Operation)
    (st : hw) : option (TWI_Error * hw) :=
  let temp := u8 (Z.lor (Z.shiftl address 1) (Z.land 0x01 operation)) in
  twi_soft_set fuel temp st.

(** One iteration of the loop of [twi_soft_get]; [received] is an
    [unsigned char]. *)
Definition get_bit_cycle (fuel : nat) (received : Z) (st : hw) : option (Z * hw) :=
  let st := SCL_LOW st in
  let st := delay st in
  let st := SCL_HIGH st in
  match clock_stretch fuel st with
  | None => None
  | Some st =>
      let st := delay st in
      let received := u8 (Z.shiftl received 1) in
      let (pin, st) := read_PIN st in
      let received :=
        if negb (Z.land pin (bit TWI_SOFT_SDA) =? 0)
        then u8 (Z.lor received 1)
        else received in
      Some (received, st)
  end.

Fixpoint get_bits (n : nat) (fuel : nat) (received : Z) (st : hw) : option (Z * hw) :=
  match n with
  | O => Some (received, st)
  | S n' =>
      match get_bit_cycle fuel received st with
      | Some (received', st') => get_bits n' fuel received' st'
      | None => None
      end
  end.

(** [twi_soft_get]; the byte stored through [data] is the second
    component of the result. *)
Definition twi_soft_get (fuel : nat) (acknowledge : TWI_Acknowledge) (st : hw)
    : option (TWI_Error * Z * hw) :=
  match get_bits (Z.to_nat CHAR_BIT) fuel 0 st with
  | None => None
  | Some (received, st) =>
      let st := SCL_LOW st in
      let st := match acknowledge with
                | TWI_ACK => SDA_LOW st
                | TWI_NACK => SDA_HIGH st
                end in
      let st := delay st in
      let st := SCL_HIGH st in
      match clock_stretch fuel st with
      | None => None
      | Some st =>
          let st := delay st in
          let st := SCL_LOW st in
          let st := SDA_HIGH st in
          Some (TWI_None, received, st)
      end
  end.

(** The acknowledge phase in the order the specification words it:
    clock LOW, release data, wait, release clock, wait for the end of
    clock stretching, and only then sample the data line. *)
Definition ack_phase_as_specified (fuel : nat) (st : hw) : option (TWI_Error * hw) :=
  let st := SCL_LOW st in
  let st := SDA_HIGH st in
  let st := delay st in
  let st := SCL_HIGH st in
  match clock_stretch fuel st with
  | None => None
  | Some st =>
      let (pin, st) := read_PIN st in
      Some (if Z.land pin (bit TWI_SOFT_SDA) =? 0 then TWI_None else TWI_Ack, st)
  end.

End Bus.

(** The data bits a record of line events puts on the bus: the level the
    master gave the data line at each release of the clock line. *)
Fixpoint clocked_bits (sda : bool) (evs : list line_event) : list bool :=
  match evs with
  | [] => []
  | SDA_low :: evs' => clocked_bits false evs'
  | SDA_high :: evs' => clocked_bits true evs'
  | SCL_high :: evs' => sda :: clocked_bits sda evs'
  | _ :: evs' => clocked_bits sda evs'
  end.

(** Events that leave both lines as they are. *)
Definition quiet (evs : list line_event) : Prop :=
  Forall (fun e => match e with Sample _ | Nop => True | _ => False end) evs.

(** [twi_soft_set] with its acknowledge phase in the specified order. *)
Definition twi_soft_set_as_specified (PINB : nat -> Z) (fuel : nat) (data : Z)
    (st : hw) : option (TWI_Error * hw) :=
  match set_bits PINB (Z.to_nat CHAR_BIT) fuel data 0 st with
  | None => None
  | Some (Return e st') => Some (e, st')
  | Some (Next st') => ack_phase_as_specified PINB fuel st'
  end.

(** The state after the first [n] iterations of the loop of
    [twi_soft_set], when they all complete. *)
Definition after_bits (PINB : nat -> Z) (n : nat) (fuel : nat) (data : Z) (st : hw) : hw :=
  match set_bits PINB n fuel data 0 st with
  | Some (Next st') => st'
  | _ => st
  end.

(** A bus on which nobody else drives a line: every read sees both lines high. *)
Definition idle_bus : nat -> Z := fun _ => 0x03.

(** A bus whose reads are scripted, idle afterwards. *)
Definition scripted_bus (script : list Z) : nat -> Z := fun k => nth k script 0x03.

(** Number of releases of the clock line in a record of line events. *)
Fixpoint clock_pulses (evs : list line_event) : nat :=
  match evs with
  | [] => O
  | SCL_high :: evs' => S (clock_pulses evs')
  | _ :: evs' => clock_pulses evs'
  end.

(** The bits of a byte, most significant first. *)
Definition byte_bits (data : Z) : list bool :=
  map (fun k => Z.testbit data (7 - Z.of_nat k)) (seq 0 8).

(** The outcome of a call that returned. *)
Definition returned (r : option (TWI_Error * hw)) : TWI_Error * hw :=
  match r with
  | Some x => x
  | None => (TWI_General, hw_reset)
  end.

(** The state a loop iteration leaves, however it ends. *)
Definition flow_state (r : flow) : hw :=
  match r with Next st => st | Return _ st => st end.

(** What one received bit does to the byte received so far. *)
Definition shift_in (received : Z) (b : bool) : Z := (2 * received + Z.b2z b) mod 256.

(** The data-line levels [twi_soft_get] samples on a bus without clock
    stretching, when [r] reads have been done before the call: each bit
    costs one read for the clock and one for the data line. *)
Definition sampled_bits (PINB : nat -> Z) (r : nat) (n : nat) : list bool :=
  map (fun k => Z.testbit (PINB (r + 2 * k + 1)%nat) TWI_SOFT_SDA) (seq 0 n).

(** A bus on which the clock line is never held LOW. *)
Definition never_stretched (PINB : nat -> Z) : Prop :=
  forall k, Z.land (PINB k) (bit TWI_SOFT_SCL) <> 0.

(** What an operation may do to the port registers: each [PORT] bit is
    as before or cleared, never set, and the [DDR] bits of the other pins
    of the port are as before. *)
Definition port_footprint (st st' : hw) : Prop :=
  (PORT st' = PORT st \/ PORT st' = clear_mask (PORT st) (bit TWI_SOFT_SCL)) /\
  (forall n, 2 <= n -> Z.testbit (DDR st') n = Z.testbit (DDR st) n).

(** A pin is driven (LOW, when its [PORT] bit is clear) or released. *)
Definition driven (st : hw) (pin : Z) : bool := Z.testbit (DDR st) pin.

(** A peer that never stretches the clock, holds the data line LOW
    during the half period before the ninth clock pulse and lets it go
    as the clock is released. *)
Definition early_release_bus : nat -> Z := scripted_bus [3; 3; 3; 3; 3; 3; 3; 3; 1].

(** Another master pulls the data line LOW while the second bit is set up. *)
Definition contended_bus : nat -> Z := scripted_bus [3; 1].

(** A peer that never stretches the clock during the eight data bits and
    then, acknowledging, holds both lines LOW from the ninth read on. *)
Definition held_clock_bus : nat -> Z := fun k => if (k <? 8)%nat then 0x03 else 0x00.

End TwiSoft.

(* ================================================================== *)
(** ** Display protocol layer ([oled.c], [oled.h]) *)
(* ================================================================== *)

Module Oled.

Definition OLED_ADDRESS : Z := Z.shiftr 0x78 1.
Definition OLED_CONTROL_COMMAND : Z := 0x80.
Definition OLED_CONTROL_DATA : Z := 0x40.
Definition OLED_PAGE_SIZE : Z := 8.
Definition OLED_ROW_SIZE : Z := 64.
Definition OLED_COLUMN_SIZE : Z := 128.

Definition OLED_CMD_SET_DISPLAY : Z := 0xAE.
Definition OLED_CMD_SET_DISPLAY_ON : Z := 0x01.
Definition OLED_CMD_SET_DISPLAY_OFF : Z := 0x00.
Definition OLED_CMD_SET_DISPLAY_CLOCK : Z := 0xD5.
Definition OLED_CMD_SET_DISPLAY_CLOCK_DIVIDE_RATIO : Z := 0x00.
Definition OLED_CMD_SET_DISPLAY_CLOCK_FREQUENCY : Z := 0x80.
Definition OLED_CMD_SET_MULTIPLEX_RATIO : Z := 0xA8.
Definition OLED_CMD_SET_MULTIPLEX_RATIO_64_MUX : Z := 0x3F.
Definition OLED_CMD_SET_DISPLAY_OFFSET : Z := 0xD3.
Definition OLED_CMD_SET_DISPLAY_OFFSET_VALUE : Z := 0x00.
Definition OLED_CMD_SET_DISPLAY_START_LINE : Z := Z.lor 0x40 0x00.
Definition OLED_CMD_SET_CHARGE_PUMP : Z := 0x8D.
Definition OLED_CMD_SET_CHARGE_PUMP_INTERNAL : Z := 0x14.
Definition OLED_CMD_SET_SEGMENT_REMAP : Z := Z.lor 0xA0 0x01.
Definition OLED_CMD_SET_COM_OUTPUT_SCAN_DIRECTION : Z := Z.lor 0xC0 0x08.
Definition OLED_CMD_SET_COM_PINS_HARDWARE_CONFIGURATION : Z := 0xDA.
Definition OLED_CMD_SET_COM_PINS_HARDWARE_CONFIGURATION_SETUP : Z := Z.lor 0x12 0x02.
Definition OLED_CMD_SET_CONTRAST : Z := 0x81.
Definition OLED_CMD_SET_CONTRAST_VALUE : Z := 0x7F.
Definition OLED_CMD_ENTIRE_DISPLAY_ON : Z := Z.lor 0xA4 0x00.
Definition OLED_CMD_SET_DISPLAY_MODE : Z := Z.lor 0xA6 0x00.
Definition OLED_CMD_SET_MEMORY_ADDRESSING_MODE : Z := 0x20.
Definition OLED_CMD_SET_MEMORY_ADDRESSING_MODE_PAGE : Z := 0x02.
Definition OLED_CMD_SET_PAGE_START_ADDRESS : Z := 0xB0.
Definition OLED_CMD_SET_LOWER_START_COLUMN_ADDRESS : Z := 0x00.
Definition OLED_CMD_SET_HIGHER_START_COLUMN_ADDRESS : Z := 0x10.

Definition oled_init_commands : list Z :=
  [ Z.lor OLED_CMD_SET_DISPLAY OLED_CMD_SET_DISPLAY_OFF;
    OLED_CMD_SET_MULTIPLEX_RATIO;
    OLED_CMD_SET_MULTIPLEX_RATIO_64_MUX;
    OLED_CMD_SET_DISPLAY_OFFSET;
    OLED_CMD_SET_DISPLAY_OFFSET_VALUE;
    OLED_CMD_SET_DISPLAY_START_LINE;
    OLED_CMD_SET_SEGMENT_REMAP;
    OLED_CMD_SET_COM_OUTPUT_SCAN_DIRECTION;
    OLED_CMD_SET_COM_PINS_HARDWARE_CONFIGURATION;
    OLED_CMD_SET_COM_PINS_HARDWARE_CONFIGURATION_SETUP;
    OLED_CMD_SET_CONTRAST;
    OLED_CMD_SET_CONTRAST_VALUE;
    OLED_CMD_ENTIRE_DISPLAY_ON;
    OLED_CMD_SET_DISPLAY_MODE;
    OLED_CMD_SET_DISPLAY_CLOCK;
    Z.lor OLED_CMD_SET_DISPLAY_CLOCK_FREQUENCY OLED_CMD_SET_DISPLAY_CLOCK_DIVIDE_RATIO;
    OLED_CMD_SET_MEMORY_ADDRESSING_MODE;
    OLED_CMD_SET_MEMORY_ADDRESSING_MODE_PAGE;
    OLED_CMD_SET_CHARGE_PUMP;
    OLED_CMD_SET_CHARGE_PUMP_INTERNAL;
    Z.lor OLED_CMD_SET_DISPLAY OLED_CMD_SET_DISPLAY_ON ].

(** The calls the display layer makes to the transport ([twi_soft_*] when
    [OLED_USE_SOFT_TWI] is defined, [twi_*] otherwise).  The layer discards
    every status these calls return, so what it does is determined by its
    arguments and its cursor; the calls are recorded in program order. *)
Inductive bus_op : Type :=
  | Twi_init
  | Twi_disable
  | Twi_start
  | Twi_address (address : Z) (operation : TWI_Operation)
  | Twi_set (data : Z)
  | Twi_stop.

(** The two cursor variables of [oled.c] and the record of transport calls. *)
Record oled : Type := mkOled {
  column_current_position : Z;
  page_current_position : Z;
  bus : list bus_op
}.

(** Static storage is zero-initialised. *)
Definition oled_reset : oled := mkOled 0 0 [].

(** A [void] procedure on the driver state; [None] stands for a loop that
    does not end. *)
Definition proc : Type := oled -> option oled.

Definition skip : proc := fun st => Some st.
Definition diverge : proc := fun _ => None.
Definition seq_proc (p q : proc) : proc :=
  fun st => match p st with Some st' => q st' | None => None end.

Notation "p ;; q" := (seq_proc p q) (at level 61, right associativity).

Definition sends (ops : list bus_op) : proc :=
  fun st => Some (mkOled (column_current_position st) (page_current_position st)
                         (bus st ++ ops)).

Definition call (op : bus_op) : proc := sends [op].

Definition set_cursor (column page : Z) : proc :=
  fun st => Some (mkOled column page (bus st)).

(** Loops whose counter is an [unsigned char]: the counter wraps at 256,
    so a loop that has not ended after 257 tests of its condition never
    ends. *)
Definition u8_fuel : nat := 257.

Fixpoint for_u8 (fuel : nat) (cond : Z -> bool) (body : Z -> proc) (i : Z) : proc :=
  match fuel with
  | O => diverge
  | S fuel' =>
      if cond i then body i ;; for_u8 fuel' cond body (u8 (i + 1)) else skip
  end.

(** Data memory: the byte stored at each address. *)
Definition memory : Type := Z -> Z.
Definition load (mem : memory) (p : Z) : Z := u8 (mem p).

(** The macros of [oled.h].  [_delay_us] changes timing only. *)
Definition OLED_START (mode : TWI_Operation) : proc :=
  call Twi_start ;; call (Twi_address OLED_ADDRESS mode).
Definition OLED_STOP : proc := call Twi_stop.
Definition OLED_DATA : proc := call (Twi_set OLED_CONTROL_DATA).

(** [oled_command] *)
Definition oled_command (command : Z) : proc :=
  call (Twi_set OLED_CONTROL_COMMAND) ;; call (Twi_set command).

(** [oled_disable] *)
Definition oled_disable : proc := call Twi_disable.

(** [oled_position] *)
Definition oled_position (column page : Z) : proc :=
  if (column <? OLED_COLUMN_SIZE) && (page <? OLED_PAGE_SIZE) then
    set_cursor column page ;;
    OLED_START TWI_Write ;;
    oled_command (Z.lor OLED_CMD_SET_PAGE_START_ADDRESS (Z.land 0x07 page)) ;;
    oled_command (Z.lor OLED_CMD_SET_LOWER_START_COLUMN_ADDRESS (Z.land 0x0F column)) ;;
    oled_command (Z.lor OLED_CMD_SET_HIGHER_START_COLUMN_ADDRESS
                        (Z.land 0x0F (Z.shiftr column 4))) ;;
    OLED_STOP
  else skip.

Definition OLED_HOME : proc := oled_position 0 0.

(** [oled_scroll_vertical] *)
Definition oled_scroll_vertical (scroll : Z) : proc :=
  if scroll >=? OLED_ROW_SIZE then skip
  else
    OLED_START TWI_Write ;;
    oled_command OLED_CMD_SET_DISPLAY_OFFSET ;;
    oled_command scroll ;;
    OLED_STOP.

Section Memory.

Variable mem : memory.

(** The loop of [oled_page_segment]: [twi_soft_set( *(data++))] for
    [i] from [column_start] while [i <= column_stop]. *)
Fixpoint page_segment_loop (fuel : nat) (data i column_stop : Z) : proc :=
  match fuel with
  | O => diverge
  | S fuel' =>
      if i <=? column_stop then
        call (Twi_set (load mem data)) ;;
        page_segment_loop fuel' (data + 1) (u8 (i + 1)) column_stop
      else skip
  end.

(** [oled_page_segment] *)
Definition oled_page_segment (data column_start column_stop page : Z) : proc :=
  if (page >=? OLED_PAGE_SIZE) || (column_stop >=? OLED_COLUMN_SIZE)
     || (column_start >=? column_stop)
  then skip
  else
    oled_position column_start page ;;
    OLED_START TWI_Write ;;
    OLED_DATA ;;
    page_segment_loop u8_fuel data column_start column_stop ;;
    OLED_STOP.

(** [oled_page] *)
Definition oled_page (data page : Z) : proc :=
  if page >=? OLED_PAGE_SIZE then skip
  else oled_page_segment data 0 (OLED_COLUMN_SIZE - 1) page.

(** [oled_frame] *)
Definition oled_frame (frame : Z) : proc :=
  OLED_HOME ;;
  for_u8 u8_fuel (fun page => page <? OLED_PAGE_SIZE)
         (fun page => oled_page (frame + page * OLED_PAGE_SIZE) page) 0.

End Memory.

(** [oled_column] *)
Definition oled_column (data column page : Z) : proc :=
  if (page >=? OLED_PAGE_SIZE) || (column >=? OLED_COLUMN_SIZE) then skip
  else
    oled_position column page ;;
    OLED_START TWI_Write ;;
    OLED_DATA ;;
    call (Twi_set data) ;;
    OLED_STOP.

(** [oled_clear_page_segment] *)
Definition oled_clear_page_segment (column_start column_stop page : Z) : proc :=
  if (page >=? OLED_PAGE_SIZE) || (column_stop >=? OLED_COLUMN_SIZE)
     || (column_start >=? column_stop)
  then skip
  else
    oled_position column_start page ;;
    OLED_START TWI_Write ;;
    OLED_DATA ;;
    for_u8 u8_fuel (fun i => i <=? column_stop) (fun _ => call (Twi_set 0x00)) 0 ;;
    OLED_STOP.

(** [oled_clear_page] *)
Definition oled_clear_page (page : Z) : proc :=
  oled_clear_page_segment 0 (OLED_COLUMN_SIZE - 1) page.

(** [oled_clear] *)
Definition oled_clear : proc :=
  for_u8 u8_fuel (fun page => page <? OLED_PAGE_SIZE) oled_clear_page 0 ;;
  OLED_HOME.

(** [oled_clear_column] *)
Definition oled_clear_column (column page : Z) : proc :=
  oled_position column page ;;
  OLED_START TWI_Write ;;
  OLED_DATA ;;
  call (Twi_set 0x00) ;;
  OLED_STOP.

(** [oled_init]; the command table is read with [pgm_read_byte]. *)
Definition oled_init : proc :=
  call Twi_init ;;
  OLED_START TWI_Write ;;
  for_u8 u8_fuel (fun i => i <? Z.of_nat (length oled_init_commands))
         (fun i => oled_command (nth (Z.to_nat i) oled_init_commands 0)) 0 ;;
  OLED_STOP ;;
  oled_clear.

(** The public functions of [oled.h] as requests; an argument is
    converted to [unsigned char] when it is passed. *)
Inductive request : Type :=
  | Req_init
  | Req_disable
  | Req_position (column page : Z)
  | Req_scroll_vertical (scroll : Z)
  | Req_frame (frame : Z)
  | Req_page (data page : Z)
  | Req_page_segment (data column_start column_stop page : Z)
  | Req_column (data column page : Z)
  | Req_clear
  | Req_clear_page (page : Z)
  | Req_clear_page_segment (column_start column_stop page : Z)
  | Req_clear_column (column page : Z).

Definition serve (mem : memory) (r : request) : proc :=
  match r with
  | Req_init => oled_init
  | Req_disable => oled_disable
  | Req_position column page => oled_position (u8 column) (u8 page)
  | Req_scroll_vertical scroll => oled_scroll_vertical (u8 scroll)
  | Req_frame frame => oled_frame mem frame
  | Req_page data page => oled_page mem data (u8 page)
  | Req_page_segment data column_start column_stop page =>
      oled_page_segment mem data (u8 column_start) (u8 column_stop) (u8 page)
  | Req_column data column page => oled_column (u8 data) (u8 column) (u8 page)
  | Req_clear => oled_clear
  | Req_clear_page page => oled_clear_page (u8 page)
  | Req_clear_page_segment column_start column_stop page =>
      oled_clear_page_segment (u8 column_start) (u8 column_stop) (u8 page)
  | Req_clear_column column page => oled_clear_column (u8 column) (u8 page)
  end.

Fixpoint serve_all (mem : memory) (rs : list request) : proc :=
  match rs with
  | [] => skip
  | r :: rs' => serve mem r ;; serve_all mem rs'
  end.

(** The cursor as a pair. *)
Definition cursor (st : oled) : Z * Z :=
  (column_current_position st, page_current_position st).

Definition cursor_in_range (st : oled) : Prop :=
  0 <= column_current_position st < OLED_COLUMN_SIZE /\
  0 <= page_current_position st < OLED_PAGE_SIZE.

(** A loop body run for each index of a list, in order. *)
Fixpoint run_seq (body : Z -> proc) (indices : list Z) : proc :=
  match indices with
  | [] => skip
  | i :: indices' => body i ;; run_seq body indices'
  end.

(** The two shapes of transaction on the bus.  In a command transaction
    each command byte follows a command-control byte of its own; in a data
    transaction one data-control byte is followed by the payload. *)
Definition command_frame (commands : list Z) : list bus_op :=
  [Twi_start; Twi_address OLED_ADDRESS TWI_Write]
    ++ flat_map (fun c => [Twi_set OLED_CONTROL_COMMAND; Twi_set c]) commands
    ++ [Twi_stop].

Definition data_frame (bytes : list Z) : list bus_op :=
  [Twi_start; Twi_address OLED_ADDRESS TWI_Write; Twi_set OLED_CONTROL_DATA]
    ++ map Twi_set bytes ++ [Twi_stop].

Definition position_commands (column page : Z) : list Z :=
  [ Z.lor OLED_CMD_SET_PAGE_START_ADDRESS (Z.land 0x07 page);
    Z.lor OLED_CMD_SET_LOWER_START_COLUMN_ADDRESS (Z.land 0x0F column);
    Z.lor OLED_CMD_SET_HIGHER_START_COLUMN_ADDRESS (Z.land 0x0F (Z.shiftr column 4)) ].

Definition position_frame (column page : Z) : list bus_op :=
  command_frame (position_commands column page).

(** [n] consecutive bytes of memory from address [p]. *)
Definition bytes_at (mem : memory) (p : Z) (n : nat) : list Z :=
  map (fun k => load mem (p + Z.of_nat k)) (seq 0 n).

(** A record of transport calls that is a sequence of whole transactions
    (and of bus initialisations and releases between them). *)
Inductive framed : list bus_op -> Prop :=
  | framed_nil : framed []
  | framed_init rest : framed rest -> framed (Twi_init :: rest)
  | framed_disable rest : framed rest -> framed (Twi_disable :: rest)
  | framed_command commands rest :
      framed rest -> framed (command_frame commands ++ rest)
  | framed_data bytes rest :
      framed rest -> framed (data_frame bytes ++ rest).

(** The calls of [oled_position] a request leads to, in order, read off
    the bodies of the functions. *)
Definition pages : list Z := [0; 1; 2; 3; 4; 5; 6; 7].

Definition position_calls (r : request) : list (Z * Z) :=
  match r with
  | Req_init => map (fun page => (0, page)) pages ++ [(0, 0)]
  | Req_disable => []
  | Req_position column page => [(u8 column, u8 page)]
  | Req_scroll_vertical _ => []
  | Req_frame _ => (0, 0) :: map (fun page => (0, page)) pages
  | Req_page _ page =>
      if u8 page >=? OLED_PAGE_SIZE then [] else [(0, u8 page)]
  | Req_page_segment _ column_start column_stop page =>
      if (u8 page >=? OLED_PAGE_SIZE) || (u8 column_stop >=? OLED_COLUMN_SIZE)
         || (u8 column_start >=? u8 column_stop)
      then [] else [(u8 column_start, u8 page)]
  | Req_column _ column page =>
      if (u8 page >=? OLED_PAGE_SIZE) || (u8 column >=? OLED_COLUMN_SIZE)
      then [] else [(u8 column, u8 page)]
  | Req_clear => map (fun page => (0, page)) pages ++ [(0, 0)]
  | Req_clear_page page =>
      if u8 page >=? OLED_PAGE_SIZE then [] else [(0, u8 page)]
  | Req_clear_page_segment column_start column_stop page =>
      if (u8 page >=? OLED_PAGE_SIZE) || (u8 column_stop >=? OLED_COLUMN_SIZE)
         || (u8 column_start >=? u8 column_stop)
      then [] else [(u8 column_start, u8 page)]
  | Req_clear_column column page => [(u8 column, u8 page)]
  end.

Definition reposition (calls : list (Z * Z)) : proc :=
  fold_right (fun cp k => oled_position (fst cp) (snd cp) ;; k) skip calls.

(** What clearing one page and what writing one page of a frame buffer
    put on the bus. *)
Definition cleared_page (page : Z) : list bus_op :=
  position_frame 0 page ++ data_frame (repeat 0x00 128).

Definition written_page (mem : memory) (frame page : Z) : list bus_op :=
  position_frame 0 page ++ data_frame (bytes_at mem (frame + page * OLED_PAGE_SIZE) 128).

(** What a request does: it ends; it adds whole transactions to the bus;
    and it leaves the cursor where the calls of [oled_position] it makes
    leave it, which is inside the display when it was before. *)
Definition request_effect (mem : memory) (r : request) (st : oled) : Prop :=
  exists st1 l,
    serve mem r st = Some st1 /\
    bus st1 = bus st ++ l /\ framed l /\
    option_map cursor (reposition (position_calls r) st) = Some (cursor st1) /\
    (cursor_in_range st -> cursor_in_range st1).

(** The transport calls a request makes, in order: a command transaction
    is a [command_frame], a data transaction is a [data_frame] whose
    payload is the bytes the request names and nothing else. *)
Definition request_bus (mem : memory) (r : request) : list bus_op :=
  match r with
  | Req_init =>
      Twi_init :: command_frame oled_init_commands
        ++ flat_map cleared_page pages ++ position_frame 0 0
  | Req_disable => [Twi_disable]
  | Req_position column page =>
      if (u8 column <? OLED_COLUMN_SIZE) && (u8 page <? OLED_PAGE_SIZE)
      then position_frame (u8 column) (u8 page)
      else []
  | Req_scroll_vertical scroll =>
      if u8 scroll <? OLED_ROW_SIZE
      then command_frame [OLED_CMD_SET_DISPLAY_OFFSET; u8 scroll]
      else []
  | Req_frame frame => position_frame 0 0 ++ flat_map (written_page mem frame) pages
  | Req_page data page =>
      if u8 page <? OLED_PAGE_SIZE
      then position_frame 0 (u8 page) ++ data_frame (bytes_at mem data 128)
      else []
  | Req_page_segment data column_start column_stop page =>
      if (u8 column_start <? u8 column_stop) && (u8 column_stop <? OLED_COLUMN_SIZE)
         && (u8 page <? OLED_PAGE_SIZE)
      then position_frame (u8 column_start) (u8 page)
             ++ data_frame (bytes_at mem data
                              (Z.to_nat (u8 column_stop - u8 column_start + 1)))
      else []
  | Req_column data column page =>
      if (u8 column <? OLED_COLUMN_SIZE) && (u8 page <? OLED_PAGE_SIZE)
      then position_frame (u8 column) (u8 page) ++ data_frame [u8 data]
      else []
  | Req_clear => flat_map cleared_page pages ++ position_frame 0 0
  | Req_clear_page page =>
      if u8 page <? OLED_PAGE_SIZE then cleared_page (u8 page) else []
  | Req_clear_page_segment column_start column_stop page =>
      if (u8 column_start <? u8 column_stop) && (u8 column_stop <? OLED_COLUMN_SIZE)
         && (u8 page <? OLED_PAGE_SIZE)
      then position_frame (u8 column_start) (u8 page)
             ++ data_frame (repeat 0x00 (Z.to_nat (u8 column_stop + 1)))
      else []
  | Req_clear_column column page =>
      (if (u8 column <? OLED_COLUMN_SIZE) && (u8 page <? OLED_PAGE_SIZE)
       then position_frame (u8 column) (u8 page)
       else [])
        ++ data_frame [0x00]
  end.

(** The payloads of the data transactions in a record of transport calls:
    for each transaction that opens with the data-control byte, the bytes
    sent after it up to the stop. *)
Fixpoint payload_until_stop (ops : list bus_op) : list Z * list bus_op :=
  match ops with
  | Twi_set d :: ops' =>
      let (bytes, rest) := payload_until_stop ops' in (d :: bytes, rest)
  | _ => ([], ops)
  end.

Fixpoint data_payloads_from (gas : nat) (ops : list bus_op) : list (list Z) :=
  match gas with
  | O => []
  | S gas' =>
      match ops with
      | Twi_start :: Twi_address _ _ :: Twi_set c :: ops' =>
          if c =? OLED_CONTROL_DATA then
            let (bytes, rest) := payload_until_stop ops' in
            bytes :: data_payloads_from gas' rest
          else data_payloads_from gas' ops'
      | _ :: ops' => data_payloads_from gas' ops'
      | [] => []
      end
  end.

Definition data_payloads (ops : list bus_op) : list (list Z) :=
  data_payloads_from (length ops) ops.

(** The position a controller reads out of the three position commands. *)
Definition decode_position (commands : list Z) : option (Z * Z) :=
  match commands with
  | [c_page; c_low; c_high] =>
      Some (Z.lor (Z.shiftl (Z.land c_high 0x0F) 4) (Z.land c_low 0x0F),
            Z.land c_page 0x07)
  | _ => None
  end.

(** A transport call that belongs to a write transaction with the
    display: no other device is addressed and nothing is read. *)
Definition to_display (op : bus_op) : Prop :=
  match op with
  | Twi_address address operation => address = OLED_ADDRESS /\ operation = TWI_Write
  | _ => True
  end.

Definition count_op (f : bus_op -> bool) (ops : list bus_op) : nat :=
  length (filter f ops).

Definition is_start (op : bus_op) : bool :=
  match op with Twi_start => true | _ => false end.
Definition is_stop (op : bus_op) : bool :=
  match op with Twi_stop => true | _ => false end.
Definition is_address (op : bus_op) : bool :=
  match op with Twi_address _ _ => true | _ => false end.

(** A memory whose byte at address [p] is [p mod 256]. *)
Definition ramp : memory := fun p => p.

(** Number of command-control bytes in a record of transport calls. *)
Definition command_controls (ops : list bus_op) : nat :=
  length (filter (fun op => match op with
                            | Twi_set d => d =? OLED_CONTROL_COMMAND
                            | _ => false
                            end) ops).

End Oled.

(* ================================================================== *)
(** ** Text layer ([tty.c], [tty.h], [font.h]) *)
(* ================================================================== *)

Module Tty.

Import Oled.

Definition FONT_WIDTH : Z := 5.
Definition FONT_HEIGHT : Z := 7.
Definition FONT_ASCII_START_CHAR : Z := 32.
Definition FONT_ASCII_END_CHAR : Z := 126.
Definition NEWLINE : Z := 10.
Definition TTY_WIDTH : Z := OLED_COLUMN_SIZE / FONT_WIDTH.
Definition TTY_HEIGHT : Z := OLED_ROW_SIZE / OLED_PAGE_SIZE.

(** The static variables of [tty.c] ([TTY_AUTOSCROLL] is defined,
    [TTY_DYNAMIC_TEXT] is not) and the state of the display driver. *)
Record tty : Type := mkTty {
  tty_character : Z;
  tty_line : Z;
  tty_scroll : Z;
  display : oled
}.

Definition tty_reset : tty := mkTty 0 0 0 oled_reset.

Definition tproc : Type := tty -> option tty.

Definition tskip : tproc := fun t => Some t.
Definition tseq (p q : tproc) : tproc :=
  fun t => match p t with Some t' => q t' | None => None end.

(** A call into the display driver. *)
Definition lift (p : proc) : tproc :=
  fun t => match p (display t) with
           | Some d => Some (mkTty (tty_character t) (tty_line t) (tty_scroll t) d)
           | None => None
           end.

Definition set_position (character line : Z) (t : tty) : tty :=
  mkTty character line (tty_scroll t) (display t).

Definition set_scroll (scroll : Z) (t : tty) : tty :=
  mkTty (tty_character t) (tty_line t) scroll (display t).

(** [tty_init] *)
Definition tty_init : tproc :=
  fun t => tseq (lift oled_init) (lift oled_clear) (mkTty 0 0 0 (display t)).

(** [tty_clear_line] *)
Definition tty_clear_line (line : Z) : tproc :=
  if line >=? TTY_HEIGHT then tskip else lift (oled_clear_page line).

(** [tty_newline] *)
Definition tty_newline : tproc :=
  fun t =>
    let t := set_position 0 (u8 (tty_line t + 1)) t in
    let t := if tty_line t >=? 8 then set_scroll 1 (set_position 0 0 t) else t in
    let temp := u8 (tty_line t + 1) in
    let temp := if temp >=? 8 then 0 else temp in
    tseq (if negb (tty_scroll t =? 0)
          then lift (oled_scroll_vertical (u8 (TTY_HEIGHT * temp)))
          else tskip)
         (tty_clear_line (tty_line t)) t.

(** [tty_cursor] *)
Definition tty_cursor (column line : Z) : tproc :=
  if (column >=? TTY_WIDTH) || (line >=? TTY_HEIGHT) then tskip
  else
    fun t => lift (oled_position (u8 (column * FONT_WIDTH)) line)
                  (set_position column line t).

Definition TTY_HOME : tproc := tty_cursor 0 0.

Section Font.

(** [font_getchararray] is declared in [font.h]; its definition is not
    part of the sources at hand.  For a character it yields the data
    memory it leaves behind and the pointer it returns. *)
Variable font_getchararray : Z -> memory * Z.

(** [tty_putchar]; it returns 0 on every path. *)
Definition tty_putchar (character : Z) : tproc :=
  if negb (character =? NEWLINE)
     && (character <? FONT_ASCII_START_CHAR)
     && (character >? FONT_ASCII_END_CHAR)
  then tskip
  else if character =? NEWLINE then tty_newline
  else
    fun t =>
      let (mem, temp) := font_getchararray character in
      match lift (oled_page_segment mem temp
                    (u8 (tty_character t * FONT_WIDTH))
                    (u8 ((tty_character t + 1) * FONT_WIDTH))
                    (tty_line t)) t with
      | None => None
      | Some t =>
          let t := set_position (u8 (tty_character t + 1)) (tty_line t) t in
          if tty_character t >=? TTY_WIDTH then tty_newline t else Some t
      end.

(** The value of the [char] stored at each address. *)
Variable chars : Z -> Z.

(** [tty_string]: the loop runs until it reads a zero; [fuel] bounds the
    number of characters, and [None] stands for a string whose end was
    not reached within it. *)
Fixpoint tty_string (fuel : nat) (string : Z) : tproc :=
  match fuel with
  | O => fun _ => None
  | S fuel' =>
      if chars string =? 0 then tskip
      else tseq (tty_putchar (chars string)) (tty_string fuel' (string + 1))
  end.

(** [tty_printf] *)
Definition tty_printf (data : Z) : tproc := tty_putchar data.

(** The public functions of [tty.h] as requests. *)
Inductive trequest : Type :=
  | TReq_init
  | TReq_cursor (column line : Z)
  | TReq_clear_line (line : Z)
  | TReq_putchar (character : Z)
  | TReq_string (fuel : nat) (string : Z).

Definition tserve (r : trequest) : tproc :=
  match r with
  | TReq_init => tty_init
  | TReq_cursor column line => tty_cursor (u8 column) (u8 line)
  | TReq_clear_line line => tty_clear_line (u8 line)
  | TReq_putchar character => tty_putchar character
  | TReq_string fuel string => tty_string fuel string
  end.

(** Characters put one after the other. *)
Fixpoint put_all (cs : list Z) : tproc :=
  match cs with
  | [] => tskip
  | c :: cs' => tseq (tty_putchar c) (put_all cs')
  end.

Fixpoint tserve_all (rs : list trequest) : tproc :=
  match rs with
  | [] => tskip
  | r :: rs' => tseq (tserve r) (tserve_all rs')
  end.

End Font.

(** The text cursor is inside the text grid. *)
Definition tty_in_range (t : tty) : Prop :=
  0 <= tty_character t < TTY_WIDTH /\ 0 <= tty_line t < TTY_HEIGHT.

(** What holds of the text layer between any two calls: both cursors are
    in range and no transaction is open on the bus. *)
Definition tty_invariant (t : tty) : Prop :=
  tty_in_range t /\ cursor_in_range (display t) /\ framed (bus (display t)).

(** The line after [line], and what a line break puts on the bus when it
    arrives there: once the text has wrapped around, the display offset
    that brings the line after the new one to the top, and in any case the
    clearing of the new line. *)
Definition next_line (line : Z) : Z := (line + 1) mod 8.

Definition scroll_frame (line : Z) : list bus_op :=
  command_frame [OLED_CMD_SET_DISPLAY_OFFSET; 8 * next_line line].

Definition newline_bus (scrolling : bool) (line : Z) : list bus_op :=
  (if scrolling then scroll_frame line else []) ++ cleared_page line.

(** The glyph transaction of a character put at text column [character]
    of line [line]: [FONT_WIDTH + 1] bytes from the glyph pointer. *)
Definition glyph_bus (font : Z -> memory * Z) (c character line : Z) : list bus_op :=
  position_frame (character * FONT_WIDTH) line
    ++ data_frame (bytes_at (fst (font c)) (snd (font c)) 6).

(** A font whose glyph for character [c] is at address [8 * c] of a
    memory holding [p mod 256] at address [p]. *)
Definition ramp_font : Z -> memory * Z := fun c => (ramp, 8 * c).

(** The characters stored at the [n] addresses from [string] on. *)
Definition string_at (chars : Z -> Z) (string : Z) (n : nat) : list Z :=
  map (fun i => chars (string + Z.of_nat i)) (seq 0 n).

(** A character memory holding the two letters of "Hi" at addresses 0
    and 1 and zero everywhere else. *)
Definition hi_chars : Z -> Z :=
  fun p => if p =? 0 then 72 else if p =? 1 then 105 else 0.

(** The state a call that returned leaves behind. *)
Definition treturned (r : option tty) : tty :=
  match r with Some t => t | None => tty_reset end.

(** A request whose loop ends: a string request finds the terminating
    zero among the [fuel] characters it may read. *)
Definition terminates (chars : Z -> Z) (r : trequest) : bool :=
  match r with
  | TReq_string fuel string => existsb (fun c => c =? 0) (string_at chars string fuel)
  | _ => true
  end.

(** The requests that do not reinitialise the text layer. *)
Definition keeps_scroll (r : trequest) : bool :=
  match r with TReq_init => false | _ => true end.

End Tty.

(* ================================================================== *)
(** ** Hardware TWI master ([twi.c], [twi.h]) *)
(* ================================================================== *)

Module Twi.

Definition F_CPU : Z := 12000000.
Definition F_TWI : Z := 100000.
Definition TWI_PRESCALER : Z := 0.
Definition TWI_BITRATE : Z :=
  ((F_CPU / F_TWI) - 16) / (2 * Z.shiftl 1 TWI_PRESCALER * Z.shiftl 1 TWI_PRESCALER).

Definition TWI_STATUS_START : Z := 0x08.
Definition TWI_STATUS_REPEATED_START : Z := 0x10.
Definition TWI_STATUS_ADDRESS_WRITE_NACK : Z := 0x18.
Definition TWI_STATUS_ADDRESS_WRITE_ACK : Z := 0x20.
Definition TWI_STATUS_DATA_WRITE_NACK : Z := 0x28.
Definition TWI_STATUS_DATA_WRITE_ACK : Z := 0x30.
Definition TWI_STATUS_ARBITRATION_LOST : Z := 0x38.
Definition TWI_STATUS_ADDRESS_READ_ACK : Z := 0x40.
Definition TWI_STATUS_ADDRESS_READ_NACK : Z := 0x48.
Definition TWI_STATUS_DATA_READ_ACK : Z := 0x50.
Definition TWI_STATUS_DATA_READ_NACK : Z := 0x58.

(** The registers of the peripheral the code writes. *)
Inductive register : Type :=
  | TWBR
  | TWSR
  | TWCR
  | TWDR.

(** The registers are volatile: what a read returns is decided by the
    peripheral, not by the value written last.  The state keeps the
    writes in program order, the number of reads of the control and of
    the status register done so far, the number of [NOP]s executed, and
    the number of reads of the data register done so far. *)
Record twi : Type := mkTwi {
  writes : list (register * Z);
  control_reads : nat;
  status_reads : nat;
  nops : nat;
  data_reads : nat
}.

Definition twi_reset : twi := mkTwi [] 0 0 0 0.

Definition write (r : register) (v : Z) (h : twi) : twi :=
  mkTwi (writes h ++ [(r, u8 v)]) (control_reads h) (status_reads h) (nops h)
        (data_reads h).

Definition nop (h : twi) : twi :=
  mkTwi (writes h) (control_reads h) (status_reads h) (S (nops h)) (data_reads h).

Section Peripheral.

(** The bit numbers of the control register come from [avr/io.h], which
    is not part of the sources at hand. *)
Variables TWINT TWEA TWSTA TWSTO TWEN TWIE : Z.

(** The value of the register at the n-th read of the control register,
    at the n-th read of the status register and at the n-th read of the
    data register. *)
Variable TWCR_in : nat -> Z.
Variable TWSR_in : nat -> Z.
Variable TWDR_in : nat -> Z.

Definition read_TWCR (h : twi) : Z * twi :=
  (TWCR_in (control_reads h),
   mkTwi (writes h) (S (control_reads h)) (status_reads h) (nops h) (data_reads h)).

Definition read_TWSR (h : twi) : Z * twi :=
  (TWSR_in (status_reads h),
   mkTwi (writes h) (control_reads h) (S (status_reads h)) (nops h) (data_reads h)).

Definition read_TWDR (h : twi) : Z * twi :=
  (TWDR_in (data_reads h),
   mkTwi (writes h) (control_reads h) (status_reads h) (nops h) (S (data_reads h))).

(** [twi_status] *)
Definition twi_status (h : twi) : Z * twi :=
  let (status, h) := read_TWSR h in
  let (control, h) := read_TWCR h in
  (Z.lor (Z.land 0xF8 status) (Z.land 0x04 (Z.shiftr control 1)), h).

(** [twi_init] *)
Definition twi_init (h : twi) : Z * twi :=
  let h := write TWBR TWI_BITRATE h in
  let h := write TWSR TWI_PRESCALER h in
  twi_status h.

(** [twi_disable] *)
Definition twi_disable (h : twi) : twi :=
  let (control, h) := read_TWCR h in
  write TWCR
    (Z.land control
       (Z.lnot (Z.lor (Z.lor (Z.shiftl 1 TWEA) (Z.shiftl 1 TWEN)) (Z.shiftl 1 TWIE))))
    h.

(** [while(!(TWCR & (1<<flag))) asm volatile("NOP");]  The loop has no
    bound in the source; [fuel] bounds the number of reads, and [None]
    stands for a wait that has not ended within it. *)
Fixpoint wait_flag (flag : Z) (fuel : nat) (h : twi) : option twi :=
  match fuel with
  | O => None
  | S fuel' =>
      let (control, h) := read_TWCR h in
      if Z.land control (Z.shiftl 1 flag) =? 0
      then wait_flag flag fuel' (nop h)
      else Some h
  end.

(** [twi_start] *)
Definition twi_start (fuel : nat) (h : twi) : option (TWI_Error * twi) :=
  let h := write TWCR
             (Z.lor (Z.lor (Z.shiftl 1 TWINT) (Z.shiftl 1 TWSTA)) (Z.shiftl 1 TWEN)) h in
  match wait_flag TWINT fuel h with
  | None => None
  | Some h =>
      let (status, h) := read_TWSR h in
      if Z.land status 0xF8 =? TWI_STATUS_START then Some (TWI_None, h)
      else
        let (status, h) := read_TWSR h in
        if Z.land status 0xF8 =? TWI_STATUS_REPEATED_START then Some (TWI_None, h)
        else Some (TWI_Start, h)
  end.

(** [twi_stop] *)
Definition twi_stop (fuel : nat) (h : twi) : option twi :=
  let h := write TWCR
             (Z.lor (Z.lor (Z.shiftl 1 TWINT) (Z.shiftl 1 TWEN)) (Z.shiftl 1 TWSTO)) h in
  wait_flag TWSTO fuel h.

(** The [switch] of [twi_set] on the masked status. *)
Definition set_result (status : Z) : TWI_Error :=
  if status =? TWI_STATUS_DATA_WRITE_ACK then TWI_None
  else if status =? TWI_STATUS_DATA_WRITE_NACK then TWI_Ack
  else if status =? TWI_STATUS_ARBITRATION_LOST then TWI_Arbitration
  else TWI_General.

(** [twi_set] *)
Definition twi_set (fuel : nat) (data : Z) (h : twi) : option (TWI_Error * twi) :=
  let h := write TWDR data h in
  let h := write TWCR (Z.lor (Z.shiftl 1 TWINT) (Z.shiftl 1 TWEN)) h in
  match wait_flag TWINT fuel h with
  | None => None
  | Some h =>
      let (status, h) := read_TWSR h in
      Some (set_result (Z.land status 0xF8), h)
  end.

(** [twi_address] *)
Definition twi_address (fuel : nat) (address : Z) (operation : TWI_Operation)
    (h : twi) : option (TWI_Error * twi) :=
  twi_set fuel (u8 (Z.lor (Z.shiftl address 1) (Z.land 0x01 operation))) h.

(** [twi_get]; the byte stored through [data], which is written on
    every path once the wait has ended, is the second component of the
    result. *)
Definition twi_get (fuel : nat) (acknowledge : TWI_Acknowledge) (h : twi)
    : option (TWI_Error * Z * twi) :=
  let h :=
    match acknowledge with
    | TWI_ACK =>
        write TWCR
          (Z.lor (Z.lor (Z.shiftl 1 TWINT) (Z.shiftl 1 TWEA)) (Z.shiftl 1 TWEN)) h
    | TWI_NACK => write TWCR (Z.lor (Z.shiftl 1 TWINT) (Z.shiftl 1 TWEN)) h
    end in
  match wait_flag TWINT fuel h with
  | None => None
  | Some h =>
      let (received, h) := read_TWDR h in
      let data := u8 received in
      let (status, h) := read_TWSR h in
      if Z.land status 0xF8 =? TWI_STATUS_ARBITRATION_LOST
      then Some (TWI_Arbitration, data, h)
      else
        let (status, h) := read_TWSR h in
        match acknowledge with
        | TWI_ACK =>
            if Z.land status 0xF8 =? TWI_STATUS_DATA_READ_ACK
            then Some (TWI_None, data, h)
            else Some (TWI_Ack, data, h)
        | TWI_NACK =>
            if Z.land status 0xF8 =? TWI_STATUS_DATA_READ_NACK
            then Some (TWI_None, data, h)
            else Some (TWI_Ack, data, h)
        end
  end.

End Peripheral.

(** The status codes [twi.h] names for the address phase. *)
Definition address_status_codes : list Z :=
  [TWI_STATUS_ADDRESS_WRITE_NACK; TWI_STATUS_ADDRESS_WRITE_ACK;
   TWI_STATUS_ADDRESS_READ_ACK; TWI_STATUS_ADDRESS_READ_NACK].

(** A control register whose reads show bit 7 clear twice and set from
    the third read on, and one that never shows it. *)
Definition late_flag : nat -> Z := fun n => if (n <? 2)%nat then 0x04 else 0x84.
Definition no_flag : nat -> Z := fun _ => 0x04.

(** The outcome of a call that returned. *)
Definition twi_returned (r : option (TWI_Error * twi)) : TWI_Error * twi :=
  match r with Some x => x | None => (TWI_General, twi_reset) end.

End Twi.

(* ================================================================== *)
(** ** Properties of the software TWI master *)
(* ================================================================== *)

Import TwiSoft.

(** *** Bit tests *)

Lemma land_bit_testbit (p n : Z) :
  0 <= n -> (Z.land p (bit n) =? 0) = negb (Z.testbit p n).
Proof.
  intro Hn. unfold bit. rewrite Z.shiftl_1_l.
  destruct (Z.testbit p n) eqn:Hb; simpl.
  - apply Z.eqb_neq. intro H0.
    assert (Ht : Z.testbit (Z.land p (2 ^ n)) n = true).
    { rewrite Z.land_spec, Hb, Z.pow2_bits_true by assumption. reflexivity. }
    rewrite H0, Z.bits_0 in Ht. discriminate.
  - apply Z.eqb_eq. apply Z.bits_inj'. intros m Hm.
    rewrite Z.land_spec, Z.bits_0.
    destruct (Z.eq_dec n m) as [->|Hne].
    + rewrite Hb. reflexivity.
    + rewrite Z.pow2_bits_false by lia. apply andb_false_r.
Qed.

Lemma msb_first_bit (data i : Z) :
  0 <= i <= 7 ->
  (Z.land (Z.shiftl data i) 0x80 =? 0) = negb (Z.testbit data (7 - i)).
Proof.
  intro Hi. change 0x80 with (bit 7).
  rewrite land_bit_testbit by lia.
  rewrite Z.shiftl_spec by lia. reflexivity.
Qed.


(** *** Line events of the loop *)

Lemma clock_pulses_app (l1 l2 : list line_event) :
  clock_pulses (l1 ++ l2) = (clock_pulses l1 + clock_pulses l2)%nat.
Proof.
  induction l1 as [|e l1 IH]; simpl; [reflexivity|].
  destruct e; simpl; rewrite IH; reflexivity.
Qed.

Lemma quiet_clock_pulses (evs : list line_event) :
  quiet evs -> clock_pulses evs = O.
Proof.
  induction 1 as [|e evs He _ IH]; simpl; [reflexivity|].
  destruct e; try contradiction; exact IH.
Qed.

Lemma quiet_clocked_bits (evs rest : list line_event) (b : bool) :
  quiet evs -> clocked_bits b (evs ++ rest) = clocked_bits b rest.
Proof.
  induction 1 as [|e evs He _ IH]; simpl; [reflexivity|].
  destruct e; try contradiction; exact IH.
Qed.

Section BusFacts.

Variable PINB : nat -> Z.

Lemma clock_stretch_events (fuel : nat) :
  forall st st',
    clock_stretch PINB fuel st = Some st' ->
    twi_soft_bus_status st' = twi_soft_bus_status st /\
    exists evs, wire st' = wire st ++ evs /\ quiet evs.
Proof.
  induction fuel as [|fuel IH]; intros st st' H; simpl in H; [discriminate|].
  destruct (_ =? 0).
  - apply IH in H. destruct H as [Hs [evs [Hw Hq]]]. simpl in *.
    split; [exact Hs|].
    exists (Sample (PINB (reads st)) :: Nop :: evs). split.
    + rewrite Hw, <- !app_assoc. reflexivity.
    + repeat constructor. exact Hq.
  - injection H as <-. simpl. split; [reflexivity|].
    exists [Sample (PINB (reads st))]. split; [reflexivity|].
    repeat constructor.
Qed.

Lemma clock_pulse_events (fuel : nat) (st : hw) (r : flow) :
  clock_pulse PINB fuel st = Some r ->
  exists st' evs,
    r = Next st' /\ twi_soft_bus_status st' = twi_soft_bus_status st /\
    wire st' = wire st ++ SCL_high :: evs ++ [Wait] /\ quiet evs.
Proof.
  unfold clock_pulse. intro H.
  destruct (clock_stretch PINB fuel (SCL_HIGH st)) as [st1|] eqn:Hcs; [|discriminate].
  injection H as <-.
  apply clock_stretch_events in Hcs. destruct Hcs as [Hs [evs [Hw Hq]]].
  exists (delay st1), evs. simpl in *.
  repeat split; try assumption.
  rewrite Hw, <- !app_assoc. reflexivity.
Qed.

(** One completed iteration of the loop clocks out exactly one bit: the
    bit of [data] at position [7 - i]. *)
Lemma set_bit_cycle_next (fuel : nat) (data i : Z) (st st' : hw) :
  0 <= i <= 7 ->
  set_bit_cycle PINB fuel data i st = Some (Next st') ->
  twi_soft_bus_status st' = twi_soft_bus_status st /\
  exists evs,
    wire st' = wire st ++ evs /\ clock_pulses evs = 1%nat /\
    forall b rest,
      clocked_bits b (evs ++ rest) =
      Z.testbit data (7 - i) :: clocked_bits (Z.testbit data (7 - i)) rest.
Proof.
  intros Hi. unfold set_bit_cycle.
  rewrite msb_first_bit, negb_involutive by assumption.
  destruct (Z.testbit data (7 - i)); cbn -[Z.land bit clock_pulse].
  - destruct (Z.land _ _ =? 0); [discriminate|].
    intro H. apply clock_pulse_events in H.
    destruct H as [st1 [evs [E [Hs [Hw Hq]]]]]. injection E as <-.
    cbn in Hs, Hw. split; [exact Hs|].
    exists ([SCL_low; SDA_high; Wait; Sample (PINB (reads st)); SCL_high] ++ evs ++ [Wait]).
    repeat split.
    + rewrite Hw, <- !app_assoc. reflexivity.
    + cbn. rewrite clock_pulses_app, (quiet_clock_pulses _ Hq). reflexivity.
    + intros b rest. cbn. rewrite <- app_assoc, quiet_clocked_bits by assumption.
      reflexivity.
  - intro H. apply clock_pulse_events in H.
    destruct H as [st1 [evs [E [Hs [Hw Hq]]]]]. injection E as <-.
    cbn in Hs, Hw. split; [exact Hs|].
    exists ([SCL_low; SDA_low; Wait; SCL_high] ++ evs ++ [Wait]).
    repeat split.
    + rewrite Hw, <- !app_assoc. reflexivity.
    + cbn. rewrite clock_pulses_app, (quiet_clock_pulses _ Hq). reflexivity.
    + intros b rest. cbn. rewrite <- app_assoc, quiet_clocked_bits by assumption.
      reflexivity.
Qed.

Lemma set_bit_cycle_arbitration (fuel : nat) (data i : Z) (st : hw) :
  0 <= i <= 7 ->
  Z.testbit data (7 - i) = true ->
  Z.land (PINB (reads st)) (bit TWI_SOFT_SDA) = 0 ->
  set_bit_cycle PINB fuel data i st =
  Some (Return TWI_Arbitration (snd (read_PIN PINB (delay (SDA_HIGH (SCL_LOW st)))))).
Proof.
  intros Hi Hb Hlow. unfold set_bit_cycle.
  rewrite msb_first_bit, negb_involutive, Hb by assumption.
  cbn -[Z.land bit clock_pulse]. rewrite Hlow. reflexivity.
Qed.

Lemma set_bit_cycle_zero (fuel : nat) (data i : Z) (st : hw) :
  0 <= i <= 7 ->
  Z.testbit data (7 - i) = false ->
  set_bit_cycle PINB fuel data i st =
  clock_pulse PINB fuel (delay (SDA_LOW (SCL_LOW st))).
Proof.
  intros Hi Hb. unfold set_bit_cycle.
  rewrite msb_first_bit, negb_involutive, Hb by assumption. reflexivity.
Qed.

Lemma set_bits_split (fuel : nat) (data : Z) (a b : nat) :
  forall i st,
    set_bits PINB (a + b) fuel data i st =
    match set_bits PINB a fuel data i st with
    | Some (Next st') => set_bits PINB b fuel data (i + Z.of_nat a) st'
    | r => r
    end.
Proof.
  induction a as [|a IH]; intros i st.
  - simpl. rewrite Z.add_0_r. reflexivity.
  - cbn [Nat.add set_bits].
    destruct (set_bit_cycle PINB fuel data i st) as [[st1|e st1]|]; try reflexivity.
    rewrite IH. replace (i + 1 + Z.of_nat a) with (i + Z.of_nat (S a)) by lia.
    reflexivity.
Qed.

(** [n] completed iterations starting at index [i] clock out the bits of
    [data] at positions [7 - i], [7 - i - 1], ... and nothing else. *)
Lemma set_bits_next (fuel : nat) (data : Z) (n : nat) :
  forall i st st',
    0 <= i -> i + Z.of_nat n <= 8 ->
    set_bits PINB n fuel data i st = Some (Next st') ->
    twi_soft_bus_status st' = twi_soft_bus_status st /\
    exists evs,
      wire st' = wire st ++ evs /\ clock_pulses evs = n /\
      forall b rest, exists b',
        clocked_bits b (evs ++ rest) =
        map (fun k => Z.testbit data (7 - (i + Z.of_nat k))) (seq 0 n)
          ++ clocked_bits b' rest.
Proof.
  induction n as [|n IH]; intros i st st' Hi Hn H.
  - injection H as <-. split; [reflexivity|].
    exists []. rewrite app_nil_r. repeat split.
    intros b rest. exists b. reflexivity.
  - cbn [set_bits] in H.
    destruct (set_bit_cycle PINB fuel data i st) as [[st1|e st1]|] eqn:Hc;
      try discriminate.
    apply set_bit_cycle_next in Hc; [|lia].
    destruct Hc as [Hs1 [evs1 [Hw1 [Hp1 Hb1]]]].
    apply IH in H; [|lia|lia].
    destruct H as [Hs2 [evs2 [Hw2 [Hp2 Hb2]]]].
    split; [congruence|].
    exists (evs1 ++ evs2). repeat split.
    + rewrite Hw2, Hw1, app_assoc. reflexivity.
    + rewrite clock_pulses_app, Hp1, Hp2. reflexivity.
    + intros b rest.
      destruct (Hb2 (Z.testbit data (7 - i)) rest) as [b' Hb'].
      exists b'. rewrite <- app_assoc, Hb1, Hb'.
      cbn [seq map]. rewrite <- seq_shift, map_map.
      rewrite Z.add_0_r. cbn [app]. f_equal. f_equal.
      apply map_ext. intro k. f_equal. lia.
Qed.

(** The loop is left early only on an arbitration loss. *)
Lemma set_bits_return (fuel : nat) (data : Z) (n : nat) :
  forall i st st' e,
    set_bits PINB n fuel data i st = Some (Return e st') -> e = TWI_Arbitration.
Proof.
  induction n as [|n IH]; intros i st st' e H; [discriminate|].
  cbn [set_bits] in H.
  destruct (set_bit_cycle PINB fuel data i st) as [[st1|e1 st1]|] eqn:Hc;
    try discriminate.
  - eapply IH. exact H.
  - injection H as -> ->. unfold set_bit_cycle in Hc.
    destruct (negb _) in Hc; cbn -[Z.land bit clock_pulse] in Hc.
    + destruct (_ =? 0) in Hc.
      * injection Hc as <- _. reflexivity.
      * apply clock_pulse_events in Hc. destruct Hc as [? [? [? _]]]. discriminate.
    + apply clock_pulse_events in Hc. destruct Hc as [? [? [? _]]]. discriminate.
Qed.

(** A transmission that was not lost to arbitration clocked out the
    eight bits of [data], most significant first, and then one clock
    pulse with the data line released for the acknowledge bit. *)
Lemma twi_soft_set_clocks_byte (fuel : nat) (data : Z) (st st' : hw) (e : TWI_Error) :
  twi_soft_set PINB fuel data st = Some (e, st') ->
  e <> TWI_Arbitration ->
  twi_soft_bus_status st' = twi_soft_bus_status st /\
  exists evs,
    wire st' = wire st ++ evs /\
    clock_pulses evs = 9%nat /\
    forall b, clocked_bits b evs = byte_bits data ++ [true].
Proof.
  unfold twi_soft_set. intros H Hne.
  destruct (set_bits PINB (Z.to_nat CHAR_BIT) fuel data 0 st) as [[st8|e8 st8]|] eqn:Hb;
    try discriminate.
  - apply set_bits_next in Hb; [|lia|cbn; lia].
    destruct Hb as [Hs [evs [Hw [Hp Hbits]]]].
    unfold ack_phase in H. cbn -[Z.land bit] in H. injection H as <- <-.
    cbn. split; [exact Hs|].
    exists (evs ++ [SCL_low; SDA_high; Wait; Sample (PINB (reads st8)); SCL_high; Wait]).
    repeat split.
    + rewrite Hw, <- !app_assoc. reflexivity.
    + rewrite clock_pulses_app, Hp. reflexivity.
    + intro b. destruct (Hbits b
        [SCL_low; SDA_high; Wait; Sample (PINB (reads st8)); SCL_high; Wait]) as [b' Hb'].
      rewrite Hb'. reflexivity.
  - injection H as <- <-. apply set_bits_return in Hb. contradiction.
Qed.

(** On a bus where no device stretches the clock every wait ends at its
    first read, so [twi_soft_set] returns. *)
Lemma twi_soft_set_returns (fuel : nat) (data : Z) (st : hw) :
  (forall k, Z.land (PINB k) (bit TWI_SOFT_SCL) <> 0) ->
  exists r, twi_soft_set PINB (S fuel) data st = Some r.
Proof.
  intro Hscl.
  assert (Hcs : forall s, exists s', clock_stretch PINB (S fuel) s = Some s').
  { intro s. cbn -[Z.land bit]. specialize (Hscl (reads s)).
    apply Z.eqb_neq in Hscl. rewrite Hscl. eexists. reflexivity. }
  assert (Hcp : forall s, exists s', clock_pulse PINB (S fuel) s = Some (Next s')).
  { intro s. unfold clock_pulse. destruct (Hcs (SCL_HIGH s)) as [s' ->].
    eexists. reflexivity. }
  assert (Hcy : forall i s, exists r, set_bit_cycle PINB (S fuel) data i s = Some r).
  { intros i s. unfold set_bit_cycle.
    destruct (negb _); cbn -[Z.land bit clock_pulse].
    - destruct (_ =? 0); [eexists; reflexivity|].
      destruct (Hcp (snd (read_PIN PINB (delay (SDA_HIGH (SCL_LOW s)))))) as [s' Hs'].
      eexists. exact Hs'.
    - destruct (Hcp (delay (SDA_LOW (SCL_LOW s)))) as [s' Hs']. eexists. exact Hs'. }
  assert (Hbs : forall n i s, exists r, set_bits PINB n (S fuel) data i s = Some r).
  { induction n as [|n IH]; intros i s; [eexists; reflexivity|].
    cbn [set_bits]. destruct (Hcy i s) as [[s1|e s1] ->]; [apply IH|eexists; reflexivity]. }
  unfold twi_soft_set.
  destruct (Hbs (Z.to_nat CHAR_BIT) 0 st) as [[s8|e s8] ->]; eexists; reflexivity.
Qed.

End BusFacts.

(** *** The acknowledge phase *)

(** The acknowledge phase as the code has it: once the eight data bits
    are out, [twi_soft_set] drives the clock LOW, releases the data line,
    waits half a period, samples the data line once, and only then
    releases the clock and waits another half period; it does not wait
    for clock stretching in this phase.  A LOW sample gives [TWI_None], a
    HIGH sample gives [TWI_Ack], and nothing more is put on the bus for
    that byte. *)
Theorem twi_soft_set_ack_phase (PINB : nat -> Z) (fuel : nat) (data : Z) (st st8 : hw) :
  set_bits PINB (Z.to_nat CHAR_BIT) fuel data 0 st = Some (Next st8) ->
  exists st',
    twi_soft_set PINB fuel data st =
      Some (if Z.testbit (PINB (reads st8)) TWI_SOFT_SDA then TWI_Ack else TWI_None, st') /\
    wire st' =
      wire st8 ++ [SCL_low; SDA_high; Wait; Sample (PINB (reads st8)); SCL_high; Wait] /\
    reads st' = S (reads st8).
Proof.
  intro H. unfold twi_soft_set. rewrite H. unfold ack_phase.
  cbn -[Z.land bit Z.testbit]. rewrite land_bit_testbit by (unfold TWI_SOFT_SDA; lia).
  eexists. split; [|split].
  - destruct (Z.testbit (PINB (reads st8)) TWI_SOFT_SDA); reflexivity.
  - cbn. rewrite <- !app_assoc. reflexivity.
  - reflexivity.
Qed.

Lemma twi_soft_set_ack_phase_witness :
  exists st',
    twi_soft_set early_release_bus 1 0 hw_reset = Some (TWI_None, st') /\
    wire st' =
      wire (after_bits early_release_bus 8 1 0 hw_reset)
        ++ [SCL_low; SDA_high; Wait; Sample 1; SCL_high; Wait] /\
    reads st' = 9%nat.
Proof.
  destruct (twi_soft_set_ack_phase early_release_bus 1 0 hw_reset
              (after_bits early_release_bus 8 1 0 hw_reset)) as [st' H].
  - vm_compute. reflexivity.
  - exists st'. vm_compute in H. vm_compute. exact H.
Defined.

(** C4: the code breaks the claim.  On a bus whose data line is LOW
    before the ninth clock pulse and HIGH once the clock is released, the
    code reports success, where sampling after the clock release, as the
    claim orders it, reports an acknowledge failure: the sample of the
    code precedes its release of the clock and no read follows it.  On a
    bus whose peer holds the clock LOW from the ninth read on, the code
    returns after that one read, with the clock still held, where the
    claimed order waits for the clock; the eight data pulses of
    [twi_soft_set] and all nine pulses of [twi_soft_get] do wait. *)
Lemma twi_soft_set_samples_ack_before_clock_release :
  option_map fst (twi_soft_set early_release_bus 1 0 hw_reset) = Some TWI_None /\
  option_map fst (twi_soft_set_as_specified early_release_bus 1 0 hw_reset) = Some TWI_Ack /\
  option_map (fun r => skipn 48 (wire (snd r))) (twi_soft_set early_release_bus 1 0 hw_reset)
    = Some [SCL_low; SDA_high; Wait; Sample 1; SCL_high; Wait] /\
  option_map (fun r => (fst r, reads (snd r), skipn 48 (wire (snd r))))
             (twi_soft_set held_clock_bus 50 0 hw_reset)
    = Some (TWI_None, 9%nat, [SCL_low; SDA_high; Wait; Sample 0; SCL_high; Wait]) /\
  twi_soft_set_as_specified held_clock_bus 50 0 hw_reset = None /\
  clock_pulse held_clock_bus 50 (after_bits held_clock_bus 8 50 0 hw_reset) = None /\
  twi_soft_get held_clock_bus 50 TWI_ACK hw_reset = None.
Proof. vm_compute. repeat split. Qed.

(** *** Arbitration *)

(** C5: when the first [i] bits went out and bit [i] (counted from the
    most significant) is 1 but the data line reads LOW at the check,
    [twi_soft_set] returns [TWI_Arbitration] right after that sample: the
    clock is not released for bit [i], so only [i] clock pulses were
    produced, and the acknowledge phase is not entered.  When bit [i] is 0
    the iteration goes from the half-period wait straight to the clock
    release, without a sample, and cannot end in [TWI_Arbitration]. *)
Theorem twi_soft_set_arbitration_lost (PINB : nat -> Z) (fuel : nat) (data i : Z)
    (st st_i : hw) :
  0 <= i <= 7 ->
  set_bits PINB (Z.to_nat i) fuel data 0 st = Some (Next st_i) ->
  (Z.testbit data (7 - i) = true ->
   Z.land (PINB (reads st_i)) (bit TWI_SOFT_SDA) = 0 ->
   exists st',
     twi_soft_set PINB fuel data st = Some (TWI_Arbitration, st') /\
     wire st' = wire st_i ++ [SCL_low; SDA_high; Wait; Sample (PINB (reads st_i))] /\
     exists evs, wire st' = wire st ++ evs /\ clock_pulses evs = Z.to_nat i)
  /\
  (Z.testbit data (7 - i) = false ->
   set_bit_cycle PINB fuel data i st_i =
     clock_pulse PINB fuel (delay (SDA_LOW (SCL_LOW st_i))) /\
   forall st', set_bit_cycle PINB fuel data i st_i <> Some (Return TWI_Arbitration st')).
Proof.
  intros Hi Hpre. split.
  - intros Hbit Hlow.
    pose proof (set_bit_cycle_arbitration PINB fuel data i st_i Hi Hbit Hlow) as Hc.
    exists (snd (read_PIN PINB (delay (SDA_HIGH (SCL_LOW st_i))))).
    split; [|split].
    + unfold twi_soft_set.
      replace (Z.to_nat CHAR_BIT) with (Z.to_nat i + S (Z.to_nat (7 - i)))%nat
        by (unfold CHAR_BIT; lia).
      rewrite set_bits_split, Hpre. cbn [set_bits].
      rewrite Z2Nat.id, Z.add_0_l, Hc by lia. reflexivity.
    + cbn. rewrite <- !app_assoc. reflexivity.
    + apply set_bits_next in Hpre; [|lia|lia].
      destruct Hpre as [_ [evs [Hw [Hp _]]]].
      exists (evs ++ [SCL_low; SDA_high; Wait; Sample (PINB (reads st_i))]). split.
      * cbn. rewrite Hw, <- !app_assoc. reflexivity.
      * rewrite clock_pulses_app, Hp. cbn. lia.
  - intro Hbit. split.
    + apply set_bit_cycle_zero; assumption.
    + intros st' Habs. rewrite set_bit_cycle_zero in Habs by assumption.
      apply clock_pulse_events in Habs. destruct Habs as [? [? [? _]]]. discriminate.
Qed.

Lemma twi_soft_set_arbitration_lost_witness :
  (exists st',
     twi_soft_set contended_bus 1 0x40 hw_reset = Some (TWI_Arbitration, st') /\
     wire st' = wire (after_bits contended_bus 1 1 0x40 hw_reset)
                  ++ [SCL_low; SDA_high; Wait; Sample 1] /\
     exists evs, wire st' = wire hw_reset ++ evs /\ clock_pulses evs = 1%nat)
  /\
  (forall st',
     set_bit_cycle contended_bus 1 0x40 0 hw_reset <> Some (Return TWI_Arbitration st')).
Proof.
  split.
  - destruct (twi_soft_set_arbitration_lost contended_bus 1 0x40 1 hw_reset
                (after_bits contended_bus 1 1 0x40 hw_reset)) as [H _].
    + lia.
    + vm_compute. reflexivity.
    + destruct H as [st' H]; [vm_compute; reflexivity | vm_compute; reflexivity |].
      exists st'. vm_compute in H. vm_compute. exact H.
  - destruct (twi_soft_set_arbitration_lost contended_bus 1 0x40 0 hw_reset hw_reset)
      as [_ H].
    + lia.
    + vm_compute. reflexivity.
    + apply H. vm_compute. reflexivity.
Defined.

(** *** Addressing *)

Lemma address_byte_value (a d : Z) :
  0 <= a < 128 ->
  Z.lor (Z.shiftl a 1) (Z.land d 1) = 2 * a + d mod 2 /\
  0 <= Z.lor (Z.shiftl a 1) (Z.land d 1) < 256.
Proof.
  intro Ha.
  assert (Hd : Z.land d 1 = d mod 2).
  { change 1 with (Z.ones 1) at 1. rewrite Z.land_ones by lia. reflexivity. }
  assert (Hs : Z.shiftl a 1 = 2 * a).
  { rewrite Z.shiftl_mul_pow2 by lia. change (2 ^ 1) with 2. lia. }
  assert (Hdisj : Z.land (2 * a) (d mod 2) = 0).
  { pose proof (Z.mod_pos_bound d 2 ltac:(lia)) as Hb.
    assert (Hc : d mod 2 = 0 \/ d mod 2 = 1) by lia.
    destruct Hc as [-> | ->].
    - apply Z.land_0_r.
    - change 1 with (Z.ones 1). rewrite Z.land_ones by lia.
      change (2 ^ 1) with 2. rewrite Z.mul_comm. apply Z.mod_mul. lia. }
  rewrite Hd, Hs.
  rewrite <- Z.lxor_lor by exact Hdisj.
  rewrite <- Z.add_nocarry_lxor by exact Hdisj.
  pose proof (Z.mod_pos_bound d 2 ltac:(lia)). lia.
Qed.

(** C8: for a 7-bit address [a] and a direction [d], [twi_soft_address]
    is [twi_soft_set] of the byte [(a << 1) | (d & 1)], with the same
    status and the same effect on the bus; that byte is [2 a + d mod 2],
    its eight bits are what a transmission not lost to arbitration clocks
    out, and address 0x3C with [TWI_Write] gives the byte 0x78. *)
Theorem twi_soft_address_byte (PINB : nat -> Z) (fuel : nat) (a d : Z) (st : hw) :
  0 <= a < 128 ->
  Z.lor (Z.shiftl a 1) (Z.land d 1) = 2 * a + d mod 2 /\
  twi_soft_address PINB fuel a d st =
    twi_soft_set PINB fuel (Z.lor (Z.shiftl a 1) (Z.land d 1)) st /\
  (forall e st',
     twi_soft_address PINB fuel a d st = Some (e, st') ->
     e <> TWI_Arbitration ->
     exists evs,
       wire st' = wire st ++ evs /\
       forall b, clocked_bits b evs
                 = byte_bits (Z.lor (Z.shiftl a 1) (Z.land d 1)) ++ [true]) /\
  twi_soft_address PINB fuel 0x3C TWI_Write st = twi_soft_set PINB fuel 0x78 st.
Proof.
  intro Ha. destruct (address_byte_value a d Ha) as [Hv Hr].
  assert (Heq : twi_soft_address PINB fuel a d st =
                twi_soft_set PINB fuel (Z.lor (Z.shiftl a 1) (Z.land d 1)) st).
  { unfold twi_soft_address, u8. rewrite (Z.land_comm 1 d).
    rewrite Z.mod_small by exact Hr. reflexivity. }
  split; [exact Hv|]. split; [exact Heq|]. split.
  - intros e st' H Hne. rewrite Heq in H.
    apply twi_soft_set_clocks_byte in H; [|exact Hne].
    destruct H as [_ [evs [Hw [_ Hb]]]]. exists evs. split; assumption.
  - reflexivity.
Qed.

Lemma twi_soft_address_byte_witness :
  twi_soft_address idle_bus 1 0x3C TWI_Write hw_reset = twi_soft_set idle_bus 1 0x78 hw_reset /\
  exists evs,
    wire (snd (returned (twi_soft_address idle_bus 1 0x3C TWI_Write hw_reset)))
      = wire hw_reset ++ evs /\
    clocked_bits true evs = [false; true; true; true; true; false; false; false; true].
Proof.
  destruct (twi_soft_address_byte idle_bus 1 0x3C TWI_Write hw_reset) as [_ [H2 [H3 _]]].
  - lia.
  - split; [exact H2|].
    destruct (H3 (fst (returned (twi_soft_address idle_bus 1 0x3C TWI_Write hw_reset)))
                 (snd (returned (twi_soft_address idle_bus 1 0x3C TWI_Write hw_reset))))
      as [evs [Hw Hb]].
    + vm_compute. reflexivity.
    + vm_compute. discriminate.
    + exists evs. split; [exact Hw|]. rewrite Hb. vm_compute. reflexivity.
Defined.

(** *** Start and stop *)





(* ================================================================== *)
(** ** Properties of the display protocol layer *)
(* ================================================================== *)

Import Oled.

(** *** Straight-line code *)

Lemma seq_sends (l : list bus_op) (p : proc) (st : oled) :
  (sends l ;; p) st =
  p (mkOled (column_current_position st) (page_current_position st) (bus st ++ l)).
Proof. reflexivity. Qed.

Lemma seq_assoc (p q r : proc) (st : oled) :
  ((p ;; q) ;; r) st = (p ;; q ;; r) st.
Proof. unfold seq_proc. destruct (p st); reflexivity. Qed.

Lemma seq_some (p q : proc) (st st' : oled) :
  p st = Some st' -> (p ;; q) st = q st'.
Proof. unfold seq_proc. intros ->. reflexivity. Qed.

Lemma run_commands (commands : list Z) (st : oled) :
  run_seq oled_command commands st =
  sends (flat_map (fun c => [Twi_set OLED_CONTROL_COMMAND; Twi_set c]) commands) st.
Proof.
  revert st. induction commands as [|c cs IH]; intro st.
  - unfold sends. cbn. rewrite app_nil_r. destruct st; reflexivity.
  - cbn [run_seq flat_map]. unfold oled_command, call.
    rewrite seq_assoc, !seq_sends, IH. unfold sends. cbn.
    rewrite <- !app_assoc. reflexivity.
Qed.

Lemma command_frame_sends (commands : list Z) (st : oled) :
  (OLED_START TWI_Write ;; run_seq oled_command commands ;; OLED_STOP) st =
  sends (command_frame commands) st.
Proof.
  unfold OLED_START, OLED_STOP, call, command_frame.
  rewrite seq_assoc, !seq_sends. erewrite seq_some by apply run_commands.
  unfold sends. cbn. rewrite <- !app_assoc. reflexivity.
Qed.

Lemma oled_position_accepts (column page : Z) (st : oled) :
  column < OLED_COLUMN_SIZE -> page < OLED_PAGE_SIZE ->
  oled_position column page st =
  Some (mkOled column page (bus st ++ position_frame column page)).
Proof.
  intros Hc Hp. unfold oled_position.
  apply Z.ltb_lt in Hc, Hp. rewrite Hc, Hp. cbn [andb].
  unfold seq_proc at 1. cbn [set_cursor].
  exact (command_frame_sends (position_commands column page)
           (mkOled column page (bus st))).
Qed.

Lemma oled_position_rejects (column page : Z) (st : oled) :
  column >= OLED_COLUMN_SIZE \/ page >= OLED_PAGE_SIZE ->
  oled_position column page st = Some st.
Proof.
  intro H. unfold oled_position.
  destruct (column <? OLED_COLUMN_SIZE) eqn:Hc; [|reflexivity].
  destruct (page <? OLED_PAGE_SIZE) eqn:Hp; [|reflexivity].
  apply Z.ltb_lt in Hc, Hp. lia.
Qed.

Lemma oled_scroll_vertical_accepts (scroll : Z) (st : oled) :
  scroll < OLED_ROW_SIZE ->
  oled_scroll_vertical scroll st =
  sends (command_frame [OLED_CMD_SET_DISPLAY_OFFSET; scroll]) st.
Proof.
  intro H. unfold oled_scroll_vertical.
  destruct (scroll >=? OLED_ROW_SIZE) eqn:E; [apply Z.geb_le in E; lia|].
  exact (command_frame_sends [OLED_CMD_SET_DISPLAY_OFFSET; scroll] st).
Qed.

(** *** Loops *)

(** A loop over an [unsigned char] counter whose condition holds on
    [i, i + n) and fails at [i + n], with [i + n] below the wrap-around,
    runs its body for exactly these indices. *)
Lemma for_u8_run (cond : Z -> bool) (body : Z -> proc) (n : nat) :
  forall fuel i st,
    (n < fuel)%nat -> 0 <= i -> i + Z.of_nat n < 256 ->
    (forall k, i <= k < i + Z.of_nat n -> cond k = true) ->
    cond (i + Z.of_nat n) = false ->
    for_u8 fuel cond body i st =
    run_seq body (map (fun k => i + Z.of_nat k) (seq 0 n)) st.
Proof.
  induction n as [|n IH]; intros fuel i st Hf Hi Hn Ht Hx;
    (destruct fuel as [|fuel]; [lia|]); cbn [for_u8].
  - rewrite Z.add_0_r in Hx. rewrite Hx. reflexivity.
  - rewrite Ht by lia. cbn [seq map run_seq]. rewrite Z.add_0_r.
    unfold seq_proc. destruct (body i st) as [st1|]; [|reflexivity].
    unfold u8. rewrite Z.mod_small by lia.
    rewrite IH; try lia.
    + rewrite <- seq_shift, map_map. f_equal. apply map_ext. intro k. lia.
    + intros k Hk. apply Ht. lia.
    + replace (i + 1 + Z.of_nat n) with (i + Z.of_nat (S n)) by lia. exact Hx.
Qed.

Lemma run_constant_sends (op : bus_op) (indices : list Z) (st : oled) :
  run_seq (fun _ => call op) indices st = sends (repeat op (length indices)) st.
Proof.
  revert st. induction indices as [|i l IH]; intro st.
  - unfold sends. cbn. rewrite app_nil_r. destruct st; reflexivity.
  - cbn [run_seq length repeat]. unfold call. rewrite seq_sends, IH.
    unfold sends. cbn. rewrite <- app_assoc. reflexivity.
Qed.

Lemma page_segment_loop_sends (mem : memory) (n : nat) :
  forall fuel data i column_stop st,
    (n < fuel)%nat -> 0 <= i -> column_stop < 255 ->
    Z.of_nat n = column_stop + 1 - i ->
    page_segment_loop mem fuel data i column_stop st =
    sends (map Twi_set (bytes_at mem data n)) st.
Proof.
  induction n as [|n IH]; intros fuel data i column_stop st Hf Hi Hs Hn;
    (destruct fuel as [|fuel]; [lia|]); cbn [page_segment_loop].
  - destruct (i <=? column_stop) eqn:E; [apply Z.leb_le in E; lia|].
    unfold sends, skip. cbn. rewrite app_nil_r. destruct st; reflexivity.
  - destruct (i <=? column_stop) eqn:E; [|apply Z.leb_gt in E; lia].
    unfold call. rewrite seq_sends. unfold u8. rewrite Z.mod_small by lia.
    rewrite IH by lia. unfold sends, bytes_at. cbn [seq map bus
      column_current_position page_current_position].
    rewrite <- app_assoc, Z.add_0_r. cbn [app]. do 4 f_equal.
    rewrite <- seq_shift, !map_map. apply map_ext. intro k. do 2 f_equal. lia.
Qed.

(** *** Transactions of the single functions *)

Lemma geb_false (x y : Z) : x < y -> (x >=? y) = false.
Proof. intro H. rewrite Z.geb_leb. apply Z.leb_gt. exact H. Qed.

Lemma geb_true (x y : Z) : x >= y -> (x >=? y) = true.
Proof. intro H. rewrite Z.geb_leb. apply Z.leb_le. lia. Qed.

Lemma data_frame_sends (p : proc) (bytes : list Z) (st : oled) :
  (forall s, p s = sends (map Twi_set bytes) s) ->
  (OLED_START TWI_Write ;; OLED_DATA ;; p ;; OLED_STOP) st = sends (data_frame bytes) st.
Proof.
  intro Hp. unfold OLED_START, OLED_DATA, OLED_STOP, call, data_frame.
  rewrite seq_assoc, !seq_sends. erewrite seq_some by apply Hp.
  unfold sends. cbn. rewrite <- !app_assoc. reflexivity.
Qed.

Lemma oled_page_segment_accepts (mem : memory) (data column_start column_stop page : Z)
    (st : oled) :
  0 <= column_start < column_stop -> column_stop < OLED_COLUMN_SIZE ->
  page < OLED_PAGE_SIZE ->
  oled_page_segment mem data column_start column_stop page st =
  Some (mkOled column_start page
          (bus st ++ position_frame column_start page
             ++ data_frame (bytes_at mem data (Z.to_nat (column_stop - column_start + 1))))).
Proof.
  intros Hc Hs Hp. unfold oled_page_segment.
  rewrite !geb_false by (try assumption; lia). cbn [orb].
  erewrite seq_some by (apply oled_position_accepts; lia).
  rewrite (data_frame_sends _ (bytes_at mem data (Z.to_nat (column_stop - column_start + 1)))).
  - unfold sends. cbn. rewrite <- app_assoc. reflexivity.
  - intro s. apply page_segment_loop_sends; unfold u8_fuel, OLED_COLUMN_SIZE in *; lia.
Qed.

Lemma oled_page_segment_rejects (mem : memory) (data column_start column_stop page : Z)
    (st : oled) :
  column_start >= column_stop \/ column_stop >= OLED_COLUMN_SIZE \/ page >= OLED_PAGE_SIZE ->
  oled_page_segment mem data column_start column_stop page st = Some st.
Proof.
  intro H. unfold oled_page_segment.
  destruct H as [H | [H | H]]; rewrite (geb_true _ _ H);
    rewrite ?orb_true_r; reflexivity.
Qed.

Lemma oled_clear_page_segment_accepts (column_start column_stop page : Z) (st : oled) :
  0 <= column_start < column_stop -> column_stop < OLED_COLUMN_SIZE ->
  page < OLED_PAGE_SIZE ->
  oled_clear_page_segment column_start column_stop page st =
  Some (mkOled column_start page
          (bus st ++ position_frame column_start page
             ++ data_frame (repeat 0x00 (Z.to_nat (column_stop + 1))))).
Proof.
  intros Hc Hs Hp. unfold oled_clear_page_segment.
  rewrite !geb_false by (try assumption; lia). cbn [orb].
  erewrite seq_some by (apply oled_position_accepts; lia).
  rewrite (data_frame_sends _ (repeat 0x00 (Z.to_nat (column_stop + 1)))).
  - unfold sends. cbn. rewrite <- app_assoc. reflexivity.
  - intro s.
    rewrite (for_u8_run _ _ (Z.to_nat (column_stop + 1)));
      unfold u8_fuel, OLED_COLUMN_SIZE in *; try lia.
    + rewrite run_constant_sends, length_map, length_seq, map_repeat. reflexivity.
    + apply Z.leb_gt. lia.
Qed.

Lemma oled_clear_page_segment_rejects (column_start column_stop page : Z) (st : oled) :
  column_start >= column_stop \/ column_stop >= OLED_COLUMN_SIZE \/ page >= OLED_PAGE_SIZE ->
  oled_clear_page_segment column_start column_stop page st = Some st.
Proof.
  intro H. unfold oled_clear_page_segment.
  destruct H as [H | [H | H]]; rewrite (geb_true _ _ H);
    rewrite ?orb_true_r; reflexivity.
Qed.

Lemma oled_column_accepts (data column page : Z) (st : oled) :
  column < OLED_COLUMN_SIZE -> page < OLED_PAGE_SIZE ->
  oled_column data column page st =
  Some (mkOled column page (bus st ++ position_frame column page ++ data_frame [data])).
Proof.
  intros Hc Hp. unfold oled_column.
  rewrite !geb_false by assumption. cbn [orb].
  erewrite seq_some by (apply oled_position_accepts; assumption).
  rewrite (data_frame_sends _ [data]) by reflexivity.
  unfold sends. cbn. rewrite <- app_assoc. reflexivity.
Qed.

Lemma oled_column_rejects (data column page : Z) (st : oled) :
  column >= OLED_COLUMN_SIZE \/ page >= OLED_PAGE_SIZE ->
  oled_column data column page st = Some st.
Proof.
  intro H. unfold oled_column.
  destruct H as [H | H]; rewrite (geb_true _ _ H); rewrite ?orb_true_r; reflexivity.
Qed.

Lemma oled_clear_column_accepts (column page : Z) (st : oled) :
  column < OLED_COLUMN_SIZE -> page < OLED_PAGE_SIZE ->
  oled_clear_column column page st =
  Some (mkOled column page (bus st ++ position_frame column page ++ data_frame [0x00])).
Proof.
  intros Hc Hp. unfold oled_clear_column.
  erewrite seq_some by (apply oled_position_accepts; assumption).
  rewrite (data_frame_sends _ [0x00]) by reflexivity.
  unfold sends. cbn. rewrite <- app_assoc. reflexivity.
Qed.

Lemma oled_clear_column_out_of_range (column page : Z) (st : oled) :
  column >= OLED_COLUMN_SIZE \/ page >= OLED_PAGE_SIZE ->
  oled_clear_column column page st =
  Some (mkOled (column_current_position st) (page_current_position st)
          (bus st ++ data_frame [0x00])).
Proof.
  intro H. unfold oled_clear_column.
  erewrite seq_some by (apply oled_position_rejects; exact H).
  rewrite (data_frame_sends _ [0x00]) by reflexivity. reflexivity.
Qed.

Lemma oled_page_accepts (mem : memory) (data page : Z) (st : oled) :
  page < OLED_PAGE_SIZE ->
  oled_page mem data page st =
  Some (mkOled 0 page
          (bus st ++ position_frame 0 page ++ data_frame (bytes_at mem data 128))).
Proof.
  intro Hp. unfold oled_page. rewrite geb_false by assumption.
  rewrite oled_page_segment_accepts; unfold OLED_COLUMN_SIZE; try lia; try assumption.
  reflexivity.
Qed.

Lemma oled_clear_page_accepts (page : Z) (st : oled) :
  page < OLED_PAGE_SIZE ->
  oled_clear_page page st =
  Some (mkOled 0 page
          (bus st ++ position_frame 0 page ++ data_frame (repeat 0x00 128))).
Proof.
  intro Hp. unfold oled_clear_page.
  rewrite oled_clear_page_segment_accepts; unfold OLED_COLUMN_SIZE; try lia; try assumption.
  reflexivity.
Qed.

Lemma seq_middle (p q q' r : proc) (st : oled) :
  (forall s, q s = q' s) -> (p ;; q ;; r) st = (p ;; q' ;; r) st.
Proof.
  intro H. unfold seq_proc. destruct (p st) as [s|]; [|reflexivity].
  rewrite H. reflexivity.
Qed.

Lemma run_seq_map (f : Z -> proc) (g : Z -> Z) (l : list Z) (st : oled) :
  run_seq (fun i => f (g i)) l st = run_seq f (map g l) st.
Proof.
  revert st. induction l as [|i l IH]; intro st; [reflexivity|].
  cbn [run_seq map]. unfold seq_proc. destruct (f (g i) st); [apply IH|reflexivity].
Qed.

Lemma page_loop_run (body : Z -> proc) (st : oled) :
  for_u8 u8_fuel (fun page => page <? OLED_PAGE_SIZE) body 0 st = run_seq body pages st.
Proof.
  rewrite (for_u8_run _ _ 8); try reflexivity; unfold u8_fuel; try lia.
  intros k Hk. apply Z.ltb_lt. unfold OLED_PAGE_SIZE. lia.
Qed.

Lemma oled_clear_effect (st : oled) :
  oled_clear st =
  Some (mkOled 0 0 (bus st ++ flat_map cleared_page pages ++ position_frame 0 0)).
Proof.
  unfold oled_clear, OLED_HOME.
  erewrite seq_some.
  2:{ rewrite page_loop_run. unfold pages. cbn [run_seq].
      repeat (erewrite seq_some
                by (apply oled_clear_page_accepts; unfold OLED_PAGE_SIZE; lia)).
      reflexivity. }
  rewrite oled_position_accepts by reflexivity.
  cbn [bus flat_map pages]. unfold cleared_page.
  rewrite <- !app_assoc. reflexivity.
Qed.

Lemma oled_frame_effect (mem : memory) (frame : Z) (st : oled) :
  oled_frame mem frame st =
  Some (mkOled 0 7 (bus st ++ position_frame 0 0 ++ flat_map (written_page mem frame) pages)).
Proof.
  unfold oled_frame, OLED_HOME.
  erewrite seq_some by (apply oled_position_accepts; reflexivity).
  rewrite page_loop_run. unfold pages. cbn [run_seq].
  repeat (erewrite seq_some
            by (apply oled_page_accepts; unfold OLED_PAGE_SIZE; lia)).
  unfold skip. cbn [bus flat_map]. unfold written_page.
  rewrite <- !app_assoc. reflexivity.
Qed.

Lemma init_loop_run (st : oled) :
  for_u8 u8_fuel (fun i => i <? Z.of_nat (length oled_init_commands))
         (fun i => oled_command (nth (Z.to_nat i) oled_init_commands 0)) 0 st =
  run_seq oled_command oled_init_commands st.
Proof.
  change (Z.of_nat (length oled_init_commands)) with 21.
  rewrite (for_u8_run _ _ 21).
  - rewrite (run_seq_map oled_command (fun i => nth (Z.to_nat i) oled_init_commands 0)).
    replace (map _ _) with oled_init_commands by (vm_compute; reflexivity).
    reflexivity.
  - unfold u8_fuel. lia.
  - lia.
  - lia.
  - intros k Hk. apply Z.ltb_lt. lia.
  - vm_compute. reflexivity.
Qed.

Lemma oled_init_effect (st : oled) :
  oled_init st =
  Some (mkOled 0 0
          (bus st ++ Twi_init :: command_frame oled_init_commands
             ++ flat_map cleared_page pages ++ position_frame 0 0)).
Proof.
  unfold oled_init, call. rewrite seq_sends.
  rewrite <- seq_assoc, <- seq_assoc.
  erewrite seq_some.
  2:{ rewrite seq_assoc. erewrite seq_middle by apply init_loop_run.
      apply command_frame_sends. }
  rewrite oled_clear_effect. cbn [bus].
  rewrite <- !app_assoc. reflexivity.
Qed.

(** *** Whole transactions *)

Create HintDb frames.

Lemma framed_app (l1 l2 : list bus_op) : framed l1 -> framed l2 -> framed (l1 ++ l2).
Proof.
  induction 1 as [|rest _ IH|rest _ IH|commands rest _ IH|bytes rest _ IH]; intro H2;
    rewrite <- ?app_assoc; cbn [app]; try constructor; auto.
Qed.

Lemma framed_one_command (commands : list Z) : framed (command_frame commands).
Proof. rewrite <- (app_nil_r (command_frame commands)). repeat constructor. Qed.

Lemma framed_one_data (bytes : list Z) : framed (data_frame bytes).
Proof. rewrite <- (app_nil_r (data_frame bytes)). repeat constructor. Qed.

Lemma framed_position (column page : Z) : framed (position_frame column page).
Proof. apply framed_one_command. Qed.

Lemma framed_flat_map (f : Z -> list bus_op) (l : list Z) :
  (forall x, framed (f x)) -> framed (flat_map f l).
Proof.
  intro H. induction l as [|x l IH]; cbn [flat_map]; [constructor|].
  apply framed_app; auto.
Qed.

#[local] Hint Resolve framed_app framed_one_command framed_one_data framed_position
  framed_flat_map framed_nil : frames.
#[local] Hint Constructors framed : frames.

Lemma framed_cleared_page (page : Z) : framed (cleared_page page).
Proof. unfold cleared_page. auto with frames. Qed.

Lemma framed_written_page (mem : memory) (frame page : Z) :
  framed (written_page mem frame page).
Proof. unfold written_page. auto with frames. Qed.

#[local] Hint Resolve framed_cleared_page framed_written_page : frames.

Lemma u8_range (x : Z) : 0 <= u8 x < 256.
Proof. unfold u8. apply Z.mod_pos_bound. lia. Qed.

Lemma reposition_one_accepted (column page : Z) (st : oled) :
  column < OLED_COLUMN_SIZE -> page < OLED_PAGE_SIZE ->
  reposition [(column, page)] st =
  Some (mkOled column page (bus st ++ position_frame column page)).
Proof.
  intros Hc Hp. cbn [reposition fold_right fst snd].
  erewrite seq_some by (apply oled_position_accepts; assumption). reflexivity.
Qed.

Lemma reposition_pages_home (st : oled) :
  option_map cursor (reposition (map (fun page => (0, page)) pages ++ [(0, 0)]) st)
  = Some (0, 0).
Proof.
  unfold reposition, pages. cbn [map app fold_right fst snd].
  repeat (erewrite seq_some by (apply oled_position_accepts; reflexivity)).
  reflexivity.
Qed.

Lemma reposition_home_pages (st : oled) :
  option_map cursor (reposition ((0, 0) :: map (fun page => (0, page)) pages) st)
  = Some (0, 7).
Proof.
  unfold reposition, pages. cbn [map app fold_right fst snd].
  repeat (erewrite seq_some by (apply oled_position_accepts; reflexivity)).
  reflexivity.
Qed.

Ltac effect_of st1 l := exists st1, l; split; [|split; [|split; [|split]]].

Ltac in_range :=
  unfold cursor_in_range, OLED_COLUMN_SIZE, OLED_PAGE_SIZE in *;
  cbn [column_current_position page_current_position]; lia.

Lemma unchanged_effect (mem : memory) (r : request) (st : oled) :
  serve mem r st = Some st -> position_calls r = [] -> request_effect mem r st.
Proof.
  intros Hs Hc. effect_of st (@nil bus_op).
  - exact Hs.
  - rewrite app_nil_r. reflexivity.
  - constructor.
  - rewrite Hc. reflexivity.
  - auto.
Qed.

Lemma serve_effect (mem : memory) (r : request) (st : oled) : request_effect mem r st.
Proof.
  destruct r as [ | | column page | scroll | frame | data page
                | data column_start column_stop page | data column page |
                | page | column_start column_stop page | column page ].
  - (* oled_init *)
    effect_of (mkOled 0 0 (bus st ++ Twi_init :: command_frame oled_init_commands
                             ++ flat_map cleared_page pages ++ position_frame 0 0))
              (Twi_init :: command_frame oled_init_commands
                 ++ flat_map cleared_page pages ++ position_frame 0 0).
    + apply oled_init_effect.
    + reflexivity.
    + auto 6 with frames.
    + apply reposition_pages_home.
    + intros _. in_range.
  - (* oled_disable *)
    effect_of (mkOled (column_current_position st) (page_current_position st)
                 (bus st ++ [Twi_disable])) [Twi_disable];
      try reflexivity; auto with frames.
  - (* oled_position *)
    pose proof (u8_range column) as Hc. pose proof (u8_range page) as Hp.
    destruct (Z_lt_ge_dec (u8 column) OLED_COLUMN_SIZE) as [Hc1|Hc1];
      [destruct (Z_lt_ge_dec (u8 page) OLED_PAGE_SIZE) as [Hp1|Hp1]|].
    + effect_of (mkOled (u8 column) (u8 page)
                   (bus st ++ position_frame (u8 column) (u8 page)))
                (position_frame (u8 column) (u8 page)).
      * apply oled_position_accepts; assumption.
      * reflexivity.
      * auto with frames.
      * cbn [position_calls]. rewrite reposition_one_accepted by assumption. reflexivity.
      * intros _. in_range.
    + effect_of st (@nil bus_op).
      * apply oled_position_rejects. auto.
      * rewrite app_nil_r. reflexivity.
      * constructor.
      * cbn [position_calls reposition fold_right fst snd].
        erewrite seq_some by (apply oled_position_rejects; auto). reflexivity.
      * auto.
    + effect_of st (@nil bus_op).
      * apply oled_position_rejects. auto.
      * rewrite app_nil_r. reflexivity.
      * constructor.
      * cbn [position_calls reposition fold_right fst snd].
        erewrite seq_some by (apply oled_position_rejects; auto). reflexivity.
      * auto.
  - (* oled_scroll_vertical *)
    cbn [serve]. destruct (Z_lt_ge_dec (u8 scroll) OLED_ROW_SIZE) as [H|H].
    + effect_of (mkOled (column_current_position st) (page_current_position st)
                   (bus st ++ command_frame [OLED_CMD_SET_DISPLAY_OFFSET; u8 scroll]))
                (command_frame [OLED_CMD_SET_DISPLAY_OFFSET; u8 scroll]);
        try reflexivity; auto with frames.
      apply oled_scroll_vertical_accepts. exact H.
    + apply unchanged_effect; [|reflexivity].
      cbn [serve]. unfold oled_scroll_vertical. rewrite geb_true by exact H. reflexivity.
  - (* oled_frame *)
    effect_of (mkOled 0 7 (bus st ++ position_frame 0 0
                             ++ flat_map (written_page mem frame) pages))
              (position_frame 0 0 ++ flat_map (written_page mem frame) pages).
    + apply oled_frame_effect.
    + reflexivity.
    + auto with frames.
    + apply reposition_home_pages.
    + intros _. in_range.
  - (* oled_page *)
    pose proof (u8_range page) as Hp.
    destruct (u8 page >=? OLED_PAGE_SIZE) eqn:E.
    + apply unchanged_effect.
      * cbn [serve]. unfold oled_page. rewrite E. reflexivity.
      * cbn [position_calls]. rewrite E. reflexivity.
    + pose proof E as G. rewrite Z.geb_leb in E. apply Z.leb_gt in E.
      effect_of (mkOled 0 (u8 page)
                   (bus st ++ position_frame 0 (u8 page) ++ data_frame (bytes_at mem data 128)))
                (position_frame 0 (u8 page) ++ data_frame (bytes_at mem data 128)).
      * apply oled_page_accepts. exact E.
      * reflexivity.
      * auto with frames.
      * cbn [position_calls]. rewrite G.
        rewrite reposition_one_accepted by (try exact E; reflexivity). reflexivity.
      * intros _. in_range.
  - (* oled_page_segment *)
    pose proof (u8_range page) as Hp. pose proof (u8_range column_start) as Hs.
    pose proof (u8_range column_stop) as He.
    destruct ((u8 page >=? OLED_PAGE_SIZE) || (u8 column_stop >=? OLED_COLUMN_SIZE)
              || (u8 column_start >=? u8 column_stop)) eqn:E.
    + apply unchanged_effect.
      * cbn [serve]. unfold oled_page_segment. rewrite E. reflexivity.
      * cbn [position_calls]. rewrite E. reflexivity.
    + pose proof E as G. apply orb_false_elim in E. destruct E as [E E3].
      apply orb_false_elim in E. destruct E as [E1 E2].
      rewrite Z.geb_leb in E1, E2, E3. apply Z.leb_gt in E1, E2, E3.
      effect_of (mkOled (u8 column_start) (u8 page)
                   (bus st ++ position_frame (u8 column_start) (u8 page)
                      ++ data_frame (bytes_at mem data
                                       (Z.to_nat (u8 column_stop - u8 column_start + 1)))))
                (position_frame (u8 column_start) (u8 page)
                   ++ data_frame (bytes_at mem data
                                    (Z.to_nat (u8 column_stop - u8 column_start + 1)))).
      * apply oled_page_segment_accepts; try assumption; lia.
      * reflexivity.
      * auto with frames.
      * cbn [position_calls]. rewrite G.
        rewrite reposition_one_accepted by (try assumption; unfold OLED_COLUMN_SIZE in *; lia).
        reflexivity.
      * intros _. in_range.
  - (* oled_column *)
    pose proof (u8_range page) as Hp. pose proof (u8_range column) as Hc.
    destruct ((u8 page >=? OLED_PAGE_SIZE) || (u8 column >=? OLED_COLUMN_SIZE)) eqn:E.
    + apply unchanged_effect.
      * cbn [serve]. unfold oled_column. rewrite E. reflexivity.
      * cbn [position_calls]. rewrite E. reflexivity.
    + pose proof E as G. apply orb_false_elim in E. destruct E as [E1 E2].
      rewrite Z.geb_leb in E1, E2. apply Z.leb_gt in E1, E2.
      effect_of (mkOled (u8 column) (u8 page)
                   (bus st ++ position_frame (u8 column) (u8 page) ++ data_frame [u8 data]))
                (position_frame (u8 column) (u8 page) ++ data_frame [u8 data]).
      * apply oled_column_accepts; assumption.
      * reflexivity.
      * auto with frames.
      * cbn [position_calls]. rewrite G.
        rewrite reposition_one_accepted by assumption. reflexivity.
      * intros _. in_range.
  - (* oled_clear *)
    effect_of (mkOled 0 0 (bus st ++ flat_map cleared_page pages ++ position_frame 0 0))
              (flat_map cleared_page pages ++ position_frame 0 0).
    + apply oled_clear_effect.
    + reflexivity.
    + auto with frames.
    + apply reposition_pages_home.
    + intros _. in_range.
  - (* oled_clear_page *)
    pose proof (u8_range page) as Hp.
    destruct (u8 page >=? OLED_PAGE_SIZE) eqn:E.
    + apply unchanged_effect.
      * cbn [serve]. unfold oled_clear_page, oled_clear_page_segment.
        rewrite E. reflexivity.
      * cbn [position_calls]. rewrite E. reflexivity.
    + pose proof E as G. rewrite Z.geb_leb in E. apply Z.leb_gt in E.
      effect_of (mkOled 0 (u8 page)
                   (bus st ++ position_frame 0 (u8 page) ++ data_frame (repeat 0x00 128)))
                (position_frame 0 (u8 page) ++ data_frame (repeat 0x00 128)).
      * apply oled_clear_page_accepts. exact E.
      * reflexivity.
      * auto with frames.
      * cbn [position_calls]. rewrite G.
        rewrite reposition_one_accepted by (try exact E; reflexivity). reflexivity.
      * intros _. in_range.
  - (* oled_clear_page_segment *)
    pose proof (u8_range page) as Hp. pose proof (u8_range column_start) as Hs.
    pose proof (u8_range column_stop) as He.
    destruct ((u8 page >=? OLED_PAGE_SIZE) || (u8 column_stop >=? OLED_COLUMN_SIZE)
              || (u8 column_start >=? u8 column_stop)) eqn:E.
    + apply unchanged_effect.
      * cbn [serve]. unfold oled_clear_page_segment. rewrite E. reflexivity.
      * cbn [position_calls]. rewrite E. reflexivity.
    + pose proof E as G. apply orb_false_elim in E. destruct E as [E E3].
      apply orb_false_elim in E. destruct E as [E1 E2].
      rewrite Z.geb_leb in E1, E2, E3. apply Z.leb_gt in E1, E2, E3.
      effect_of (mkOled (u8 column_start) (u8 page)
                   (bus st ++ position_frame (u8 column_start) (u8 page)
                      ++ data_frame (repeat 0x00 (Z.to_nat (u8 column_stop + 1)))))
                (position_frame (u8 column_start) (u8 page)
                   ++ data_frame (repeat 0x00 (Z.to_nat (u8 column_stop + 1)))).
      * apply oled_clear_page_segment_accepts; try assumption; lia.
      * reflexivity.
      * auto with frames.
      * cbn [position_calls]. rewrite G.
        rewrite reposition_one_accepted by (try assumption; unfold OLED_COLUMN_SIZE in *; lia).
        reflexivity.
      * intros _. in_range.
  - (* oled_clear_column *)
    pose proof (u8_range page) as Hp. pose proof (u8_range column) as Hc.
    destruct (Z_lt_ge_dec (u8 column) OLED_COLUMN_SIZE) as [Hc1|Hc1];
      [destruct (Z_lt_ge_dec (u8 page) OLED_PAGE_SIZE) as [Hp1|Hp1]|].
    + effect_of (mkOled (u8 column) (u8 page)
                   (bus st ++ position_frame (u8 column) (u8 page) ++ data_frame [0x00]))
                (position_frame (u8 column) (u8 page) ++ data_frame [0x00]).
      * apply oled_clear_column_accepts; assumption.
      * reflexivity.
      * auto with frames.
      * cbn [position_calls]. rewrite reposition_one_accepted by assumption. reflexivity.
      * intros _. in_range.
    + effect_of (mkOled (column_current_position st) (page_current_position st)
                   (bus st ++ data_frame [0x00])) (data_frame [0x00]).
      * apply oled_clear_column_out_of_range. auto.
      * reflexivity.
      * auto with frames.
      * cbn [position_calls reposition fold_right fst snd].
        erewrite seq_some by (apply oled_position_rejects; auto). reflexivity.
      * auto.
    + effect_of (mkOled (column_current_position st) (page_current_position st)
                   (bus st ++ data_frame [0x00])) (data_frame [0x00]).
      * apply oled_clear_column_out_of_range. auto.
      * reflexivity.
      * auto with frames.
      * cbn [position_calls reposition fold_right fst snd].
        erewrite seq_some by (apply oled_position_rejects; auto). reflexivity.
      * auto.
Qed.

Lemma serve_all_effect (mem : memory) (rs : list request) :
  forall st,
    exists st' l,
      serve_all mem rs st = Some st' /\
      bus st' = bus st ++ l /\ framed l /\
      (cursor_in_range st -> cursor_in_range st').
Proof.
  induction rs as [|r rs IH]; intro st.
  - exists st, []. split; [reflexivity|]. split; [symmetry; apply app_nil_r|].
    split; [constructor|auto].
  - destruct (serve_effect mem r st) as [st1 [l1 [Hs [Hb [Hf [_ Hr]]]]]].
    destruct (IH st1) as [st2 [l2 [Hs2 [Hb2 [Hf2 Hr2]]]]].
    exists st2, (l1 ++ l2). cbn [serve_all].
    rewrite (seq_some _ _ _ _ Hs). split; [exact Hs2|].
    split; [rewrite Hb2, Hb, app_assoc; reflexivity|].
    split; [auto with frames|auto].
Qed.

(** *** Rejected requests *)

(** C1: [oled_page_segment] with [column_start >= column_stop], or
    [column_stop >= 128], or [page >= 8] returns at once: the record of
    transport calls and both cursor variables are what they were. *)
Theorem oled_page_segment_out_of_range (mem : memory)
    (data column_start column_stop page : Z) (st : oled) :
  column_start >= column_stop \/ column_stop >= 128 \/ page >= 8 ->
  oled_page_segment mem data column_start column_stop page st = Some st.
Proof. apply oled_page_segment_rejects. Qed.

Lemma oled_page_segment_out_of_range_witness :
  oled_page_segment ramp 0 5 5 0 oled_reset = Some oled_reset /\
  oled_page_segment ramp 0 0 128 0 oled_reset = Some oled_reset /\
  oled_page_segment ramp 0 0 5 8 oled_reset = Some oled_reset.
Proof.
  split; [|split].
  - apply (oled_page_segment_out_of_range ramp 0 5 5 0 oled_reset). left. lia.
  - apply (oled_page_segment_out_of_range ramp 0 0 128 0 oled_reset). right. left. lia.
  - apply (oled_page_segment_out_of_range ramp 0 0 5 8 oled_reset). right. right. lia.
Defined.

(** C10: [oled_clear_column] has no check of its own.  With
    [column >= 128] or [page >= 8] its call of [oled_position] does
    nothing, and it still runs one whole data transaction with a single
    zero byte, the cursor staying where it was; the segment functions make
    no transport call at all on such input. *)
Theorem oled_clear_column_out_of_range_writes (mem : memory)
    (data column_start column page : Z) (st : oled) :
  column >= 128 \/ page >= 8 ->
  oled_clear_column column page st =
    Some (mkOled (column_current_position st) (page_current_position st)
            (bus st ++ [Twi_start; Twi_address OLED_ADDRESS TWI_Write;
                        Twi_set OLED_CONTROL_DATA; Twi_set 0x00; Twi_stop])) /\
  oled_position column page st = Some st /\
  oled_clear_page_segment column_start column page st = Some st /\
  oled_page_segment mem data column_start column page st = Some st.
Proof.
  intro H. split; [|split; [|split]].
  - apply oled_clear_column_out_of_range. exact H.
  - apply oled_position_rejects. exact H.
  - apply oled_clear_page_segment_rejects. tauto.
  - apply oled_page_segment_rejects. tauto.
Qed.

Lemma oled_clear_column_out_of_range_writes_witness :
  option_map (fun s => (cursor s, skipn 9 (bus s)))
             ((oled_position 10 3 ;; oled_clear_column 200 3) oled_reset)
  = Some ((10, 3), [Twi_start; Twi_address OLED_ADDRESS TWI_Write;
                    Twi_set OLED_CONTROL_DATA; Twi_set 0x00; Twi_stop]).
Proof.
  erewrite seq_some by (apply oled_position_accepts; reflexivity).
  destruct (oled_clear_column_out_of_range_writes ramp 0 0 200 3
              (mkOled 10 3 (bus oled_reset ++ position_frame 10 3))) as [H _].
  - left. lia.
  - rewrite H. reflexivity.
Defined.

(** *** Clearing a segment *)

(** C2 fails on the code: for the accepted request (10, 20, 0)
    [oled_clear_page_segment] frames the transaction as
    [oled_page_segment] does, but its loop counts from 0, so it sends
    [column_stop + 1 = 21] zero bytes where [oled_page_segment] sends the
    [column_stop - column_start + 1 = 11] bytes of the segment. *)
Theorem oled_clear_page_segment_counts_from_zero (st : oled) :
  oled_clear_page_segment 10 20 0 st =
    Some (mkOled 10 0 (bus st ++ position_frame 10 0 ++ data_frame (repeat 0x00 21))) /\
  oled_page_segment ramp 0 10 20 0 st =
    Some (mkOled 10 0 (bus st ++ position_frame 10 0 ++ data_frame (bytes_at ramp 0 11))) /\
  option_map (fun s => map (@length Z) (data_payloads (bus s)))
             (oled_clear_page_segment 10 20 0 oled_reset) = Some [21%nat].
Proof.
  split; [|split].
  - rewrite oled_clear_page_segment_accepts by (unfold OLED_COLUMN_SIZE, OLED_PAGE_SIZE; lia).
    reflexivity.
  - rewrite oled_page_segment_accepts by (unfold OLED_COLUMN_SIZE, OLED_PAGE_SIZE; lia).
    reflexivity.
  - vm_compute. reflexivity.
Qed.

(** *** Writing a frame *)

(** C3 fails on the code: [oled_frame] homes the cursor and writes the
    128 columns of each page 0..7, but it takes the bytes of page [p] from
    offset [p * OLED_PAGE_SIZE = p * 8] of the buffer, not from offset
    [p * 128]: with a buffer whose byte at offset [k] is [k mod 256], page
    1 receives the bytes 8..135 and not the bytes 128..255. *)
Theorem oled_frame_page_stride (mem : memory) (frame : Z) (st : oled) :
  oled_frame mem frame st =
    Some (mkOled 0 7
            (bus st ++ position_frame 0 0
               ++ flat_map (fun page => position_frame 0 page
                                          ++ data_frame (bytes_at mem (frame + page * 8) 128))
                           pages)) /\
  option_map (fun s => nth 1 (data_payloads (bus s)) []) (oled_frame ramp 0 oled_reset)
    = Some (bytes_at ramp 8 128) /\
  bytes_at ramp 8 128 <> bytes_at ramp 128 128.
Proof.
  split; [|split].
  - apply oled_frame_effect.
  - vm_compute. reflexivity.
  - vm_compute. discriminate.
Qed.

(** *** The cursor *)

(** C6: starting from the cursor (0, 0), after any sequence of requests
    the cursor is inside the display; a request leaves the cursor where
    the calls of [oled_position] it makes leave it, so nothing else moves
    it; [oled_position] with [column >= 128] or [page >= 8] changes neither
    the cursor nor the record of transport calls; and [oled_position(10, 3)]
    followed by [oled_position(200, 3)] leaves the cursor at (10, 3). *)
Theorem cursor_stays_in_range (mem : memory) (rs : list request) (r : request)
    (column page : Z) (st : oled) :
  column >= 128 \/ page >= 8 ->
  (exists st',
     serve_all mem rs oled_reset = Some st' /\
     0 <= column_current_position st' < 128 /\ 0 <= page_current_position st' < 8) /\
  (exists st1,
     serve mem r st = Some st1 /\
     option_map cursor (reposition (position_calls r) st) = Some (cursor st1)) /\
  oled_position column page st = Some st /\
  (oled_position 10 3 ;; oled_position 200 3) oled_reset = oled_position 10 3 oled_reset /\
  option_map cursor ((oled_position 10 3 ;; oled_position 200 3) oled_reset) = Some (10, 3).
Proof.
  intro H. split; [|split; [|split; [|split]]].
  - destruct (serve_all_effect mem rs oled_reset) as [st' [l [Hs [_ [_ Hr]]]]].
    exists st'. split; [exact Hs|]. apply Hr.
    unfold cursor_in_range, OLED_COLUMN_SIZE, OLED_PAGE_SIZE. cbn. lia.
  - destruct (serve_effect mem r st) as [st1 [l [Hs [_ [_ [Hc _]]]]]].
    exists st1. split; assumption.
  - apply oled_position_rejects. exact H.
  - erewrite seq_some by (apply oled_position_accepts; reflexivity).
    rewrite oled_position_rejects by (left; unfold OLED_COLUMN_SIZE; lia).
    rewrite oled_position_accepts by reflexivity. reflexivity.
  - erewrite seq_some by (apply oled_position_accepts; reflexivity).
    rewrite oled_position_rejects by (left; unfold OLED_COLUMN_SIZE; lia).
    reflexivity.
Qed.

Lemma cursor_stays_in_range_witness :
  oled_position 200 3 (mkOled 10 3 []) = Some (mkOled 10 3 []) /\
  exists st',
    serve_all ramp [Req_clear_column 200 3; Req_frame 0; Req_page_segment 0 200 100 9]
              oled_reset = Some st' /\
    0 <= column_current_position st' < 128 /\ 0 <= page_current_position st' < 8.
Proof.
  destruct (cursor_stays_in_range ramp
              [Req_clear_column 200 3; Req_frame 0; Req_page_segment 0 200 100 9]
              Req_clear 200 3 (mkOled 10 3 [])) as [H1 [_ [H3 _]]].
  - left. lia.
  - split; [exact H3 | exact H1].
Defined.

(** *** Control bytes *)

Lemma ltb_true (x y : Z) : x < y -> (x <? y) = true.
Proof. apply Z.ltb_lt. Qed.

Lemma ltb_false (x y : Z) : x >= y -> (x <? y) = false.
Proof. intro H. apply Z.ltb_ge. lia. Qed.

Ltac served st1 := exists st1; split; [| cbn [bus]; rewrite ?app_nil_r; reflexivity].

Lemma serve_bus (mem : memory) (r : request) (st : oled) :
  exists st', serve mem r st = Some st' /\ bus st' = bus st ++ request_bus mem r.
Proof.
  destruct r as [ | | column page | scroll | frame | data page
                | data column_start column_stop page | data column page |
                | page | column_start column_stop page | column page ];
    cbn [serve request_bus].
  - eexists. split; [apply oled_init_effect | reflexivity].
  - eexists. split; reflexivity.
  - destruct (Z_lt_ge_dec (u8 column) OLED_COLUMN_SIZE) as [H1|H1];
      [destruct (Z_lt_ge_dec (u8 page) OLED_PAGE_SIZE) as [H2|H2]|].
    + rewrite !ltb_true by assumption. cbn [andb].
      eexists. split; [apply oled_position_accepts; assumption | reflexivity].
    + rewrite (ltb_false _ _ H2), andb_false_r.
      served st. apply oled_position_rejects. auto.
    + rewrite (ltb_false _ _ H1). cbn [andb].
      served st. apply oled_position_rejects. auto.
  - destruct (Z_lt_ge_dec (u8 scroll) OLED_ROW_SIZE) as [H|H].
    + rewrite ltb_true by exact H.
      eexists. split; [apply oled_scroll_vertical_accepts; exact H | reflexivity].
    + rewrite ltb_false by exact H.
      served st. unfold oled_scroll_vertical. rewrite geb_true by exact H. reflexivity.
  - eexists. split; [apply oled_frame_effect | reflexivity].
  - destruct (Z_lt_ge_dec (u8 page) OLED_PAGE_SIZE) as [H|H].
    + rewrite ltb_true by exact H.
      eexists. split; [apply oled_page_accepts; exact H | reflexivity].
    + rewrite ltb_false by exact H.
      served st. unfold oled_page. rewrite geb_true by exact H. reflexivity.
  - pose proof (u8_range column_start) as Hs.
    destruct (Z_lt_ge_dec (u8 column_start) (u8 column_stop)) as [H1|H1];
      [destruct (Z_lt_ge_dec (u8 column_stop) OLED_COLUMN_SIZE) as [H2|H2];
         [destruct (Z_lt_ge_dec (u8 page) OLED_PAGE_SIZE) as [H3|H3]|]|].
    + rewrite !ltb_true by assumption. cbn [andb].
      eexists. split; [apply oled_page_segment_accepts; try assumption; lia | reflexivity].
    + rewrite (ltb_false _ _ H3), andb_false_r.
      served st. apply oled_page_segment_rejects. auto.
    + rewrite (ltb_false _ _ H2), andb_false_r. cbn [andb].
      served st. apply oled_page_segment_rejects. auto.
    + rewrite (ltb_false _ _ H1). cbn [andb].
      served st. apply oled_page_segment_rejects. auto.
  - destruct (Z_lt_ge_dec (u8 column) OLED_COLUMN_SIZE) as [H1|H1];
      [destruct (Z_lt_ge_dec (u8 page) OLED_PAGE_SIZE) as [H2|H2]|].
    + rewrite !ltb_true by assumption. cbn [andb].
      eexists. split; [apply oled_column_accepts; assumption | reflexivity].
    + rewrite (ltb_false _ _ H2), andb_false_r.
      served st. apply oled_column_rejects. auto.
    + rewrite (ltb_false _ _ H1). cbn [andb].
      served st. apply oled_column_rejects. auto.
  - eexists. split; [apply oled_clear_effect | reflexivity].
  - destruct (Z_lt_ge_dec (u8 page) OLED_PAGE_SIZE) as [H|H].
    + rewrite ltb_true by exact H.
      eexists. split; [apply oled_clear_page_accepts; exact H | reflexivity].
    + rewrite ltb_false by exact H.
      served st. unfold oled_clear_page, oled_clear_page_segment.
      rewrite (geb_true _ _ H). reflexivity.
  - pose proof (u8_range column_start) as Hs.
    destruct (Z_lt_ge_dec (u8 column_start) (u8 column_stop)) as [H1|H1];
      [destruct (Z_lt_ge_dec (u8 column_stop) OLED_COLUMN_SIZE) as [H2|H2];
         [destruct (Z_lt_ge_dec (u8 page) OLED_PAGE_SIZE) as [H3|H3]|]|].
    + rewrite !ltb_true by assumption. cbn [andb].
      eexists. split;
        [apply oled_clear_page_segment_accepts; try assumption; lia | reflexivity].
    + rewrite (ltb_false _ _ H3), andb_false_r.
      served st. apply oled_clear_page_segment_rejects. auto.
    + rewrite (ltb_false _ _ H2), andb_false_r. cbn [andb].
      served st. apply oled_clear_page_segment_rejects. auto.
    + rewrite (ltb_false _ _ H1). cbn [andb].
      served st. apply oled_clear_page_segment_rejects. auto.
  - destruct (Z_lt_ge_dec (u8 column) OLED_COLUMN_SIZE) as [H1|H1];
      [destruct (Z_lt_ge_dec (u8 page) OLED_PAGE_SIZE) as [H2|H2]|].
    + rewrite !ltb_true by assumption. cbn [andb].
      eexists. split; [apply oled_clear_column_accepts; assumption | reflexivity].
    + rewrite (ltb_false _ _ H2), andb_false_r.
      eexists. split; [apply oled_clear_column_out_of_range; auto | reflexivity].
    + rewrite (ltb_false _ _ H1). cbn [andb].
      eexists. split; [apply oled_clear_column_out_of_range; auto | reflexivity].
Qed.

Lemma serve_all_bus (mem : memory) (rs : list request) :
  forall st,
    exists st',
      serve_all mem rs st = Some st' /\ bus st' = bus st ++ flat_map (request_bus mem) rs.
Proof.
  induction rs as [|r rs IH]; intro st; cbn [serve_all flat_map].
  - exists st. split; [reflexivity | rewrite app_nil_r; reflexivity].
  - destruct (serve_bus mem r st) as [st1 [H1 B1]].
    destruct (IH st1) as [st' [H B]]. exists st'. split.
    + unfold seq_proc. rewrite H1. exact H.
    + rewrite B, B1, <- app_assoc. reflexivity.
Qed.

(** C7 as stated fails: the transaction of [oled_position(10, 3)] carries
    three command-control bytes, one before each of its three position
    commands. *)
Lemma oled_position_sends_three_control_bytes :
  oled_position 10 3 oled_reset =
    Some (mkOled 10 3
            [Twi_start; Twi_address 0x3C TWI_Write;
             Twi_set 0x80; Twi_set 0xB3;
             Twi_set 0x80; Twi_set 0x0A;
             Twi_set 0x80; Twi_set 0x10;
             Twi_stop]) /\
  option_map (fun s => command_controls (bus s)) (oled_position 10 3 oled_reset)
    = Some 3%nat.
Proof. split; vm_compute; reflexivity. Qed.

(** C7, as the code has it: the command-control value differs from the
    data-control value.  Whatever the requests, the record of transport
    calls is exactly the transactions the requests name, one after the
    other, of two shapes only: the data transaction, in which the address
    byte is followed by one data-control byte and then by the payload
    bytes of the request and nothing else, and the command transaction,
    in which every command byte follows a command-control byte of its
    own.  The data transaction of [oled_page_segment] has the first
    shape, the data-control byte once and then the bytes of the segment
    in memory order; the transaction of [oled_position] has the second,
    with three command-control bytes. *)
Theorem display_transactions_framing (mem : memory) (rs : list request)
    (column page : Z) (st : oled) (data column_start column_stop : Z) :
  column < 128 -> page < 8 ->
  OLED_CONTROL_COMMAND <> OLED_CONTROL_DATA /\
  (exists st',
     serve_all mem rs oled_reset = Some st' /\
     bus st' = flat_map (request_bus mem) rs /\
     framed (bus st')) /\
  oled_position column page st =
    Some (mkOled column page
            (bus st ++
             [Twi_start; Twi_address OLED_ADDRESS TWI_Write;
              Twi_set OLED_CONTROL_COMMAND;
              Twi_set (Z.lor OLED_CMD_SET_PAGE_START_ADDRESS (Z.land 0x07 page));
              Twi_set OLED_CONTROL_COMMAND;
              Twi_set (Z.lor OLED_CMD_SET_LOWER_START_COLUMN_ADDRESS (Z.land 0x0F column));
              Twi_set OLED_CONTROL_COMMAND;
              Twi_set (Z.lor OLED_CMD_SET_HIGHER_START_COLUMN_ADDRESS
                             (Z.land 0x0F (Z.shiftr column 4)));
              Twi_stop])) /\
  (0 <= column_start < column_stop -> column_stop < 128 ->
   oled_page_segment mem data column_start column_stop page st =
     Some (mkOled column_start page
             (bus st ++ position_frame column_start page
                ++ [Twi_start; Twi_address OLED_ADDRESS TWI_Write;
                    Twi_set OLED_CONTROL_DATA]
                ++ map Twi_set
                       (bytes_at mem data (Z.to_nat (column_stop - column_start + 1)))
                ++ [Twi_stop]))).
Proof.
  intros Hc Hp. split; [discriminate|]. split; [|split].
  - destruct (serve_all_bus mem rs oled_reset) as [st' [Hs Hb]].
    destruct (serve_all_effect mem rs oled_reset) as [st2 [l [Hs2 [Hb2 [Hf _]]]]].
    exists st'. split; [exact Hs|]. split; [exact Hb|].
    rewrite Hs in Hs2. injection Hs2 as <-. rewrite Hb2. exact Hf.
  - apply oled_position_accepts; assumption.
  - intros Hs He. apply oled_page_segment_accepts; assumption.
Qed.

Lemma display_transactions_framing_witness :
  (exists st',
     serve_all ramp [Req_column 0x40 5 2; Req_page_segment 0 10 12 1] oled_reset
       = Some st' /\
     bus st' = position_frame 5 2 ++ data_frame [0x40]
                 ++ position_frame 10 1 ++ data_frame [0; 1; 2]) /\
  option_map (fun s => command_controls (bus s)) (oled_position 10 3 oled_reset)
    = Some 3%nat /\
  oled_page_segment ramp 0 10 12 3 oled_reset =
    Some (mkOled 10 3
            (position_frame 10 3
               ++ [Twi_start; Twi_address OLED_ADDRESS TWI_Write;
                   Twi_set OLED_CONTROL_DATA; Twi_set 0; Twi_set 1; Twi_set 2;
                   Twi_stop])).
Proof.
  destruct (display_transactions_framing ramp
              [Req_column 0x40 5 2; Req_page_segment 0 10 12 1] 10 3 oled_reset 0 10 12)
    as [_ [[st' [H1 [Hb _]]] [H2 H3]]]; [lia | lia |].
  split; [|split].
  - exists st'. split; [exact H1|]. rewrite Hb. vm_compute. reflexivity.
  - rewrite H2. vm_compute. reflexivity.
  - rewrite H3 by lia. vm_compute. reflexivity.
Defined.

(* ================================================================== *)
(** ** Further properties of the software TWI master *)
(* ================================================================== *)

(** *** Port registers *)

Lemma testbit_set_mask (r n m : Z) :
  0 <= n -> Z.testbit (set_mask r (bit n)) m = Z.testbit r m || (n =? m).
Proof.
  intro Hn. unfold set_mask, bit.
  rewrite Z.lor_spec, Z.shiftl_1_l, Z.pow2_bits_eqb by exact Hn. reflexivity.
Qed.

Lemma testbit_clear_mask (r n m : Z) :
  0 <= n -> 0 <= m ->
  Z.testbit (clear_mask r (bit n)) m = Z.testbit r m && negb (n =? m).
Proof.
  intros Hn Hm. unfold clear_mask, bit.
  rewrite Z.land_spec, Z.lnot_spec, Z.shiftl_1_l, Z.pow2_bits_eqb by assumption.
  reflexivity.
Qed.

Lemma clear_mask_twice (r m : Z) : clear_mask (clear_mask r m) m = clear_mask r m.
Proof.
  unfold clear_mask. rewrite <- Z.land_assoc, Z.land_diag. reflexivity.
Qed.

Lemma port_footprint_refl (st : hw) : port_footprint st st.
Proof. split; [left; reflexivity | reflexivity]. Qed.

Lemma port_footprint_trans (st1 st2 st3 : hw) :
  port_footprint st1 st2 -> port_footprint st2 st3 -> port_footprint st1 st3.
Proof.
  intros [HP1 HD1] [HP2 HD2]. split.
  - destruct HP1 as [E1|E1], HP2 as [E2|E2]; rewrite E2, E1;
      rewrite ?clear_mask_twice; auto.
  - intros n Hn. rewrite HD2, HD1 by exact Hn. reflexivity.
Qed.

Lemma port_footprint_same_registers (st st' : hw) :
  DDR st' = DDR st -> PORT st' = PORT st -> port_footprint st st'.
Proof. intros HD HP. split; [left; exact HP | intros; rewrite HD; reflexivity]. Qed.

Lemma line_macro_footprint (st : hw) :
  port_footprint st (SCL_LOW st) /\ port_footprint st (SDA_LOW st) /\
  port_footprint st (SDA_HIGH st) /\ port_footprint st (SCL_HIGH st).
Proof.
  unfold port_footprint, SCL_LOW, SDA_LOW, SDA_HIGH, SCL_HIGH; cbn [DDR PORT emit set_regs].
  repeat split; try (right; reflexivity); intros n Hn;
    rewrite ?testbit_set_mask, ?testbit_clear_mask
      by (unfold TWI_SOFT_SCL, TWI_SOFT_SDA; lia);
    unfold TWI_SOFT_SCL, TWI_SOFT_SDA;
    try (replace (0 =? n) with false by (symmetry; apply Z.eqb_neq; lia));
    try (replace (1 =? n) with false by (symmetry; apply Z.eqb_neq; lia));
    cbn [negb]; rewrite ?orb_false_r, ?andb_true_r; reflexivity.
Qed.

Create HintDb footprint.

Lemma footprint_SCL_LOW (st0 st : hw) :
  port_footprint st0 st -> port_footprint st0 (SCL_LOW st).
Proof. intro H. eapply port_footprint_trans; [exact H | apply line_macro_footprint]. Qed.

Lemma footprint_SDA_LOW (st0 st : hw) :
  port_footprint st0 st -> port_footprint st0 (SDA_LOW st).
Proof. intro H. eapply port_footprint_trans; [exact H | apply line_macro_footprint]. Qed.

Lemma footprint_SDA_HIGH (st0 st : hw) :
  port_footprint st0 st -> port_footprint st0 (SDA_HIGH st).
Proof. intro H. eapply port_footprint_trans; [exact H | apply line_macro_footprint]. Qed.

Lemma footprint_SCL_HIGH (st0 st : hw) :
  port_footprint st0 st -> port_footprint st0 (SCL_HIGH st).
Proof. intro H. eapply port_footprint_trans; [exact H | apply line_macro_footprint]. Qed.

Lemma footprint_delay (st0 st : hw) :
  port_footprint st0 st -> port_footprint st0 (delay st).
Proof. intro H. exact H. Qed.

Lemma footprint_set_status (st0 st : hw) (s : Z) :
  port_footprint st0 st -> port_footprint st0 (set_status s st).
Proof. intro H. exact H. Qed.

Lemma footprint_read (PINB : nat -> Z) (st0 st : hw) :
  port_footprint st0 st -> port_footprint st0 (snd (read_PIN PINB st)).
Proof. intro H. exact H. Qed.

#[local] Hint Resolve port_footprint_refl footprint_SCL_LOW footprint_SDA_LOW
  footprint_SDA_HIGH footprint_SCL_HIGH footprint_delay footprint_set_status
  footprint_read : footprint.

Section BusFootprint.

Variable PINB : nat -> Z.

Lemma clock_stretch_registers (fuel : nat) :
  forall st st',
    clock_stretch PINB fuel st = Some st' -> DDR st' = DDR st /\ PORT st' = PORT st.
Proof.
  induction fuel as [|fuel IH]; intros st st' H; cbn -[Z.land bit] in H; [discriminate|].
  destruct (_ =? 0).
  - apply IH in H. exact H.
  - injection H as <-. split; reflexivity.
Qed.

Lemma footprint_clock_stretch (fuel : nat) (st0 st st' : hw) :
  port_footprint st0 st -> clock_stretch PINB fuel st = Some st' ->
  port_footprint st0 st'.
Proof.
  intros H Hc. apply clock_stretch_registers in Hc. destruct Hc as [HD HP].
  eapply port_footprint_trans; [exact H|].
  apply port_footprint_same_registers; assumption.
Qed.

Lemma footprint_clock_pulse (fuel : nat) (st0 st st' : hw) :
  port_footprint st0 st -> clock_pulse PINB fuel st = Some (Next st') ->
  port_footprint st0 st'.
Proof.
  unfold clock_pulse. intros H Hc.
  destruct (clock_stretch PINB fuel (SCL_HIGH st)) as [s|] eqn:E; [|discriminate].
  injection Hc as <-. apply footprint_delay.
  eapply footprint_clock_stretch; [|exact E]. auto with footprint.
Qed.

Lemma footprint_set_bit_cycle (fuel : nat) (data i : Z) (st0 st : hw) (r : flow) :
  port_footprint st0 st -> set_bit_cycle PINB fuel data i st = Some r ->
  port_footprint st0 (flow_state r).
Proof.
  intros H Hc. unfold set_bit_cycle in Hc.
  destruct (negb _) in Hc; cbn -[Z.land bit clock_pulse] in Hc.
  - destruct (_ =? 0) in Hc.
    + injection Hc as <-. cbn [flow_state].
      apply (footprint_read PINB st0 (delay (SDA_HIGH (SCL_LOW st)))). auto with footprint.
    + destruct (clock_pulse_events PINB _ _ _ Hc) as [s [evs [-> _]]].
      eapply footprint_clock_pulse; [|exact Hc].
      apply (footprint_read PINB st0 (delay (SDA_HIGH (SCL_LOW st)))). auto with footprint.
  - destruct (clock_pulse_events PINB _ _ _ Hc) as [s [evs [-> _]]].
    eapply footprint_clock_pulse; [|exact Hc]. auto with footprint.
Qed.

Lemma footprint_set_bits (fuel : nat) (data : Z) (n : nat) :
  forall i st0 st r,
    port_footprint st0 st -> set_bits PINB n fuel data i st = Some r ->
    port_footprint st0 (flow_state r).
Proof.
  induction n as [|n IH]; intros i st0 st r H Hs.
  - injection Hs as <-. exact H.
  - cbn [set_bits] in Hs.
    destruct (set_bit_cycle PINB fuel data i st) as [[s|e s]|] eqn:E; try discriminate.
    + eapply IH; [|exact Hs].
      exact (footprint_set_bit_cycle _ _ _ _ _ _ H E).
    + injection Hs as <-. exact (footprint_set_bit_cycle _ _ _ _ _ _ H E).
Qed.

Lemma footprint_twi_soft_set (fuel : nat) (data : Z) (st st' : hw) (e : TWI_Error) :
  twi_soft_set PINB fuel data st = Some (e, st') -> port_footprint st st'.
Proof.
  unfold twi_soft_set. intro H.
  destruct (set_bits PINB (Z.to_nat CHAR_BIT) fuel data 0 st) as [[s|e1 s]|] eqn:E;
    try discriminate.
  - pose proof (footprint_set_bits _ _ _ _ _ _ _ (port_footprint_refl st) E) as Hf.
    cbn [flow_state] in Hf.
    unfold ack_phase in H. cbn -[Z.land bit] in H. injection H as _ <-.
    apply footprint_delay, footprint_SCL_HIGH.
    apply (footprint_read PINB st (delay (SDA_HIGH (SCL_LOW s)))). auto with footprint.
  - injection H as _ <-.
    exact (footprint_set_bits _ _ _ _ _ _ _ (port_footprint_refl st) E).
Qed.

Lemma status_set_bit_cycle (fuel : nat) (data i : Z) (st : hw) (r : flow) :
  set_bit_cycle PINB fuel data i st = Some r ->
  twi_soft_bus_status (flow_state r) = twi_soft_bus_status st.
Proof.
  intro Hc. unfold set_bit_cycle in Hc.
  destruct (negb _) in Hc; cbn -[Z.land bit clock_pulse] in Hc.
  - destruct (_ =? 0) in Hc.
    + injection Hc as <-. reflexivity.
    + apply clock_pulse_events in Hc. destruct Hc as [s [evs [-> [Hs _]]]]. exact Hs.
  - apply clock_pulse_events in Hc. destruct Hc as [s [evs [-> [Hs _]]]]. exact Hs.
Qed.

Lemma status_set_bits (fuel : nat) (data : Z) (n : nat) :
  forall i st r,
    set_bits PINB n fuel data i st = Some r ->
    twi_soft_bus_status (flow_state r) = twi_soft_bus_status st.
Proof.
  induction n as [|n IH]; intros i st r Hs.
  - injection Hs as <-. reflexivity.
  - cbn [set_bits] in Hs.
    destruct (set_bit_cycle PINB fuel data i st) as [[s|e s]|] eqn:E; try discriminate.
    + apply IH in Hs. rewrite Hs. exact (status_set_bit_cycle _ _ _ _ _ E).
    + injection Hs as <-. exact (status_set_bit_cycle _ _ _ _ _ E).
Qed.

Lemma status_twi_soft_set (fuel : nat) (data : Z) (st st' : hw) (e : TWI_Error) :
  twi_soft_set PINB fuel data st = Some (e, st') ->
  twi_soft_bus_status st' = twi_soft_bus_status st.
Proof.
  unfold twi_soft_set. intro H.
  destruct (set_bits PINB (Z.to_nat CHAR_BIT) fuel data 0 st) as [[s|e1 s]|] eqn:E;
    try discriminate.
  - apply status_set_bits in E. cbn [flow_state] in E.
    unfold ack_phase in H. cbn -[Z.land bit] in H. injection H as _ <-. exact E.
  - injection H as _ <-. exact (status_set_bits _ _ _ _ _ _ E).
Qed.

End BusFootprint.

(** *** Receiving a byte *)

Lemma shift_in_code (received : Z) (pin : Z) :
  (if negb (Z.land pin (bit TWI_SOFT_SDA) =? 0)
   then u8 (Z.lor (u8 (Z.shiftl received 1)) 1)
   else u8 (Z.shiftl received 1))
  = shift_in received (Z.testbit pin TWI_SOFT_SDA).
Proof.
  rewrite land_bit_testbit, negb_involutive by (unfold TWI_SOFT_SDA; lia).
  unfold shift_in, u8. rewrite Z.shiftl_mul_pow2 by lia. change (2 ^ 1) with 2.
  destruct (Z.testbit pin TWI_SOFT_SDA); cbn [Z.b2z].
  - assert (Hy : 0 <= received mod 128 < 128) by (apply Z.mod_pos_bound; lia).
    assert (Hm : (received * 2) mod 256 = 2 * (received mod 128)).
    { rewrite (Z.mul_comm received 2). change 256 with (2 * 128).
      rewrite Z.mul_mod_distr_l by lia. reflexivity. }
    rewrite Hm.
    destruct (address_byte_value (received mod 128) 1 Hy) as [Hv _].
    rewrite Z.shiftl_mul_pow2 in Hv by lia. change (2 ^ 1) with 2 in Hv.
    change (Z.land 1 1) with 1 in Hv. change (1 mod 2) with 1 in Hv.
    rewrite (Z.mul_comm (received mod 128) 2) in Hv. rewrite Hv.
    rewrite (Z.mod_small (2 * (received mod 128) + 1) 256) by lia.
    pose proof (Z.div_mod received 128 ltac:(lia)) as Hr.
    replace (2 * received + 1) with (2 * (received mod 128) + 1 + (received / 128) * 256)
      by lia.
    rewrite Z.mod_add by lia.
    rewrite (Z.mod_small (2 * (received mod 128) + 1) 256) by lia. reflexivity.
  - rewrite Z.add_0_r, (Z.mul_comm received 2). reflexivity.
Qed.

Lemma byte_bits_round_trip (b : Z) :
  0 <= b < 256 -> fold_left shift_in (byte_bits b) 0 = b.
Proof.
  intro Hb.
  assert (Hall : forallb (fun n => fold_left shift_in (byte_bits (Z.of_nat n)) 0
                                   =? Z.of_nat n) (seq 0 256) = true)
    by (vm_compute; reflexivity).
  rewrite forallb_forall in Hall.
  specialize (Hall (Z.to_nat b)). rewrite Z2Nat.id in Hall by lia.
  apply Z.eqb_eq, Hall, in_seq. lia.
Qed.

Lemma shift_in_range (received : Z) (b : bool) : 0 <= shift_in received b < 256.
Proof. unfold shift_in. apply Z.mod_pos_bound. lia. Qed.

Lemma fold_shift_in_range (bits : list bool) :
  forall received, 0 <= received < 256 -> 0 <= fold_left shift_in bits received < 256.
Proof.
  induction bits as [|b bits IH]; intros received H; [exact H|].
  cbn [fold_left]. apply IH, shift_in_range.
Qed.

Section Receive.

Variable PINB : nat -> Z.
Hypothesis Hfree : never_stretched PINB.

Lemma clock_stretch_unstretched (fuel : nat) (st : hw) :
  clock_stretch PINB (S fuel) st = Some (snd (read_PIN PINB st)).
Proof.
  cbn -[Z.land bit]. specialize (Hfree (reads st)).
  apply Z.eqb_neq in Hfree. rewrite Hfree. reflexivity.
Qed.

Lemma get_bit_cycle_unstretched (fuel : nat) (received : Z) (st : hw) :
  exists st',
    get_bit_cycle PINB (S fuel) received st =
      Some (shift_in received (Z.testbit (PINB (S (reads st))) TWI_SOFT_SDA), st') /\
    reads st' = S (S (reads st)) /\
    twi_soft_bus_status st' = twi_soft_bus_status st /\
    port_footprint st st' /\
    driven st' TWI_SOFT_SCL = false /\
    driven st' TWI_SOFT_SDA = driven st TWI_SOFT_SDA.
Proof.
  unfold get_bit_cycle. rewrite clock_stretch_unstretched.
  cbn -[Z.land bit Z.shiftl Z.lor u8 Z.testbit SCL_LOW SCL_HIGH].
  rewrite shift_in_code. eexists. split; [reflexivity|].
  split; [reflexivity|]. split; [reflexivity|]. split; [|split].
  - apply (footprint_read PINB st
             (delay (snd (read_PIN PINB (SCL_HIGH (delay (SCL_LOW st))))))).
    apply footprint_delay.
    apply (footprint_read PINB st (SCL_HIGH (delay (SCL_LOW st)))).
    auto with footprint.
  - unfold driven. cbn -[clear_mask set_mask bit Z.testbit].
    rewrite testbit_clear_mask by (unfold TWI_SOFT_SCL; lia).
    unfold TWI_SOFT_SCL. cbn [Z.eqb negb]. apply andb_false_r.
  - unfold driven. cbn -[clear_mask set_mask bit Z.testbit].
    rewrite testbit_clear_mask, testbit_set_mask by (unfold TWI_SOFT_SCL, TWI_SOFT_SDA; lia).
    unfold TWI_SOFT_SCL, TWI_SOFT_SDA. cbn [Z.eqb negb].
    rewrite orb_false_r, andb_true_r. reflexivity.
Qed.

Lemma get_bits_unstretched (fuel : nat) (n : nat) :
  forall received st,
    exists st',
      get_bits PINB n (S fuel) received st =
        Some (fold_left shift_in (sampled_bits PINB (reads st) n) received, st') /\
      reads st' = (reads st + 2 * n)%nat /\
      twi_soft_bus_status st' = twi_soft_bus_status st /\
      port_footprint st st' /\
      driven st' TWI_SOFT_SDA = driven st TWI_SOFT_SDA.
Proof.
  induction n as [|n IH]; intros received st.
  - exists st. cbn. rewrite Nat.add_0_r.
    repeat split; auto using port_footprint_refl.
  - destruct (get_bit_cycle_unstretched fuel received st)
      as [st1 [Hc [Hr1 [Hs1 [Hf1 [_ Hd1]]]]]].
    destruct (IH (shift_in received (Z.testbit (PINB (S (reads st))) TWI_SOFT_SDA)) st1)
      as [st2 [Hg [Hr2 [Hs2 [Hf2 Hd2]]]]].
    exists st2. cbn [get_bits]. rewrite Hc, Hg.
    split; [|split; [|split; [|split]]].
    + f_equal. f_equal. unfold sampled_bits. cbn [seq map fold_left].
      rewrite Nat.mul_0_r, Nat.add_0_r, Nat.add_1_r. f_equal.
      rewrite <- seq_shift, map_map. apply map_ext. intro k. rewrite Hr1.
      f_equal. f_equal. lia.
    + rewrite Hr2, Hr1. lia.
    + congruence.
    + eapply port_footprint_trans; eassumption.
    + congruence.
Qed.

End Receive.

(** X1. On a bus without clock stretching [twi_soft_get] always returns
    [TWI_None] together with the byte whose bits, most significant first,
    are the eight levels it sampled on the data line (every second read,
    the other reads being for the clock); in particular a peer that
    presents the bits of a byte [b] makes it return [b].  The ninth clock
    pulse is sent with the data line driven LOW for [TWI_ACK] and released
    for [TWI_NACK], and the call ends with the clock driven LOW and the
    data line released. *)
Theorem twi_soft_get_receives_byte (PINB : nat -> Z) (fuel : nat)
    (acknowledge : TWI_Acknowledge) (st : hw) :
  never_stretched PINB ->
  exists st' pre,
    twi_soft_get PINB (S fuel) acknowledge st =
      Some (TWI_None, fold_left shift_in (sampled_bits PINB (reads st) 8) 0, st') /\
    0 <= fold_left shift_in (sampled_bits PINB (reads st) 8) 0 < 256 /\
    (forall b, 0 <= b < 256 -> sampled_bits PINB (reads st) 8 = byte_bits b ->
               fold_left shift_in (sampled_bits PINB (reads st) 8) 0 = b) /\
    wire st' = pre ++ [SCL_low;
                       match acknowledge with TWI_ACK => SDA_low | TWI_NACK => SDA_high end;
                       Wait; SCL_high; Sample (PINB (reads st + 16)%nat); Wait;
                       SCL_low; SDA_high] /\
    driven st' TWI_SOFT_SCL = true /\ driven st' TWI_SOFT_SDA = false.
Proof.
  intro Hfree.
  destruct (get_bits_unstretched PINB Hfree fuel 8 0 st) as [st8 [Hg [Hr [_ _]]]].
  unfold twi_soft_get. change (Z.to_nat CHAR_BIT) with 8%nat. rewrite Hg.
  rewrite clock_stretch_unstretched by exact Hfree.
  eexists. exists (wire st8).
  split; [reflexivity|]. split; [apply fold_shift_in_range; lia|].
  split; [intros b Hb ->; apply byte_bits_round_trip; exact Hb|].
  split; [|split].
  - destruct acknowledge; cbn; rewrite Hr, <- !app_assoc; reflexivity.
  - unfold driven. destruct acknowledge; cbn -[clear_mask set_mask bit Z.testbit];
      rewrite !testbit_clear_mask, !testbit_set_mask
        by (unfold TWI_SOFT_SCL, TWI_SOFT_SDA; lia);
      unfold TWI_SOFT_SCL, TWI_SOFT_SDA; cbn [Z.eqb negb Pos.eqb];
      rewrite ?orb_true_r, ?andb_true_r; reflexivity.
  - unfold driven. destruct acknowledge; cbn -[clear_mask set_mask bit Z.testbit];
      rewrite !testbit_clear_mask by (unfold TWI_SOFT_SCL, TWI_SOFT_SDA; lia);
      unfold TWI_SOFT_SCL, TWI_SOFT_SDA; cbn [Z.eqb negb Pos.eqb]; apply andb_false_r.
Qed.

Lemma twi_soft_get_receives_byte_witness :
  option_map (fun r => (fst r)) (twi_soft_get idle_bus 1 TWI_NACK hw_reset)
  = Some (TWI_None, 0xFF).
Proof.
  destruct (twi_soft_get_receives_byte idle_bus 0 TWI_NACK hw_reset) as [st' [pre [H _]]].
  - intro k. vm_compute. discriminate.
  - rewrite H. vm_compute. reflexivity.
Defined.

(** *** Initialisation and release of the bus *)

Lemma testbit_bit (n m : Z) : 0 <= n -> Z.testbit (bit n) m = (n =? m).
Proof. intro Hn. unfold bit. rewrite Z.shiftl_1_l. apply Z.pow2_bits_eqb. exact Hn. Qed.

Lemma testbit_clear_lines (r m : Z) :
  0 <= m ->
  Z.testbit (clear_mask r (Z.lor (bit TWI_SOFT_SCL) (bit TWI_SOFT_SDA))) m
  = Z.testbit r m && negb ((m =? 0) || (m =? 1)).
Proof.
  intro Hm. unfold clear_mask.
  rewrite Z.land_spec, Z.lnot_spec, Z.lor_spec, !testbit_bit
    by (try assumption; unfold TWI_SOFT_SCL, TWI_SOFT_SDA; lia).
  unfold TWI_SOFT_SCL, TWI_SOFT_SDA. rewrite (Z.eqb_sym 0 m), (Z.eqb_sym 1 m). reflexivity.
Qed.

(** X2. [twi_soft_init] releases both lines and reads the pin register:
    it answers [TWI_SOFT_STATUS_BUS_INIT_COMPLETE] exactly when the first
    read shows the clock line HIGH and the second read shows the data line
    HIGH, and [TWI_SOFT_STATUS_BUS_ERROR] otherwise (after a single read
    when the clock line is LOW).  It leaves both pins as inputs with their
    [PORT] bits clear and does not touch the status byte. *)
Theorem twi_soft_init_reports_stuck_line (PINB : nat -> Z) (st : hw) :
  let r := twi_soft_init PINB st in
  (fst r = TWI_SOFT_STATUS_BUS_INIT_COMPLETE <->
     Z.testbit (PINB (reads st)) TWI_SOFT_SCL = true /\
     Z.testbit (PINB (S (reads st))) TWI_SOFT_SDA = true) /\
  (fst r = TWI_SOFT_STATUS_BUS_INIT_COMPLETE \/ fst r = TWI_SOFT_STATUS_BUS_ERROR) /\
  (Z.testbit (PINB (reads st)) TWI_SOFT_SCL = false -> reads (snd r) = S (reads st)) /\
  twi_soft_bus_status (snd r) = twi_soft_bus_status st /\
  driven (snd r) TWI_SOFT_SCL = false /\ driven (snd r) TWI_SOFT_SDA = false /\
  Z.testbit (PORT (snd r)) TWI_SOFT_SCL = false /\
  Z.testbit (PORT (snd r)) TWI_SOFT_SDA = false.
Proof.
  unfold twi_soft_init.
  cbn -[Z.land bit Z.testbit clear_mask set_mask Z.lor].
  rewrite !land_bit_testbit by (unfold TWI_SOFT_SCL, TWI_SOFT_SDA; lia).
  assert (HD : forall d,
             Z.testbit (clear_mask (clear_mask d (bit TWI_SOFT_SCL)) (bit TWI_SOFT_SDA))
                       TWI_SOFT_SCL = false /\
             Z.testbit (clear_mask (clear_mask d (bit TWI_SOFT_SCL)) (bit TWI_SOFT_SDA))
                       TWI_SOFT_SDA = false).
  { intro d. rewrite !testbit_clear_mask by (unfold TWI_SOFT_SCL, TWI_SOFT_SDA; lia).
    unfold TWI_SOFT_SCL, TWI_SOFT_SDA. cbn [Z.eqb negb Pos.eqb].
    rewrite !andb_false_r. split; reflexivity. }
  assert (HP : forall p,
             Z.testbit (clear_mask (clear_mask
                          (clear_mask p (Z.lor (bit TWI_SOFT_SCL) (bit TWI_SOFT_SDA)))
                          (bit TWI_SOFT_SCL)) (bit TWI_SOFT_SCL)) TWI_SOFT_SCL = false /\
             Z.testbit (clear_mask (clear_mask
                          (clear_mask p (Z.lor (bit TWI_SOFT_SCL) (bit TWI_SOFT_SDA)))
                          (bit TWI_SOFT_SCL)) (bit TWI_SOFT_SCL)) TWI_SOFT_SDA = false).
  { intro p. rewrite !testbit_clear_mask, !testbit_clear_lines
      by (unfold TWI_SOFT_SCL, TWI_SOFT_SDA; lia).
    unfold TWI_SOFT_SCL, TWI_SOFT_SDA. cbn [Z.eqb negb Pos.eqb orb].
    rewrite !andb_false_r. split; reflexivity. }
  destruct (Z.testbit (PINB (reads st)) TWI_SOFT_SCL) eqn:E1; cbn [negb];
    [destruct (Z.testbit (PINB (S (reads st))) TWI_SOFT_SDA) eqn:E2; cbn [negb]|];
    cbn [fst snd twi_soft_bus_status reads DDR PORT driven]; unfold driven;
    cbn [DDR];
    (split; [split; [intro H; try discriminate H; auto | intros [? ?]; try discriminate; reflexivity]|]);
    (split; [auto|]); (split; [intro; try discriminate; reflexivity|]);
    (split; [reflexivity|]);
    destruct (HD (DDR st)) as [H1 H2]; destruct (HP (PORT st)) as [H3 H4]; auto.
Qed.

(** X3. [twi_soft_disable] makes both pins inputs with their [PORT] bits
    clear, leaves every other bit of the two port registers, the status
    byte and the bus untouched. *)
Theorem twi_soft_disable_releases_pins (st : hw) (n : Z) :
  0 <= n ->
  Z.testbit (DDR (twi_soft_disable st)) n = Z.testbit (DDR st) n && negb ((n =? 0) || (n =? 1)) /\
  Z.testbit (PORT (twi_soft_disable st)) n = Z.testbit (PORT st) n && negb ((n =? 0) || (n =? 1)) /\
  twi_soft_bus_status (twi_soft_disable st) = twi_soft_bus_status st /\
  wire (twi_soft_disable st) = wire st.
Proof.
  intro Hn. unfold twi_soft_disable. cbn -[clear_mask bit Z.lor Z.testbit].
  rewrite !testbit_clear_lines by exact Hn. repeat split.
Qed.

Lemma twi_soft_disable_releases_pins_witness :
  Z.testbit (DDR (twi_soft_disable (snd (twi_soft_start hw_reset)))) TWI_SOFT_SDA = false.
Proof.
  destruct (twi_soft_disable_releases_pins (snd (twi_soft_start hw_reset)) TWI_SOFT_SDA)
    as [H _].
  - unfold TWI_SOFT_SDA. lia.
  - rewrite H. apply andb_false_r.
Defined.

(** X4. From every state [twi_soft_start] ends with both lines driven
    (the bus is held) and [twi_soft_stop] ends with both lines released,
    its last three line events being the stop edge: data LOW, clock
    released, data released.  Neither sets a [PORT] bit nor touches the
    direction of another pin. *)
Theorem start_holds_stop_releases (st : hw) :
  driven (snd (twi_soft_start st)) TWI_SOFT_SCL = true /\
  driven (snd (twi_soft_start st)) TWI_SOFT_SDA = true /\
  driven (twi_soft_stop st) TWI_SOFT_SCL = false /\
  driven (twi_soft_stop st) TWI_SOFT_SDA = false /\
  wire (twi_soft_stop st) =
    wire st ++ [SCL_low; SDA_low; Wait; SCL_high; Wait; SDA_high; Wait] /\
  port_footprint st (snd (twi_soft_start st)) /\
  port_footprint st (twi_soft_stop st).
Proof.
  unfold driven, twi_soft_start, twi_soft_stop.
  split; [|split; [|split; [|split; [|split; [|split]]]]].
  - cbn -[clear_mask set_mask bit Z.testbit].
    rewrite !testbit_set_mask by (unfold TWI_SOFT_SCL, TWI_SOFT_SDA; lia).
    unfold TWI_SOFT_SCL. cbn [Z.eqb]. apply orb_true_r.
  - cbn -[clear_mask set_mask bit Z.testbit].
    rewrite !testbit_set_mask by (unfold TWI_SOFT_SCL, TWI_SOFT_SDA; lia).
    unfold TWI_SOFT_SCL, TWI_SOFT_SDA. cbn [Z.eqb Pos.eqb]. rewrite orb_true_r. reflexivity.
  - cbn -[clear_mask set_mask bit Z.testbit].
    rewrite !testbit_clear_mask by (unfold TWI_SOFT_SCL, TWI_SOFT_SDA; lia).
    unfold TWI_SOFT_SCL, TWI_SOFT_SDA. cbn [Z.eqb negb Pos.eqb].
    rewrite andb_true_r. apply andb_false_r.
  - cbn -[clear_mask set_mask bit Z.testbit].
    rewrite !testbit_clear_mask by (unfold TWI_SOFT_SCL, TWI_SOFT_SDA; lia).
    unfold TWI_SOFT_SCL, TWI_SOFT_SDA. cbn [Z.eqb negb Pos.eqb]. apply andb_false_r.
  - cbn. rewrite <- !app_assoc. reflexivity.
  - cbv zeta. cbn [snd]. auto 10 with footprint.
  - cbv zeta. auto 10 with footprint.
Qed.

Lemma twi_soft_init_reports_stuck_line_witness :
  fst (twi_soft_init (scripted_bus [2]) hw_reset) = TWI_SOFT_STATUS_BUS_ERROR /\
  reads (snd (twi_soft_init (scripted_bus [2]) hw_reset)) = 1%nat /\
  fst (twi_soft_init idle_bus hw_reset) = TWI_SOFT_STATUS_BUS_INIT_COMPLETE.
Proof.
  destruct (twi_soft_init_reports_stuck_line (scripted_bus [2]) hw_reset)
    as [_ [_ [H _]]].
  destruct (twi_soft_init_reports_stuck_line idle_bus hw_reset) as [[_ H2] _].
  split; [vm_compute; reflexivity|]. split.
  - apply H. vm_compute. reflexivity.
  - apply H2. split; vm_compute; reflexivity.
Defined.

(** *** What byte transfers leave alone *)

Section TransferFootprint.

Variable PINB : nat -> Z.

Lemma clock_stretch_status (fuel : nat) (st st' : hw) :
  clock_stretch PINB fuel st = Some st' ->
  twi_soft_bus_status st' = twi_soft_bus_status st.
Proof. intro H. apply clock_stretch_events in H. apply H. Qed.

Lemma get_bit_cycle_footprint (fuel : nat) (received received' : Z) (st st' : hw) :
  get_bit_cycle PINB fuel received st = Some (received', st') ->
  port_footprint st st' /\ twi_soft_bus_status st' = twi_soft_bus_status st.
Proof.
  unfold get_bit_cycle. intro H.
  destruct (clock_stretch PINB fuel (SCL_HIGH (delay (SCL_LOW st)))) as [s|] eqn:E;
    [|discriminate].
  cbn -[Z.land bit Z.shiftl Z.lor u8] in H. injection H as _ <-. split.
  - apply (footprint_read PINB st (delay s)). apply footprint_delay.
    eapply footprint_clock_stretch; [|exact E]. auto with footprint.
  - apply clock_stretch_status in E. exact E.
Qed.

Lemma get_bits_footprint (fuel : nat) (n : nat) :
  forall received received' st st',
    get_bits PINB n fuel received st = Some (received', st') ->
    port_footprint st st' /\ twi_soft_bus_status st' = twi_soft_bus_status st.
Proof.
  induction n as [|n IH]; intros received received' st st' H.
  - injection H as _ <-. split; [apply port_footprint_refl | reflexivity].
  - cbn [get_bits] in H.
    destruct (get_bit_cycle PINB fuel received st) as [[r1 s1]|] eqn:E; [|discriminate].
    apply get_bit_cycle_footprint in E. apply IH in H.
    destruct E as [F1 S1], H as [F2 S2]. split.
    + eapply port_footprint_trans; eassumption.
    + congruence.
Qed.

Lemma twi_soft_get_footprint (fuel : nat) (acknowledge : TWI_Acknowledge)
    (st st' : hw) (e : TWI_Error) (received : Z) :
  twi_soft_get PINB fuel acknowledge st = Some (e, received, st') ->
  port_footprint st st' /\ twi_soft_bus_status st' = twi_soft_bus_status st /\
  e = TWI_None.
Proof.
  unfold twi_soft_get. intro H.
  destruct (get_bits PINB (Z.to_nat CHAR_BIT) fuel 0 st) as [[r8 s8]|] eqn:E; [|discriminate].
  apply get_bits_footprint in E. destruct E as [F8 S8].
  match type of H with
  | match clock_stretch PINB fuel ?s with _ => _ end = _ =>
      destruct (clock_stretch PINB fuel s) as [s9|] eqn:E9; [|discriminate];
      assert (F9 : port_footprint st s) by (destruct acknowledge; auto 10 with footprint)
  end.
  injection H as <- _ <-. split; [|split; [|reflexivity]].
  - apply footprint_SDA_HIGH, footprint_SCL_LOW, footprint_delay.
    eapply footprint_clock_stretch; [exact F9 | exact E9].
  - apply clock_stretch_status in E9. cbn in E9 |- *. rewrite E9.
    destruct acknowledge; exact S8.
Qed.

End TransferFootprint.

(** X5. A byte transfer, [twi_soft_set], [twi_soft_address] or
    [twi_soft_get], whatever its outcome, leaves the status byte as it
    was, sets no bit of [PORT] (a line is only ever driven LOW or
    released) and changes the direction of no pin other than the two bus
    pins. *)
Theorem transfers_keep_status_and_port (PINB : nat -> Z) (fuel : nat) (st st' : hw)
    (e : TWI_Error) :
  (exists data, twi_soft_set PINB fuel data st = Some (e, st')) \/
  (exists address operation,
      twi_soft_address PINB fuel address operation st = Some (e, st')) \/
  (exists acknowledge received,
      twi_soft_get PINB fuel acknowledge st = Some (e, received, st')) ->
  twi_soft_bus_status st' = twi_soft_bus_status st /\
  (forall n, 0 <= n -> Z.testbit (PORT st') n = true -> Z.testbit (PORT st) n = true) /\
  (forall n, 2 <= n -> Z.testbit (DDR st') n = Z.testbit (DDR st) n).
Proof.
  intro H.
  assert (HF : port_footprint st st' /\ twi_soft_bus_status st' = twi_soft_bus_status st).
  { destruct H as [[data H] | [[address [operation H]] | [acknowledge [received H]]]].
    - split; [eapply footprint_twi_soft_set | eapply status_twi_soft_set]; exact H.
    - unfold twi_soft_address in H.
      split; [eapply footprint_twi_soft_set | eapply status_twi_soft_set]; exact H.
    - apply twi_soft_get_footprint in H. destruct H as [F [S _]]. split; assumption. }
  destruct HF as [[HP HD] HS]. split; [exact HS|]. split; [|exact HD].
  intros n Hn Hb. destruct HP as [E|E]; rewrite E in Hb; [exact Hb|].
  rewrite testbit_clear_mask in Hb by (unfold TWI_SOFT_SCL; lia).
  apply andb_prop in Hb. apply Hb.
Qed.

Lemma transfers_keep_status_and_port_witness :
  twi_soft_bus_status
    (snd (returned (twi_soft_set idle_bus 1 0xA5 (snd (twi_soft_start hw_reset))))) = 1.
Proof.
  destruct (transfers_keep_status_and_port idle_bus 1 (snd (twi_soft_start hw_reset))
              (snd (returned (twi_soft_set idle_bus 1 0xA5 (snd (twi_soft_start hw_reset)))))
              TWI_Ack) as [H _].
  - left. exists 0xA5. vm_compute. reflexivity.
  - rewrite H. vm_compute. reflexivity.
Defined.

(** *** Clock stretching *)

Lemma clock_stretch_waits (PINB : nat -> Z) (k : nat) :
  forall fuel st,
    (forall j, (j < k)%nat -> Z.land (PINB (reads st + j)%nat) (bit TWI_SOFT_SCL) = 0) ->
    Z.land (PINB (reads st + k)%nat) (bit TWI_SOFT_SCL) <> 0 ->
    (k < fuel)%nat ->
    exists st',
      clock_stretch PINB fuel st = Some st' /\
      reads st' = S (reads st + k) /\
      wire st' = wire st
                   ++ flat_map (fun j => [Sample (PINB (reads st + j)%nat); Nop]) (seq 0 k)
                   ++ [Sample (PINB (reads st + k)%nat)].
Proof.
  induction k as [|k IH]; intros fuel st Hlow Hhigh Hfuel;
    (destruct fuel as [|fuel]; [lia|]); cbn -[Z.land bit].
  - rewrite Nat.add_0_r in Hhigh. apply Z.eqb_neq in Hhigh. rewrite Hhigh.
    eexists. split; [reflexivity|]. cbn. rewrite Nat.add_0_r. split; reflexivity.
  - pose proof (Hlow 0%nat ltac:(lia)) as H0. rewrite Nat.add_0_r in H0.
    rewrite H0. cbn -[Z.land bit].
    destruct (IH fuel (emit Nop (snd (read_PIN PINB st)))) as [st' [Hc [Hr Hw]]].
    + intros j Hj. cbn [reads emit snd read_PIN].
      replace (S (reads st) + j)%nat with (reads st + S j)%nat by lia.
      apply Hlow. lia.
    + cbn [reads emit snd read_PIN].
      replace (S (reads st) + k)%nat with (reads st + S k)%nat by lia. exact Hhigh.
    + lia.
    + exists st'. split; [exact Hc|]. cbn [reads emit snd read_PIN wire] in Hr, Hw.
      split; [rewrite Hr; lia|].
      rewrite Hw. cbn [seq flat_map]. rewrite Nat.add_0_r, <- !app_assoc. cbn [app].
      rewrite <- seq_shift, (flat_map_concat_map _ (map S (seq 0 k))), map_map,
        <- flat_map_concat_map.
      replace (reads st + S k)%nat with (S (reads st) + k)%nat by lia.
      do 4 f_equal.
      apply flat_map_ext. intro j.
      replace (reads st + S j)%nat with (S (reads st) + j)%nat by lia. reflexivity.
Qed.

Lemma clock_stretch_never_ends (PINB : nat -> Z) (fuel : nat) :
  (forall k, Z.land (PINB k) (bit TWI_SOFT_SCL) = 0) ->
  forall st, clock_stretch PINB fuel st = None.
Proof.
  intro Hlow. induction fuel as [|fuel IH]; intro st; cbn -[Z.land bit]; [reflexivity|].
  rewrite Hlow. cbn. apply IH.
Qed.

Lemma clock_pulse_waits (PINB : nat -> Z) (k fuel : nat) (st : hw) :
  (forall j, (j < k)%nat -> Z.land (PINB (reads st + j)%nat) (bit TWI_SOFT_SCL) = 0) ->
  Z.land (PINB (reads st + k)%nat) (bit TWI_SOFT_SCL) <> 0 ->
  (k < fuel)%nat ->
  exists st',
    clock_pulse PINB fuel st = Some (Next st') /\
    reads st' = S (reads st + k) /\
    wire st' = wire st ++ [SCL_high]
                 ++ flat_map (fun j => [Sample (PINB (reads st + j)%nat); Nop]) (seq 0 k)
                 ++ [Sample (PINB (reads st + k)%nat); Wait].
Proof.
  intros Hlow Hhigh Hfuel. unfold clock_pulse.
  destruct (clock_stretch_waits PINB k fuel (SCL_HIGH st)) as [s [Hc [Hr Hw]]];
    try assumption.
  rewrite Hc. exists (delay s). split; [reflexivity|]. split; [exact Hr|].
  cbn [delay emit wire]. rewrite Hw. cbn [SCL_HIGH emit wire set_regs reads].
  rewrite <- !app_assoc. reflexivity.
Qed.

(** X6. Each of the eight data-bit iterations of [twi_soft_set] honours
    clock stretching: after [i] completed iterations, when the bit to send
    is not lost to arbitration and the peer holds the clock line LOW for
    the [k] reads that follow the release of the clock and lets it go at
    the next, iteration [i] completes after exactly [k + 1] reads of the
    clock, one [NOP] per LOW read, and only then waits its half period
    (enough fuel given: more than [k]).  The ninth pulse, of the
    acknowledge phase, does not: from every state and on every bus the
    phase makes one read, the sample of the data line before the clock
    is released, and none after the release. *)
Theorem clock_pulse_waits_for_release (PINB : nat -> Z) (k fuel : nat) (data i : Z)
    (st st_i st9 : hw) :
  0 <= i <= 7 ->
  set_bits PINB (Z.to_nat i) fuel data 0 st = Some (Next st_i) ->
  (Z.testbit data (7 - i) = true ->
   Z.land (PINB (reads st_i)) (bit TWI_SOFT_SDA) <> 0) ->
  (forall j, (j < k)%nat ->
     Z.land (PINB (reads st_i + (if Z.testbit data (7 - i) then 1 else 0) + j)%nat)
            (bit TWI_SOFT_SCL) = 0) ->
  Z.land (PINB (reads st_i + (if Z.testbit data (7 - i) then 1 else 0) + k)%nat)
         (bit TWI_SOFT_SCL) <> 0 ->
  (k < fuel)%nat ->
  (exists st',
     set_bits PINB (Z.to_nat i + 1) fuel data 0 st = Some (Next st') /\
     reads st' = S (reads st_i + (if Z.testbit data (7 - i) then 1 else 0) + k) /\
     wire st' =
       wire st_i
         ++ (if Z.testbit data (7 - i)
             then [SCL_low; SDA_high; Wait; Sample (PINB (reads st_i))]
             else [SCL_low; SDA_low; Wait])
         ++ [SCL_high]
         ++ flat_map (fun j => [Sample (PINB (reads st_i
                                   + (if Z.testbit data (7 - i) then 1 else 0) + j)%nat); Nop])
                     (seq 0 k)
         ++ [Sample (PINB (reads st_i + (if Z.testbit data (7 - i) then 1 else 0) + k)%nat);
             Wait]) /\
  reads (snd (ack_phase PINB st9)) = S (reads st9) /\
  wire (snd (ack_phase PINB st9)) =
    wire st9 ++ [SCL_low; SDA_high; Wait; Sample (PINB (reads st9)); SCL_high; Wait].
Proof.
  intros Hi Hpre Harb Hlow Hhigh Hfuel. split; [|split].
  - assert (Hs0 : exists s0,
              set_bit_cycle PINB fuel data i st_i = clock_pulse PINB fuel s0 /\
              reads s0 = (reads st_i + (if Z.testbit data (7 - i) then 1 else 0))%nat /\
              wire s0 = wire st_i
                          ++ (if Z.testbit data (7 - i)
                              then [SCL_low; SDA_high; Wait; Sample (PINB (reads st_i))]
                              else [SCL_low; SDA_low; Wait])).
    { unfold set_bit_cycle. rewrite msb_first_bit, negb_involutive by exact Hi.
      destruct (Z.testbit data (7 - i)); cbn -[Z.land bit clock_pulse].
      - apply Z.eqb_neq in Harb; [|reflexivity]. rewrite Harb.
        eexists. split; [reflexivity|]. cbn [reads wire]. split.
        + rewrite Nat.add_1_r. reflexivity.
        + rewrite <- !app_assoc. reflexivity.
      - eexists. split; [reflexivity|]. split.
        + rewrite Nat.add_0_r. reflexivity.
        + cbn. rewrite <- !app_assoc. reflexivity. }
    destruct Hs0 as [s0 [Hc [Hr0 Hw0]]].
    destruct (clock_pulse_waits PINB k fuel s0) as [st' [Hp [Hr Hw]]];
      [rewrite Hr0; exact Hlow | rewrite Hr0; exact Hhigh | exact Hfuel |].
    exists st'. split; [|split].
    + rewrite set_bits_split, Hpre. cbn [set_bits].
      rewrite Z.add_0_l, Z2Nat.id, Hc, Hp by lia. reflexivity.
    + rewrite Hr, Hr0. reflexivity.
    + rewrite Hw, Hr0, Hw0, <- !app_assoc. reflexivity.
  - reflexivity.
  - cbn. rewrite <- !app_assoc. reflexivity.
Qed.

Lemma clock_pulse_waits_for_release_witness :
  option_map (fun r => wire (flow_state r))
             (set_bits (scripted_bus [2; 2; 3]) 1 3 0 0 hw_reset)
  = Some [SCL_low; SDA_low; Wait; SCL_high; Sample 2; Nop; Sample 2; Nop; Sample 3; Wait].
Proof.
  destruct (clock_pulse_waits_for_release (scripted_bus [2; 2; 3]) 2 3 0 0
              hw_reset hw_reset hw_reset)
    as [[st' [H [_ Hw]]] _].
  - lia.
  - reflexivity.
  - intro Hb. vm_compute in Hb. discriminate Hb.
  - intros j Hj. destruct j as [|[|j]]; [reflexivity | reflexivity | lia].
  - vm_compute. discriminate.
  - lia.
  - change (Z.to_nat 0 + 1)%nat with 1%nat in H. rewrite H.
    cbn [option_map flow_state]. rewrite Hw. reflexivity.
Defined.

(** X7. There is no time-out: on a bus whose clock line stays LOW
    [twi_soft_get] does not return and [twi_soft_set] does not complete a
    byte, for any fuel; the only way [twi_soft_set] returns is an
    arbitration loss found before its first clock pulse. *)
Theorem stuck_clock_hangs (PINB : nat -> Z) (fuel : nat) (data : Z)
    (acknowledge : TWI_Acknowledge) (st : hw) :
  (forall k, Z.land (PINB k) (bit TWI_SOFT_SCL) = 0) ->
  twi_soft_get PINB fuel acknowledge st = None /\
  (forall r, twi_soft_set PINB fuel data st = Some r ->
             fst r = TWI_Arbitration /\ clock_pulses (wire (snd r)) = clock_pulses (wire st)) /\
  (Z.land (PINB (reads st)) (bit TWI_SOFT_SDA) <> 0 ->
   twi_soft_set PINB fuel data st = None).
Proof.
  intro Hlow.
  assert (Hcp : forall s, clock_pulse PINB fuel s = None).
  { intro s. unfold clock_pulse. rewrite clock_stretch_never_ends by exact Hlow.
    reflexivity. }
  split; [|split].
  - assert (Hg : forall received s, get_bit_cycle PINB fuel received s = None).
    { intros received s. unfold get_bit_cycle.
      rewrite clock_stretch_never_ends by exact Hlow. reflexivity. }
    unfold twi_soft_get. change (Z.to_nat CHAR_BIT) with 8%nat.
    cbn [get_bits]. rewrite Hg. reflexivity.
  - intros r H. unfold twi_soft_set in H.
    change (Z.to_nat CHAR_BIT) with 8%nat in H. cbn [set_bits] in H.
    unfold set_bit_cycle in H at 1.
    destruct (negb _) in H; cbn -[Z.land bit clock_pulse clock_pulses] in H.
    + destruct (_ =? 0) in H.
      * injection H as <-. cbn [fst snd wire]. split; [reflexivity|].
        rewrite !clock_pulses_app. cbn. lia.
      * rewrite Hcp in H. discriminate.
    + rewrite Hcp in H. discriminate.
  - intro Hsda. unfold twi_soft_set.
    change (Z.to_nat CHAR_BIT) with 8%nat. cbn [set_bits].
    unfold set_bit_cycle at 1.
    destruct (negb _); cbn -[Z.land bit clock_pulse].
    + apply Z.eqb_neq in Hsda. rewrite Hsda, Hcp. reflexivity.
    + rewrite Hcp. reflexivity.
Qed.

Lemma stuck_clock_hangs_witness :
  twi_soft_get (fun _ => 2) 1000 TWI_ACK hw_reset = None /\
  twi_soft_set (fun _ => 2) 1000 0xFF hw_reset = None.
Proof.
  destruct (stuck_clock_hangs (fun _ => 2) 1000 0xFF TWI_ACK hw_reset) as [H1 [_ H3]].
  - intro k. reflexivity.
  - split; [exact H1|]. apply H3. vm_compute. discriminate.
Defined.

(** *** Sending a byte *)

(** X8. A call of [twi_soft_set] that returns ends in [TWI_None],
    [TWI_Ack] or [TWI_Arbitration], never in another status.  Unless
    arbitration was lost it produced nine clock pulses, the first eight
    with the data line at the bits of [data], most significant first, and
    the ninth with the data line released; shifting these eight levels in
    as [twi_soft_get] does gives [data] back. *)
Theorem twi_soft_set_sends_msb_first (PINB : nat -> Z) (fuel : nat) (data : Z)
    (st st' : hw) (e : TWI_Error) :
  0 <= data < 256 ->
  twi_soft_set PINB fuel data st = Some (e, st') ->
  (e = TWI_None \/ e = TWI_Ack \/ e = TWI_Arbitration) /\
  (e <> TWI_Arbitration ->
   exists evs,
     wire st' = wire st ++ evs /\
     clock_pulses evs = 9%nat /\
     (forall b, clocked_bits b evs = byte_bits data ++ [true]) /\
     (forall b, fold_left shift_in (firstn 8 (clocked_bits b evs)) 0 = data)).
Proof.
  intros Hd H. split.
  - unfold twi_soft_set in H.
    destruct (set_bits PINB (Z.to_nat CHAR_BIT) fuel data 0 st) as [[s|e1 s]|] eqn:E;
      try discriminate.
    + unfold ack_phase in H. cbn -[Z.land bit] in H.
      destruct (_ =? 0) in H; injection H as <- _; auto.
    + injection H as <- _. apply set_bits_return in E. auto.
  - intro Hne. destruct (twi_soft_set_clocks_byte PINB fuel data st st' e H Hne)
      as [_ [evs [Hw [Hp Hb]]]].
    exists evs. repeat split; try assumption.
    intro b. rewrite Hb. change (firstn 8 (byte_bits data ++ [true])) with (byte_bits data).
    apply byte_bits_round_trip. exact Hd.
Qed.

Lemma twi_soft_set_sends_msb_first_witness :
  exists evs,
    wire (snd (returned (twi_soft_set idle_bus 1 0xA5 hw_reset))) = wire hw_reset ++ evs /\
    clocked_bits true evs = [true; false; true; false; false; true; false; true; true].
Proof.
  destruct (twi_soft_set_sends_msb_first idle_bus 1 0xA5 hw_reset
              (snd (returned (twi_soft_set idle_bus 1 0xA5 hw_reset))) TWI_Ack)
    as [_ H].
  - lia.
  - vm_compute. reflexivity.
  - destruct H as [evs [Hw [_ [Hb _]]]]; [discriminate|].
    exists evs. split; [exact Hw|]. rewrite Hb. vm_compute. reflexivity.
Defined.

(* ================================================================== *)
(** ** Further properties of the display protocol layer *)
(* ================================================================== *)

(** *** Writing *)

Lemma bytes_at_length (mem : memory) (p : Z) (n : nat) : length (bytes_at mem p n) = n.
Proof. unfold bytes_at. rewrite length_map, length_seq. reflexivity. Qed.

Lemma bytes_at_nth (mem : memory) (p : Z) (n k : nat) :
  (k < n)%nat -> nth k (bytes_at mem p n) 0 = load mem (p + Z.of_nat k).
Proof.
  intro H. unfold bytes_at.
  rewrite (nth_indep _ 0 (load mem (p + Z.of_nat 0)))
    by (rewrite length_map, length_seq; exact H).
  rewrite (map_nth (fun k => load mem (p + Z.of_nat k)) (seq 0 n) 0%nat k).
  rewrite seq_nth by exact H. reflexivity.
Qed.

(** X9. An accepted request of [oled_page_segment] ([column_start] below
    [column_stop], [column_stop] below 128, [page] below 8) sets the cursor
    to [(column_start, page)] and then sends, in one data transaction, the
    [column_stop - column_start + 1] bytes found at [data], in memory
    order: at least 2 and at most 128 of them.  [oled_page] is the case of
    the whole page, 128 bytes, and does nothing for a page from 8 on. *)
Theorem oled_page_segment_writes_segment (mem : memory)
    (data column_start column_stop page : Z) (st : oled) :
  0 <= column_start < column_stop -> column_stop < 128 -> 0 <= page < 8 ->
  let n := Z.to_nat (column_stop - column_start + 1) in
  oled_page_segment mem data column_start column_stop page st =
    Some (mkOled column_start page
            (bus st ++ position_frame column_start page
               ++ data_frame (bytes_at mem data n))) /\
  (2 <= n <= 128)%nat /\
  length (bytes_at mem data n) = n /\
  (forall k, (k < n)%nat -> nth k (bytes_at mem data n) 0 = load mem (data + Z.of_nat k)) /\
  oled_page mem data page st =
    Some (mkOled 0 page
            (bus st ++ position_frame 0 page ++ data_frame (bytes_at mem data 128))) /\
  (forall page', page' >= 8 -> oled_page mem data page' st = Some st).
Proof.
  intros Hc Hs Hp n. split; [|split; [|split; [|split; [|split]]]].
  - apply oled_page_segment_accepts; unfold OLED_COLUMN_SIZE, OLED_PAGE_SIZE; lia.
  - subst n. lia.
  - apply bytes_at_length.
  - intros k Hk. apply bytes_at_nth. exact Hk.
  - apply oled_page_accepts. unfold OLED_PAGE_SIZE. lia.
  - intros page' Hp'. unfold oled_page. rewrite geb_true by exact Hp'. reflexivity.
Qed.

Lemma oled_page_segment_writes_segment_witness :
  option_map (fun s => (cursor s, data_payloads (bus s)))
             (oled_page_segment ramp 100 2 5 1 oled_reset)
  = Some ((2, 1), [[100; 101; 102; 103]]).
Proof.
  destruct (oled_page_segment_writes_segment ramp 100 2 5 1 oled_reset) as [H _];
    [lia | lia | lia |].
  rewrite H. vm_compute. reflexivity.
Defined.

(** X10. A single column is not a segment: [oled_page_segment] with
    [column_start = column_stop] does nothing, even inside the display.
    [oled_column] is the way to write one column: inside the display it
    sets the cursor there and sends the one byte in a data transaction;
    with [column >= 128] or [page >= 8] it does nothing.
    [oled_clear_column] inside the display does the same with a zero
    byte. *)
Theorem single_column_writes (mem : memory) (data value column page : Z) (st : oled) :
  column < 128 -> page < 8 ->
  oled_page_segment mem data column column page st = Some st /\
  oled_column value column page st =
    Some (mkOled column page
            (bus st ++ position_frame column page ++ data_frame [value])) /\
  oled_clear_column column page st =
    Some (mkOled column page
            (bus st ++ position_frame column page ++ data_frame [0x00])) /\
  (forall column' page', column' >= 128 \/ page' >= 8 ->
                         oled_column value column' page' st = Some st).
Proof.
  intros Hc Hp. split; [|split; [|split]].
  - apply oled_page_segment_rejects. left. lia.
  - apply oled_column_accepts; assumption.
  - apply oled_clear_column_accepts; assumption.
  - intros column' page' H. apply oled_column_rejects. exact H.
Qed.

Lemma single_column_writes_witness :
  option_map (fun s => (cursor s, data_payloads (bus s)))
             (oled_column 0xAA 127 7 oled_reset)
  = Some ((127, 7), [[0xAA]]).
Proof.
  destruct (single_column_writes ramp 0 0xAA 127 7 oled_reset) as [_ [H _]]; [lia | lia |].
  rewrite H. vm_compute. reflexivity.
Defined.

(** X11. [oled_scroll_vertical] with [scroll < 64] sends the display
    offset command and the offset, each after a command-control byte, in
    one transaction; with [scroll >= 64] it sends nothing.  It never moves
    the cursor. *)
Theorem oled_scroll_vertical_offset (scroll : Z) (st : oled) :
  (scroll < 64 ->
   oled_scroll_vertical scroll st =
     Some (mkOled (column_current_position st) (page_current_position st)
             (bus st ++ [Twi_start; Twi_address OLED_ADDRESS TWI_Write;
                         Twi_set OLED_CONTROL_COMMAND; Twi_set 0xD3;
                         Twi_set OLED_CONTROL_COMMAND; Twi_set scroll;
                         Twi_stop]))) /\
  (scroll >= 64 -> oled_scroll_vertical scroll st = Some st).
Proof.
  split; intro H.
  - rewrite oled_scroll_vertical_accepts by exact H. reflexivity.
  - unfold oled_scroll_vertical. rewrite geb_true by exact H. reflexivity.
Qed.

Lemma oled_scroll_vertical_offset_witness :
  option_map (fun s => length (bus s)) (oled_scroll_vertical 63 oled_reset) = Some 7%nat /\
  oled_scroll_vertical 64 oled_reset = Some oled_reset.
Proof.
  destruct (oled_scroll_vertical_offset 63 oled_reset) as [H1 _].
  destruct (oled_scroll_vertical_offset 64 oled_reset) as [_ H2].
  split.
  - rewrite H1 by lia. reflexivity.
  - apply H2. lia.
Defined.

(** *** Clearing *)

(** X12. [oled_clear_page] of a page below 8 sets the cursor to the start
    of the page and sends 128 zero bytes in one data transaction; for a
    page from 8 on it sends nothing.  [oled_clear] does this for the pages
    0 to 7 in order and then homes the cursor, so that it ends at (0, 0)
    whatever the state before. *)
Theorem oled_clear_clears_every_page (page : Z) (st : oled) :
  (page < 8 ->
   oled_clear_page page st =
     Some (mkOled 0 page
             (bus st ++ position_frame 0 page ++ data_frame (repeat 0x00 128)))) /\
  (page >= 8 -> oled_clear_page page st = Some st) /\
  oled_clear st =
    Some (mkOled 0 0
            (bus st
               ++ flat_map (fun p => position_frame 0 p ++ data_frame (repeat 0x00 128))
                           [0; 1; 2; 3; 4; 5; 6; 7]
               ++ position_frame 0 0)) /\
  option_map (fun s => data_payloads (bus s)) (oled_clear oled_reset)
    = Some (repeat (repeat 0x00 128) 8).
Proof.
  split; [|split; [|split]].
  - intro H. apply oled_clear_page_accepts. exact H.
  - intro H. apply oled_clear_page_segment_rejects. right. right. exact H.
  - apply oled_clear_effect.
  - vm_compute. reflexivity.
Qed.

Lemma oled_clear_clears_every_page_witness :
  option_map cursor (oled_clear_page 7 (mkOled 55 2 [])) = Some (0, 7) /\
  oled_clear_page 8 (mkOled 55 2 []) = Some (mkOled 55 2 []).
Proof.
  destruct (oled_clear_clears_every_page 7 (mkOled 55 2 [])) as [H1 _].
  destruct (oled_clear_clears_every_page 8 (mkOled 55 2 [])) as [_ [H2 _]].
  split.
  - rewrite H1 by lia. reflexivity.
  - apply H2. lia.
Defined.

(** X13. For every accepted request [oled_clear_page_segment] positions
    the cursor at [column_start] and sends [column_stop + 1] zero bytes:
    the width of the segment plus [column_start].  The count is the width
    of the segment exactly when [column_start] is 0, which is how
    [oled_clear_page] calls it. *)
Theorem oled_clear_page_segment_zero_count (column_start column_stop page : Z) (st : oled) :
  0 <= column_start < column_stop -> column_stop < 128 -> 0 <= page < 8 ->
  oled_clear_page_segment column_start column_stop page st =
    Some (mkOled column_start page
            (bus st ++ position_frame column_start page
               ++ data_frame (repeat 0x00 (Z.to_nat (column_stop + 1))))) /\
  Z.to_nat (column_stop + 1)
    = (Z.to_nat (column_stop - column_start + 1) + Z.to_nat column_start)%nat /\
  (Z.to_nat (column_stop + 1) = Z.to_nat (column_stop - column_start + 1)
   <-> column_start = 0).
Proof.
  intros Hc Hs Hp. split; [|split].
  - apply oled_clear_page_segment_accepts; unfold OLED_COLUMN_SIZE, OLED_PAGE_SIZE; lia.
  - lia.
  - lia.
Qed.

Lemma oled_clear_page_segment_zero_count_witness :
  option_map (fun s => map (@length Z) (data_payloads (bus s)))
             (oled_clear_page_segment 100 127 0 oled_reset) = Some [128%nat].
Proof.
  destruct (oled_clear_page_segment_zero_count 100 127 0 oled_reset) as [H _];
    [lia | lia | lia |].
  rewrite H. vm_compute. reflexivity.
Defined.

(** *** Initialisation *)

(** X14. [oled_init] initialises the transport, sends the 21
    configuration commands in one transaction, each after a
    command-control byte of its own, from display off (0xAE) to display on
    (0xAF), then clears the eight pages and homes the cursor; it ends with
    the cursor at (0, 0) from every state. *)
Theorem oled_init_sequence (st : oled) :
  oled_init st =
    Some (mkOled 0 0
            (bus st ++ Twi_init
               :: command_frame
                    [0xAE; 0xA8; 0x3F; 0xD3; 0x00; 0x40; 0xA1; 0xC8; 0xDA; 0x12; 0x81;
                     0x7F; 0xA4; 0xA6; 0xD5; 0x80; 0x20; 0x02; 0x8D; 0x14; 0xAF]
               ++ flat_map (fun p => position_frame 0 p ++ data_frame (repeat 0x00 128))
                           [0; 1; 2; 3; 4; 5; 6; 7]
               ++ position_frame 0 0)) /\
  (exists after, oled_init st = Some after /\
                 count_op is_start (bus after) = (count_op is_start (bus st) + 18)%nat /\
                 count_op is_stop (bus after) = (count_op is_stop (bus st) + 18)%nat).
Proof.
  split.
  - apply oled_init_effect.
  - eexists. split; [apply oled_init_effect|].
    unfold count_op. cbn [bus]. rewrite !filter_app, !length_app.
    split; f_equal.
Qed.

(** *** The position commands *)

Lemma position_round_trip_table :
  forallb (fun c =>
    forallb (fun p =>
      match decode_position (position_commands (Z.of_nat c) (Z.of_nat p)) with
      | Some (c', p') => (c' =? Z.of_nat c) && (p' =? Z.of_nat p)
      | None => false
      end
      && forallb (fun t => (fst (fst t) <=? snd t) && (snd t <=? snd (fst t)))
           (combine [(0xB0, 0xB7); (0x00, 0x0F); (0x10, 0x17)]
                    (position_commands (Z.of_nat c) (Z.of_nat p))))
      (seq 0 8))
    (seq 0 128) = true.
Proof. vm_compute. reflexivity. Qed.

(** X15. For a position inside the display the three commands of
    [oled_position] lie in the ranges 0xB0..0xB7, 0x00..0x0F and
    0x10..0x17, and the position can be read back from them: the page from
    the low three bits of the first, the column from the low nibbles of
    the third and the second. *)
Theorem position_commands_round_trip (column page : Z) :
  0 <= column < 128 -> 0 <= page < 8 ->
  decode_position (position_commands column page) = Some (column, page) /\
  exists c1 c2 c3,
    position_commands column page = [c1; c2; c3] /\
    0xB0 <= c1 <= 0xB7 /\ 0x00 <= c2 <= 0x0F /\ 0x10 <= c3 <= 0x17.
Proof.
  intros Hc Hp.
  pose proof position_round_trip_table as T.
  rewrite forallb_forall in T. specialize (T (Z.to_nat column)).
  rewrite Z2Nat.id in T by lia.
  assert (Hin : In (Z.to_nat column) (seq 0 128)) by (apply in_seq; lia).
  specialize (T Hin). rewrite forallb_forall in T. specialize (T (Z.to_nat page)).
  rewrite Z2Nat.id in T by lia.
  assert (Hin' : In (Z.to_nat page) (seq 0 8)) by (apply in_seq; lia).
  specialize (T Hin'). apply andb_prop in T. destruct T as [T1 T2].
  split.
  - unfold position_commands in *. cbn [decode_position] in *.
    apply andb_prop in T1. destruct T1 as [A B].
    apply Z.eqb_eq in A, B. rewrite A, B. reflexivity.
  - unfold position_commands in *. do 3 eexists. split; [reflexivity|].
    cbn [combine forallb fst snd] in T2.
    repeat (apply andb_prop in T2; destruct T2 as [? T2]).
    repeat match goal with
           | H : (_ && _) = true |- _ => apply andb_prop in H; destruct H
           | H : (_ <=? _) = true |- _ => apply Z.leb_le in H
           end.
    repeat split; assumption.
Qed.

Lemma position_commands_round_trip_witness :
  position_commands 100 3 = [0xB3; 0x04; 0x16] /\
  decode_position [0xB3; 0x04; 0x16] = Some (100, 3).
Proof.
  destruct (position_commands_round_trip 100 3) as [H _]; [lia | lia |].
  split; [vm_compute; reflexivity|].
  change [0xB3; 0x04; 0x16] with (position_commands 100 3). exact H.
Defined.

(** *** Bus discipline *)

Lemma count_op_app (f : bus_op -> bool) (l1 l2 : list bus_op) :
  count_op f (l1 ++ l2) = (count_op f l1 + count_op f l2)%nat.
Proof. unfold count_op. rewrite filter_app, length_app. reflexivity. Qed.

Lemma count_op_sets (f : bus_op -> bool) (bytes : list Z) :
  (forall d, f (Twi_set d) = false) -> count_op f (map Twi_set bytes) = 0%nat.
Proof.
  intro Hf. unfold count_op. induction bytes as [|d l IH]; [reflexivity|].
  cbn [map filter]. rewrite Hf. exact IH.
Qed.

Lemma count_op_commands (f : bus_op -> bool) (commands : list Z) :
  (forall d, f (Twi_set d) = false) ->
  count_op f (flat_map (fun c => [Twi_set OLED_CONTROL_COMMAND; Twi_set c]) commands) = 0%nat.
Proof.
  intro Hf. unfold count_op. induction commands as [|c l IH]; [reflexivity|].
  cbn [flat_map app filter]. rewrite !Hf. exact IH.
Qed.

Lemma framed_discipline (l : list bus_op) :
  framed l ->
  Forall to_display l /\
  count_op is_start l = count_op is_stop l /\
  count_op is_start l = count_op is_address l.
Proof.
  induction 1 as [|rest _ IH|rest _ IH|commands rest _ IH|bytes rest _ IH].
  - repeat split. constructor.
  - destruct IH as [F [C1 C2]]. repeat split; try assumption.
    constructor; [exact I | exact F].
  - destruct IH as [F [C1 C2]]. repeat split; try assumption.
    constructor; [exact I | exact F].
  - destruct IH as [F [C1 C2]]. split; [|split].
    + apply Forall_app. split; [|exact F]. unfold command_frame.
      repeat (apply Forall_app; split); repeat constructor.
      induction commands as [|c cs IHc]; cbn [flat_map]; repeat constructor.
      exact IHc.
    + unfold command_frame. rewrite !count_op_app, !count_op_commands by reflexivity.
      cbn. rewrite C1. reflexivity.
    + unfold command_frame. rewrite !count_op_app, !count_op_commands by reflexivity.
      cbn. rewrite C2. reflexivity.
  - destruct IH as [F [C1 C2]]. split; [|split].
    + apply Forall_app. split; [|exact F]. unfold data_frame.
      repeat (apply Forall_app; split); repeat constructor.
      induction bytes as [|d ds IHd]; cbn [map]; repeat constructor. exact IHd.
    + unfold data_frame. rewrite !count_op_app, !count_op_sets by reflexivity.
      cbn. rewrite C1. reflexivity.
    + unfold data_frame. rewrite !count_op_app, !count_op_sets by reflexivity.
      cbn. rewrite C2. reflexivity.
Qed.

(** X16. Whatever sequence of requests the driver serves from reset, it
    addresses no device but the display and only for writing (it never
    reads from the bus), and it leaves no transaction open: the record of
    transport calls has as many stops as starts and one address per
    start. *)
Theorem driver_only_writes_to_display (mem : memory) (rs : list request) :
  exists st',
    serve_all mem rs oled_reset = Some st' /\
    Forall to_display (bus st') /\
    count_op is_start (bus st') = count_op is_stop (bus st') /\
    count_op is_start (bus st') = count_op is_address (bus st').
Proof.
  destruct (serve_all_effect mem rs oled_reset) as [st' [l [Hs [Hb [Hf _]]]]].
  exists st'. split; [exact Hs|]. rewrite Hb. cbn [bus oled_reset app].
  apply framed_discipline. exact Hf.
Qed.

(* ================================================================== *)
(** ** Properties of the text layer *)
(* ================================================================== *)

Import Tty.

Lemma lift_some (p : proc) (t : tty) (d : oled) :
  p (display t) = Some d ->
  lift p t = Some (mkTty (tty_character t) (tty_line t) (tty_scroll t) d).
Proof. unfold lift. intros ->. reflexivity. Qed.

Lemma tty_clear_line_accepts (line : Z) (t : tty) :
  line < 8 ->
  tty_clear_line line t =
  Some (mkTty (tty_character t) (tty_line t) (tty_scroll t)
          (mkOled 0 line (bus (display t) ++ cleared_page line))).
Proof.
  intro H. unfold tty_clear_line. rewrite geb_false by exact H.
  apply lift_some. apply oled_clear_page_accepts. exact H.
Qed.

Lemma small_cases (x n : Z) (P : Z -> Prop) :
  0 <= x < n ->
  (forall k, (k < Z.to_nat n)%nat -> P (Z.of_nat k)) -> P x.
Proof. intros Hx H. rewrite <- (Z2Nat.id x) by lia. apply H. lia. Qed.

Lemma tty_newline_effect (t : tty) :
  0 <= tty_line t < 8 ->
  tty_newline t =
  Some (mkTty 0 (next_line (tty_line t))
          (if tty_line t =? 7 then 1 else tty_scroll t)
          (mkOled 0 (next_line (tty_line t))
             (bus (display t)
                ++ newline_bus (negb ((if tty_line t =? 7 then 1 else tty_scroll t) =? 0))
                               (next_line (tty_line t))))).
Proof.
  destruct t as [ch line scroll d]. cbn [tty_line tty_scroll display]. intro H.
  pattern line. apply (small_cases line 8 _ H).
  intros k Hk. unfold tty_newline. cbn [tty_line tty_scroll display set_position].
  do 8 (destruct k as [|k]; [
    cbn -[oled_scroll_vertical tty_clear_line command_frame cleared_page];
    destruct (scroll =? 0) eqn:E; cbn [negb];
    unfold tseq, tskip;
    try (erewrite lift_some by (apply oled_scroll_vertical_accepts; reflexivity));
    rewrite tty_clear_line_accepts by reflexivity;
    unfold newline_bus, scroll_frame, sends;
    cbn [display bus tty_character tty_line tty_scroll column_current_position
         page_current_position app];
    rewrite <- ?app_assoc; reflexivity |]).
  lia.
Qed.

Lemma range_filter_unsatisfiable (c : Z) :
  negb (c =? NEWLINE) && (c <? FONT_ASCII_START_CHAR) && (c >? FONT_ASCII_END_CHAR) = false.
Proof.
  unfold FONT_ASCII_START_CHAR, FONT_ASCII_END_CHAR.
  destruct (c <? 32) eqn:E1; [|rewrite andb_false_r; reflexivity].
  apply Z.ltb_lt in E1. rewrite Z.gtb_ltb.
  replace (126 <? c) with false by (symmetry; apply Z.ltb_ge; lia).
  apply andb_false_r.
Qed.

Lemma u8_small (x : Z) : 0 <= x < 256 -> u8 x = x.
Proof. intro H. unfold u8. apply Z.mod_small. exact H. Qed.

Ltac tty_range :=
  unfold tty_in_range, cursor_in_range, TTY_WIDTH, TTY_HEIGHT, OLED_COLUMN_SIZE,
    OLED_PAGE_SIZE, OLED_ROW_SIZE, FONT_WIDTH in *;
  cbn [tty_character tty_line tty_scroll display column_current_position
       page_current_position] in *;
  change (128 / 5) with 25 in *; change (64 / 8) with 8 in *.

Section FontFacts.

Variable font : Z -> memory * Z.
Variable chars : Z -> Z.

Lemma tty_putchar_glyph (c : Z) (t : tty) :
  c <> NEWLINE -> tty_in_range t ->
  tty_putchar font c t =
  (if tty_character t =? 24 then tty_newline else tskip)
    (mkTty (tty_character t + 1) (tty_line t) (tty_scroll t)
       (mkOled (tty_character t * FONT_WIDTH) (tty_line t)
          (bus (display t) ++ glyph_bus font c (tty_character t) (tty_line t)))).
Proof.
  intros Hc [Hch Hl]. unfold TTY_WIDTH, TTY_HEIGHT in Hch, Hl.
  change (OLED_COLUMN_SIZE / FONT_WIDTH) with 25 in Hch.
  change (OLED_ROW_SIZE / OLED_PAGE_SIZE) with 8 in Hl.
  unfold tty_putchar. rewrite range_filter_unsatisfiable.
  apply Z.eqb_neq in Hc. rewrite Hc.
  unfold glyph_bus. destruct (font c) as [mem temp]. cbn [fst snd].
  unfold FONT_WIDTH in *.
  rewrite !u8_small by lia.
  erewrite lift_some.
  2:{ apply oled_page_segment_accepts; unfold OLED_COLUMN_SIZE, OLED_PAGE_SIZE; lia. }
  replace (Z.to_nat ((tty_character t + 1) * 5 - tty_character t * 5 + 1)) with 6%nat by lia.
  cbn [set_position tty_character tty_line tty_scroll display].
  rewrite u8_small by lia.
  unfold TTY_WIDTH. change (OLED_COLUMN_SIZE / FONT_WIDTH) with 25.
  unfold set_position. cbn [tty_character tty_line tty_scroll display].
  destruct (tty_character t =? 24) eqn:E.
  - apply Z.eqb_eq in E. rewrite geb_true by lia. reflexivity.
  - apply Z.eqb_neq in E. rewrite geb_false by lia. reflexivity.
Qed.

Lemma tty_cursor_accepts (column line : Z) (t : tty) :
  0 <= column < 25 -> line < 8 ->
  tty_cursor column line t =
  Some (mkTty column line (tty_scroll t)
          (mkOled (column * FONT_WIDTH) line
             (bus (display t) ++ position_frame (column * FONT_WIDTH) line))).
Proof.
  intros Hc Hl. unfold tty_cursor, TTY_WIDTH, TTY_HEIGHT.
  change (OLED_COLUMN_SIZE / FONT_WIDTH) with 25.
  change (OLED_ROW_SIZE / OLED_PAGE_SIZE) with 8.
  rewrite !geb_false by lia. cbn [orb]. unfold FONT_WIDTH. rewrite u8_small by lia.
  erewrite lift_some.
  2:{ apply oled_position_accepts; unfold OLED_COLUMN_SIZE, OLED_PAGE_SIZE;
        cbn [set_position display]; lia. }
  reflexivity.
Qed.

Lemma tty_cursor_rejects (column line : Z) (t : tty) :
  column >= 25 \/ line >= 8 -> tty_cursor column line t = Some t.
Proof.
  intro H. unfold tty_cursor, TTY_WIDTH, TTY_HEIGHT.
  change (OLED_COLUMN_SIZE / FONT_WIDTH) with 25.
  change (OLED_ROW_SIZE / OLED_PAGE_SIZE) with 8.
  destruct H as [H|H]; rewrite (geb_true _ _ H); rewrite ?orb_true_r; reflexivity.
Qed.

Lemma tty_init_effect (t : tty) :
  tty_init t =
  Some (mkTty 0 0 0
          (mkOled 0 0
             (bus (display t) ++ Twi_init :: command_frame oled_init_commands
                ++ flat_map cleared_page pages ++ position_frame 0 0
                ++ flat_map cleared_page pages ++ position_frame 0 0))).
Proof.
  unfold tty_init, tseq.
  erewrite lift_some by apply oled_init_effect.
  erewrite lift_some by apply oled_clear_effect.
  cbn [tty_character tty_line tty_scroll display bus]. rewrite <- !app_assoc.
  reflexivity.
Qed.

(** *** The invariant *)

Lemma framed_newline_bus (scrolling : bool) (line : Z) : framed (newline_bus scrolling line).
Proof.
  unfold newline_bus, scroll_frame. destruct scrolling; auto with frames.
Qed.

Lemma framed_glyph_bus (c character line : Z) : framed (glyph_bus font c character line).
Proof. unfold glyph_bus. auto with frames. Qed.

Lemma next_line_range (line : Z) : 0 <= next_line line < 8.
Proof. unfold next_line. apply Z.mod_pos_bound. lia. Qed.

Lemma tty_newline_invariant (t t' : tty) :
  0 <= tty_line t < 8 -> framed (bus (display t)) ->
  tty_newline t = Some t' -> tty_invariant t'.
Proof.
  intros Hl Hf H. rewrite tty_newline_effect in H by exact Hl. injection H as <-.
  pose proof (next_line_range (tty_line t)) as Hn.
  split; [|split].
  - tty_range. lia.
  - tty_range. lia.
  - cbn [display bus]. apply framed_app; [exact Hf | apply framed_newline_bus].
Qed.

Lemma tty_putchar_invariant (c : Z) (t t' : tty) :
  tty_invariant t -> tty_putchar font c t = Some t' -> tty_invariant t'.
Proof.
  intros [Hr [Hc Hf]] H. destruct (Z.eq_dec c NEWLINE) as [->|Hne].
  - unfold tty_putchar in H. rewrite range_filter_unsatisfiable in H.
    cbn [Z.eqb NEWLINE Pos.eqb] in H. change (10 =? 10) with true in H. cbn iota in H.
    eapply tty_newline_invariant; [| exact Hf | exact H]. tty_range. lia.
  - rewrite tty_putchar_glyph in H by assumption.
    destruct (tty_character t =? 24) eqn:E.
    + eapply tty_newline_invariant; [| | exact H].
      * tty_range. lia.
      * cbn [display bus]. apply framed_app; [exact Hf | apply framed_glyph_bus].
    + apply Z.eqb_neq in E. injection H as <-. split; [|split].
      * tty_range. lia.
      * tty_range. lia.
      * cbn [display bus]. apply framed_app; [exact Hf | apply framed_glyph_bus].
Qed.

Lemma tty_string_invariant (fuel : nat) :
  forall string t t',
    tty_invariant t -> tty_string font chars fuel string t = Some t' -> tty_invariant t'.
Proof.
  induction fuel as [|fuel IH]; intros string t t' Hi H; [discriminate|].
  cbn [tty_string] in H. destruct (chars string =? 0).
  - injection H as <-. exact Hi.
  - unfold tseq in H.
    destruct (tty_putchar font (chars string) t) as [t1|] eqn:E; [|discriminate].
    eapply IH; [|exact H]. eapply tty_putchar_invariant; eassumption.
Qed.

Lemma framed_tty_init_bus :
  framed (Twi_init :: command_frame oled_init_commands
            ++ flat_map cleared_page pages ++ position_frame 0 0
            ++ flat_map cleared_page pages ++ position_frame 0 0).
Proof. auto 8 with frames. Qed.

Lemma some_inj (A : Type) (x y : A) : Some x = Some y -> x = y.
Proof. intro H. injection H as ->. reflexivity. Qed.

Lemma tty_init_invariant (t t' : tty) :
  tty_invariant t -> tty_init t = Some t' -> tty_invariant t'.
Proof.
  intros [_ [_ Hf]] H.
  pose proof (some_inj _ _ _ (eq_trans (eq_sym H) (tty_init_effect t))) as E.
  rewrite E. clear E H. split; [|split].
  - unfold tty_in_range, TTY_WIDTH, TTY_HEIGHT. cbn [tty_character tty_line].
    change (OLED_COLUMN_SIZE / FONT_WIDTH) with 25.
    change (OLED_ROW_SIZE / OLED_PAGE_SIZE) with 8. lia.
  - unfold cursor_in_range, OLED_COLUMN_SIZE, OLED_PAGE_SIZE.
    cbn [display column_current_position page_current_position]. lia.
  - cbn [display bus]. apply (framed_app _ _ Hf). exact framed_tty_init_bus.
Qed.

Lemma tty_cursor_invariant (column line : Z) (t t' : tty) :
  0 <= column -> 0 <= line ->
  tty_invariant t -> tty_cursor column line t = Some t' -> tty_invariant t'.
Proof.
  intros Hu1 Hu2 Hi H. pose proof Hi as [Hr [Hc Hf]].
  destruct (Z_lt_ge_dec column 25) as [H1|H1];
    [destruct (Z_lt_ge_dec line 8) as [H2|H2]|].
  - rewrite tty_cursor_accepts in H by lia. apply some_inj in H. subst t'.
    split; [|split].
    + tty_range. lia.
    + tty_range. lia.
    + cbn [display bus]. apply (framed_app _ _ Hf). apply framed_position.
  - rewrite tty_cursor_rejects in H by auto. apply some_inj in H. subst t'. exact Hi.
  - rewrite tty_cursor_rejects in H by auto. apply some_inj in H. subst t'. exact Hi.
Qed.

Lemma tty_clear_line_invariant (line : Z) (t t' : tty) :
  0 <= line ->
  tty_invariant t -> tty_clear_line line t = Some t' -> tty_invariant t'.
Proof.
  intros Hu Hi H. pose proof Hi as [Hr [Hc Hf]].
  destruct (Z_lt_ge_dec line 8) as [H1|H1].
  - rewrite tty_clear_line_accepts in H by exact H1. apply some_inj in H. subst t'.
    split; [|split].
    + exact Hr.
    + unfold cursor_in_range, OLED_COLUMN_SIZE, OLED_PAGE_SIZE.
      cbn [display column_current_position page_current_position]. lia.
    + cbn [display bus]. apply (framed_app _ _ Hf). apply framed_cleared_page.
  - unfold tty_clear_line, TTY_HEIGHT in H.
    change (OLED_ROW_SIZE / OLED_PAGE_SIZE) with 8 in H.
    rewrite geb_true in H by exact H1. apply some_inj in H. subst t'. exact Hi.
Qed.

Lemma tserve_init (t : tty) : tserve font chars TReq_init t = tty_init t.
Proof. exact (eq_refl (tty_init t)). Qed.

Lemma tserve_invariant (r : trequest) (t t' : tty) :
  tty_invariant t -> tserve font chars r t = Some t' -> tty_invariant t'.
Proof.
  intros Hi H.
  destruct r as [|column line|line|c|fuel string];
    [rewrite tserve_init in H | cbn [tserve] in H ..].
  - exact (tty_init_invariant t t' Hi H).
  - exact (tty_cursor_invariant _ _ t t' (proj1 (u8_range column)) (proj1 (u8_range line))
             Hi H).
  - exact (tty_clear_line_invariant _ t t' (proj1 (u8_range line)) Hi H).
  - exact (tty_putchar_invariant c t t' Hi H).
  - exact (tty_string_invariant fuel string t t' Hi H).
Qed.

(** *** Calls return *)

Lemma string_at_S (string : Z) (n : nat) :
  string_at chars string (S n) = chars string :: string_at chars (string + 1) n.
Proof.
  unfold string_at. cbn [seq map]. rewrite Z.add_0_r. f_equal.
  rewrite <- seq_shift, map_map. apply map_ext. intro i. f_equal. lia.
Qed.

Lemma tty_putchar_returns (c : Z) (t : tty) :
  tty_invariant t -> exists t', tty_putchar font c t = Some t'.
Proof.
  intros [Hr _]. pose proof Hr as [Hch Hl]. unfold TTY_HEIGHT in Hl.
  change (OLED_ROW_SIZE / OLED_PAGE_SIZE) with 8 in Hl.
  destruct (Z.eq_dec c NEWLINE) as [->|Hne].
  - unfold tty_putchar. rewrite range_filter_unsatisfiable.
    change (NEWLINE =? NEWLINE) with true. cbn iota.
    rewrite tty_newline_effect by exact Hl. eexists. reflexivity.
  - rewrite tty_putchar_glyph by assumption.
    destruct (tty_character t =? 24).
    + rewrite tty_newline_effect by exact Hl. eexists. reflexivity.
    + eexists. reflexivity.
Qed.

Lemma tty_string_returns (fuel : nat) :
  forall string t,
    tty_invariant t ->
    existsb (fun c => c =? 0) (string_at chars string fuel) = true ->
    exists t', tty_string font chars fuel string t = Some t'.
Proof.
  induction fuel as [|fuel IH]; intros string t Hi H; [discriminate|].
  rewrite string_at_S in H. cbn [existsb] in H. cbn [tty_string].
  destruct (chars string =? 0).
  - exists t. reflexivity.
  - cbn [orb] in H. unfold tseq.
    destruct (tty_putchar_returns (chars string) t Hi) as [t1 E]. rewrite E.
    exact (IH (string + 1) t1 (tty_putchar_invariant _ t t1 Hi E) H).
Qed.

Lemma tserve_returns (r : trequest) (t : tty) :
  tty_invariant t -> terminates chars r = true ->
  exists t', tserve font chars r t = Some t'.
Proof.
  intros Hi H. destruct r as [|column line|line|c|fuel string].
  - rewrite tserve_init, tty_init_effect. eexists. reflexivity.
  - cbn [tserve]. pose proof (u8_range column) as Hu1. pose proof (u8_range line) as Hu2.
    destruct (Z_lt_ge_dec (u8 column) 25) as [H1|H1];
      [destruct (Z_lt_ge_dec (u8 line) 8) as [H2|H2]|].
    + rewrite tty_cursor_accepts by lia. eexists. reflexivity.
    + rewrite tty_cursor_rejects by auto. eexists. reflexivity.
    + rewrite tty_cursor_rejects by auto. eexists. reflexivity.
  - cbn [tserve]. destruct (Z_lt_ge_dec (u8 line) 8) as [H1|H1].
    + rewrite tty_clear_line_accepts by exact H1. eexists. reflexivity.
    + unfold tty_clear_line, TTY_HEIGHT.
      change (OLED_ROW_SIZE / OLED_PAGE_SIZE) with 8.
      rewrite geb_true by exact H1. eexists. reflexivity.
  - exact (tty_putchar_returns c t Hi).
  - exact (tty_string_returns fuel string t Hi H).
Qed.

Lemma tserve_all_invariant (rs : list trequest) :
  forall t,
    tty_invariant t -> forallb (terminates chars) rs = true ->
    exists t', tserve_all font chars rs t = Some t' /\ tty_invariant t'.
Proof.
  induction rs as [|r rs IH]; intros t Hi H; cbn [tserve_all].
  - exists t. split; [reflexivity | exact Hi].
  - cbn [forallb] in H. apply andb_true_iff in H. destruct H as [Hr H].
    unfold tseq. destruct (tserve_returns r t Hi Hr) as [t1 E]. rewrite E.
    exact (IH t1 (tserve_invariant r t t1 Hi E) H).
Qed.

(** *** The variables of the text layer *)

Lemma lift_vars (p : proc) (t t' : tty) :
  lift p t = Some t' ->
  tty_character t' = tty_character t /\ tty_line t' = tty_line t
  /\ tty_scroll t' = tty_scroll t.
Proof.
  unfold lift. destruct (p (display t)); [|discriminate].
  intro H. apply some_inj in H. subst t'. cbn. auto.
Qed.

Lemma tty_clear_line_vars (line : Z) (t t' : tty) :
  tty_clear_line line t = Some t' ->
  tty_character t' = tty_character t /\ tty_line t' = tty_line t
  /\ tty_scroll t' = tty_scroll t.
Proof.
  unfold tty_clear_line. destruct (line >=? TTY_HEIGHT).
  - intro H. apply some_inj in H. subst t'. auto.
  - apply lift_vars.
Qed.

Lemma tty_newline_scroll (t t' : tty) :
  tty_newline t = Some t' -> tty_scroll t <> 0 -> tty_scroll t' <> 0.
Proof.
  unfold tty_newline. cbn [set_position tty_line tty_scroll tty_character display].
  set (t1 := if u8 (tty_line t + 1) >=? 8 then _ else _).
  assert (H1 : tty_scroll t <> 0 -> tty_scroll t1 <> 0).
  { subst t1. destruct (u8 (tty_line t + 1) >=? 8); cbn; [discriminate | auto]. }
  clearbody t1. unfold tseq. intros H Hs.
  destruct ((if negb (tty_scroll t1 =? 0) then _ else tskip) t1) as [t2|] eqn:E;
    [|discriminate H].
  apply tty_clear_line_vars in H. destruct H as [_ [_ H]]. rewrite H.
  destruct (negb (tty_scroll t1 =? 0)).
  - apply lift_vars in E. destruct E as [_ [_ E]]. rewrite E. auto.
  - apply some_inj in E. subst t2. auto.
Qed.

Lemma tty_putchar_scroll (c : Z) (t t' : tty) :
  tty_putchar font c t = Some t' -> tty_scroll t <> 0 -> tty_scroll t' <> 0.
Proof.
  unfold tty_putchar. rewrite range_filter_unsatisfiable.
  destruct (c =? NEWLINE); [apply tty_newline_scroll|].
  destruct (font c) as [mem temp].
  destruct (lift _ t) as [t1|] eqn:E; [|discriminate].
  apply lift_vars in E. destruct E as [_ [_ E]].
  cbn [set_position tty_character].
  destruct (_ >=? TTY_WIDTH).
  - intros H Hs. apply (tty_newline_scroll _ _ H).
    unfold set_position. cbn [tty_scroll]. rewrite E. exact Hs.
  - intros H Hs. apply some_inj in H. subst t'.
    unfold set_position. cbn [tty_scroll]. rewrite E. exact Hs.
Qed.

Lemma tty_string_scroll (fuel : nat) :
  forall string t t',
    tty_string font chars fuel string t = Some t' -> tty_scroll t <> 0 -> tty_scroll t' <> 0.
Proof.
  induction fuel as [|fuel IH]; intros string t t' H Hs; [discriminate|].
  cbn [tty_string] in H. destruct (chars string =? 0).
  - apply some_inj in H. subst t'. exact Hs.
  - unfold tseq in H.
    destruct (tty_putchar font (chars string) t) as [t1|] eqn:E; [|discriminate].
    exact (IH _ t1 t' H (tty_putchar_scroll _ t t1 E Hs)).
Qed.

Lemma tty_cursor_scroll (column line : Z) (t t' : tty) :
  tty_cursor column line t = Some t' -> tty_scroll t' = tty_scroll t.
Proof.
  unfold tty_cursor. destruct (_ || _).
  - intro H. apply some_inj in H. subst t'. reflexivity.
  - intro H. apply lift_vars in H. destruct H as [_ [_ H]]. exact H.
Qed.

End FontFacts.

(** *** Statements about the text layer *)

(** X17. After any sequence of calls of the public text functions
    ([tty_init], [tty_cursor], [tty_clear_line], [tty_putchar],
    [tty_string]) made after reset, with every argument, every font and
    every string that has its terminating zero, the text cursor is
    inside the grid of 25 columns and 8 lines, the cursor of the display
    driver is inside the display and no transaction is left open on the
    bus.  The calls of the transport are taken as returning here, as
    everywhere in the display layer; whether they do is a matter of the
    transport alone. *)
Theorem text_cursor_stays_in_grid
    (font : Z -> memory * Z) (chars : Z -> Z) (rs : list trequest) :
  forallb (terminates chars) rs = true ->
  exists t',
    tserve_all font chars rs tty_reset = Some t' /\
    0 <= tty_character t' < 25 /\ 0 <= tty_line t' < 8 /\
    cursor_in_range (display t') /\ framed (bus (display t')).
Proof.
  intro H.
  assert (Hi : tty_invariant tty_reset).
  { unfold tty_reset, oled_reset. split; [|split].
    - tty_range. lia.
    - tty_range. lia.
    - apply framed_nil. }
  destruct (tserve_all_invariant font chars rs tty_reset Hi H) as [t' [E [Hr [Hc Hf]]]].
  exists t'. split; [exact E|]. unfold tty_in_range, TTY_WIDTH, TTY_HEIGHT in Hr.
  change (OLED_COLUMN_SIZE / FONT_WIDTH) with 25 in Hr.
  change (OLED_ROW_SIZE / OLED_PAGE_SIZE) with 8 in Hr.
  destruct Hr as [H1 H2]. auto.
Qed.

Lemma text_cursor_stays_in_grid_witness :
  exists t',
    tserve_all ramp_font hi_chars
      [TReq_init; TReq_string 3 0; TReq_putchar 10; TReq_cursor 24 7; TReq_putchar 65]
      tty_reset = Some t' /\
    0 <= tty_character t' < 25 /\ 0 <= tty_line t' < 8 /\
    cursor_in_range (display t') /\ framed (bus (display t')).
Proof.
  apply (text_cursor_stays_in_grid ramp_font hi_chars
           [TReq_init; TReq_string 3 0; TReq_putchar 10; TReq_cursor 24 7; TReq_putchar 65]).
  vm_compute. reflexivity.
Defined.

(** X18. [tty_putchar] of a character other than the line feed, at a text
    column before the last one: whether or not the character lies between
    [' '] and ['~'], the glyph pointer of the font is used; one position
    transaction for column [5 * tty_character] of page [tty_line] and one
    data transaction of six bytes (one more than [FONT_WIDTH]) read from
    the glyph pointer go out; the text column advances by one, the line
    and the scroll flag stay. *)
Theorem tty_putchar_draws_six_bytes (font : Z -> memory * Z) (c : Z) (t : tty) :
  c <> NEWLINE -> 0 <= tty_character t < 24 -> 0 <= tty_line t < 8 ->
  tty_putchar font c t =
  Some (mkTty (tty_character t + 1) (tty_line t) (tty_scroll t)
          (mkOled (5 * tty_character t) (tty_line t)
             (bus (display t)
                ++ position_frame (5 * tty_character t) (tty_line t)
                ++ data_frame (bytes_at (fst (font c)) (snd (font c)) 6)))).
Proof.
  intros Hc Hch Hl.
  rewrite tty_putchar_glyph; [| exact Hc | tty_range; lia].
  replace (tty_character t =? 24) with false by (symmetry; apply Z.eqb_neq; lia).
  unfold tskip, glyph_bus, FONT_WIDTH. rewrite (Z.mul_comm (tty_character t) 5).
  reflexivity.
Qed.

Lemma tty_putchar_draws_six_bytes_witness :
  tty_putchar ramp_font 7 (mkTty 3 2 0 oled_reset) =
  Some (mkTty 4 2 0
          (mkOled 15 2
             (position_frame 15 2
                ++ data_frame (bytes_at ramp 56 6)))).
Proof.
  apply (tty_putchar_draws_six_bytes ramp_font 7 (mkTty 3 2 0 oled_reset)).
  - discriminate.
  - cbn. lia.
  - cbn. lia.
Defined.

(** X19. [tty_putchar] of the line feed in any state whose line is below
    8: the text column becomes 0 and the line the next one modulo 8; the
    scroll flag is set when line 7 is left and otherwise kept; when the
    flag is then set, the display-offset command with 8 times the line
    after the new one goes out; the page of the new line is cleared, which
    leaves the cursor of the display driver at its column 0. *)
Theorem line_feed_breaks_line (font : Z -> memory * Z) (t : tty) :
  0 <= tty_line t < 8 ->
  tty_putchar font NEWLINE t =
  Some (mkTty 0 (next_line (tty_line t))
          (if tty_line t =? 7 then 1 else tty_scroll t)
          (mkOled 0 (next_line (tty_line t))
             (bus (display t)
                ++ (if (if tty_line t =? 7 then 1 else tty_scroll t) =? 0 then []
                    else command_frame [OLED_CMD_SET_DISPLAY_OFFSET;
                                        8 * next_line (next_line (tty_line t))])
                ++ cleared_page (next_line (tty_line t))))).
Proof.
  intro Hl. unfold tty_putchar. rewrite range_filter_unsatisfiable.
  change (NEWLINE =? NEWLINE) with true. cbn iota.
  rewrite tty_newline_effect by exact Hl. unfold newline_bus, scroll_frame.
  destruct ((if tty_line t =? 7 then 1 else tty_scroll t) =? 0); reflexivity.
Qed.

Lemma line_feed_breaks_line_witness :
  tty_putchar ramp_font NEWLINE (mkTty 11 7 0 oled_reset) =
  Some (mkTty 0 0 1
          (mkOled 0 0
             (command_frame [OLED_CMD_SET_DISPLAY_OFFSET; 8] ++ cleared_page 0))).
Proof.
  apply (line_feed_breaks_line ramp_font (mkTty 11 7 0 oled_reset)).
  cbn. lia.
Defined.

(** X20. A character other than the line feed put in the last text
    column (24) is drawn in columns 120 to 125 of the page, and the call
    then breaks the line exactly as a line feed would in the state the
    drawing leaves behind. *)
Theorem last_column_wraps (font : Z -> memory * Z) (c : Z) (t : tty) :
  c <> NEWLINE -> tty_character t = 24 -> 0 <= tty_line t < 8 ->
  tty_putchar font c t =
  tty_putchar font NEWLINE
    (mkTty 25 (tty_line t) (tty_scroll t)
       (mkOled 120 (tty_line t)
          (bus (display t)
             ++ position_frame 120 (tty_line t)
             ++ data_frame (bytes_at (fst (font c)) (snd (font c)) 6)))).
Proof.
  intros Hc Hch Hl.
  rewrite tty_putchar_glyph; [| exact Hc | tty_range; lia].
  rewrite Hch. change (24 =? 24) with true. cbn iota.
  unfold glyph_bus, FONT_WIDTH. change (24 * 5) with 120. change (24 + 1) with 25.
  unfold tty_putchar at 1. rewrite range_filter_unsatisfiable.
  change (NEWLINE =? NEWLINE) with true. reflexivity.
Qed.

Lemma last_column_wraps_witness :
  tty_putchar ramp_font 65 (mkTty 24 7 0 oled_reset) =
  Some (mkTty 0 0 1
          (mkOled 0 0
             (position_frame 120 7 ++ data_frame (bytes_at ramp 520 6)
                ++ command_frame [OLED_CMD_SET_DISPLAY_OFFSET; 8] ++ cleared_page 0))).
Proof.
  rewrite (last_column_wraps ramp_font 65 (mkTty 24 7 0 oled_reset)).
  - vm_compute. reflexivity.
  - discriminate.
  - reflexivity.
  - cbn. lia.
Defined.

(** X21. Only [tty_init] clears the scroll flag: over any sequence of
    the other public text functions that returns, a flag that was set is
    still set, so every later line break keeps sending the display
    offset. *)
Theorem scroll_flag_stays_set
    (font : Z -> memory * Z) (chars : Z -> Z) (rs : list trequest) :
  forall t t',
    forallb keeps_scroll rs = true ->
    tserve_all font chars rs t = Some t' ->
    tty_scroll t <> 0 -> tty_scroll t' <> 0.
Proof.
  induction rs as [|r rs IH]; intros t t' Hk H Hs; cbn [tserve_all] in H.
  - apply some_inj in H. subst t'. exact Hs.
  - cbn [forallb] in Hk. apply andb_true_iff in Hk. destruct Hk as [Hr Hk].
    unfold tseq in H. destruct (tserve font chars r t) as [t1|] eqn:E; [|discriminate H].
    apply (IH t1 t' Hk H).
    destruct r as [|column line|line|c|fuel string]; [discriminate Hr | cbn [tserve] in E ..].
    + rewrite (tty_cursor_scroll _ _ _ _ E). exact Hs.
    + apply tty_clear_line_vars in E. destruct E as [_ [_ E]]. rewrite E. exact Hs.
    + exact (tty_putchar_scroll font c t t1 E Hs).
    + exact (tty_string_scroll font chars fuel string t t1 E Hs).
Qed.

Lemma scroll_flag_stays_set_witness :
  tty_scroll
    (treturned
       (tserve_all ramp_font hi_chars
          [TReq_cursor 0 0; TReq_string 3 0; TReq_clear_line 1; TReq_putchar 10]
          (mkTty 24 7 1 oled_reset))) <> 0.
Proof.
  apply (scroll_flag_stays_set ramp_font hi_chars
           [TReq_cursor 0 0; TReq_string 3 0; TReq_clear_line 1; TReq_putchar 10]
           (mkTty 24 7 1 oled_reset)).
  - reflexivity.
  - vm_compute. reflexivity.
  - discriminate.
Defined.

(** X22. [tty_cursor] with a column below 25 and a line below 8 stores
    both as the text cursor and sends one position transaction for
    display column [5 * column] of page [line]; with any other argument
    it changes nothing and sends nothing. *)
Theorem tty_cursor_moves_or_ignores (column line : Z) (t : tty) :
  0 <= column < 256 -> 0 <= line < 256 ->
  tty_cursor column line t =
  Some (if (column <? 25) && (line <? 8)
        then mkTty column line (tty_scroll t)
               (mkOled (5 * column) line
                  (bus (display t) ++ position_frame (5 * column) line))
        else t).
Proof.
  intros Hc Hl.
  destruct (column <? 25) eqn:E1; [destruct (line <? 8) eqn:E2|]; cbn [andb].
  - apply Z.ltb_lt in E1, E2. rewrite tty_cursor_accepts by lia.
    unfold FONT_WIDTH. rewrite (Z.mul_comm column 5). reflexivity.
  - apply Z.ltb_ge in E2. apply tty_cursor_rejects. right. lia.
  - apply Z.ltb_ge in E1. apply tty_cursor_rejects. left. lia.
Qed.

Lemma tty_cursor_moves_or_ignores_witness :
  tty_cursor 24 7 tty_reset =
  Some (mkTty 24 7 0 (mkOled 120 7 (position_frame 120 7))) /\
  tty_cursor 25 7 tty_reset = Some tty_reset.
Proof.
  split.
  - apply (tty_cursor_moves_or_ignores 24 7 tty_reset); lia.
  - apply (tty_cursor_moves_or_ignores 25 7 tty_reset); lia.
Defined.

(** X23. [tty_string] puts the characters stored from [string] up to,
    and not including, the first zero, one after the other and in order,
    each exactly as [tty_putchar] does; nothing after the zero is read or
    put, and an empty string changes nothing. *)
Theorem tty_string_puts_until_zero
    (font : Z -> memory * Z) (chars : Z -> Z) (cs : list Z)
    (fuel : nat) (string : Z) (t : tty) :
  string_at chars string (length cs) = cs ->
  forallb (fun c => negb (c =? 0)) cs = true ->
  chars (string + Z.of_nat (length cs)) = 0 ->
  (length cs < fuel)%nat ->
  tty_string font chars fuel string t = put_all font cs t.
Proof.
  revert fuel string t.
  induction cs as [|c cs IH]; intros fuel string t Hs Hn Hz Hf;
    (destruct fuel as [|fuel]; [cbn [length] in Hf; lia|]); cbn [tty_string put_all].
  - cbn [length Z.of_nat] in Hz. rewrite Z.add_0_r in Hz. rewrite Hz. reflexivity.
  - cbn [length] in Hs, Hz, Hf. rewrite string_at_S in Hs. injection Hs as Hc Hs.
    cbn [forallb] in Hn. apply andb_true_iff in Hn. destruct Hn as [Hc0 Hn].
    rewrite Hc. destruct (c =? 0); [discriminate|].
    unfold tseq. destruct (tty_putchar font c t) as [t1|]; [|reflexivity].
    apply IH; [exact Hs | exact Hn | | lia].
    rewrite <- Hz. f_equal. lia.
Qed.

Lemma tty_string_puts_until_zero_witness :
  tty_string ramp_font hi_chars 3 0 tty_reset =
  tseq (tty_putchar ramp_font 72) (tty_putchar ramp_font 105) tty_reset /\
  tty_string ramp_font hi_chars 1 2 tty_reset = Some tty_reset.
Proof.
  split.
  - rewrite (tty_string_puts_until_zero ramp_font hi_chars [72; 105] 3 0 tty_reset).
    + vm_compute. reflexivity.
    + reflexivity.
    + reflexivity.
    + reflexivity.
    + cbn. lia.
  - apply (tty_string_puts_until_zero ramp_font hi_chars [] 1 2 tty_reset).
    + reflexivity.
    + reflexivity.
    + reflexivity.
    + cbn. lia.
Defined.

(** X24. [tty_clear_line] with a line below 8 clears the page of that
    line and leaves the three variables of the text layer as they are,
    while the cursor of the display driver ends at column 0 of that page;
    with any other line it changes nothing and sends nothing. *)
Theorem tty_clear_line_keeps_text_cursor (line : Z) (t : tty) :
  0 <= line < 256 ->
  tty_clear_line line t =
  Some (if line <? 8
        then mkTty (tty_character t) (tty_line t) (tty_scroll t)
               (mkOled 0 line (bus (display t) ++ cleared_page line))
        else t).
Proof.
  intro Hl. destruct (line <? 8) eqn:E.
  - apply Z.ltb_lt in E. apply tty_clear_line_accepts. exact E.
  - apply Z.ltb_ge in E. unfold tty_clear_line, TTY_HEIGHT.
    change (OLED_ROW_SIZE / OLED_PAGE_SIZE) with 8.
    rewrite geb_true by lia. reflexivity.
Qed.

Lemma tty_clear_line_keeps_text_cursor_witness :
  tty_clear_line 5 (mkTty 3 2 1 oled_reset) =
  Some (mkTty 3 2 1 (mkOled 0 5 (cleared_page 5))) /\
  tty_clear_line 8 (mkTty 3 2 1 oled_reset) = Some (mkTty 3 2 1 oled_reset).
Proof.
  split.
  - apply (tty_clear_line_keeps_text_cursor 5 (mkTty 3 2 1 oled_reset)). lia.
  - apply (tty_clear_line_keeps_text_cursor 8 (mkTty 3 2 1 oled_reset)). lia.
Defined.

(** X25. [tty_init] in any state: the three variables of the text layer
    become zero; the bus sees the initialisation of the transport and the
    one command transaction of [oled_init], and then every page cleared
    and the cursor sent home twice, once by the [oled_clear] that ends
    [oled_init] and once by the [oled_clear] of [tty_init] itself. *)
Theorem tty_init_clears_twice (t : tty) :
  tty_init t =
  Some (mkTty 0 0 0
          (mkOled 0 0
             (bus (display t)
                ++ Twi_init :: command_frame oled_init_commands
                ++ (flat_map cleared_page pages ++ position_frame 0 0)
                ++ (flat_map cleared_page pages ++ position_frame 0 0)))).
Proof.
  rewrite tty_init_effect. rewrite <- !app_assoc. reflexivity.
Qed.

(* ================================================================== *)
(** ** Properties of the hardware TWI master *)
(* ================================================================== *)

Import Twi.

Section PeripheralFacts.

Variables TWINT TWEA TWSTA TWSTO TWEN TWIE : Z.
Variable TWCR_in : nat -> Z.
Variable TWSR_in : nat -> Z.

Lemma wait_flag_returns (flag : Z) (k : nat) :
  forall fuel h,
    (forall i, (i < k)%nat ->
               Z.land (TWCR_in (control_reads h + i)%nat) (Z.shiftl 1 flag) = 0) ->
    Z.land (TWCR_in (control_reads h + k)%nat) (Z.shiftl 1 flag) <> 0 ->
    (k < fuel)%nat ->
    wait_flag TWCR_in flag fuel h =
    Some (mkTwi (writes h) (control_reads h + k + 1) (status_reads h) (nops h + k)
                (data_reads h)).
Proof.
  induction k as [|k IH]; intros fuel h Hlow Hset Hf;
    (destruct fuel as [|fuel]; [lia|]); cbn [wait_flag read_TWCR].
  - rewrite Nat.add_0_r in Hset. apply Z.eqb_neq in Hset. rewrite Hset.
    rewrite !Nat.add_0_r, Nat.add_1_r. reflexivity.
  - pose proof (Hlow 0%nat ltac:(lia)) as H0. rewrite Nat.add_0_r in H0.
    rewrite H0. cbn [Z.eqb].
    rewrite IH; cbn [nop control_reads writes status_reads nops data_reads].
    + f_equal. f_equal; lia.
    + intros i Hi. replace (S (control_reads h) + i)%nat with (control_reads h + S i)%nat by lia.
      apply Hlow. lia.
    + replace (S (control_reads h) + k)%nat with (control_reads h + S k)%nat by lia.
      exact Hset.
    + lia.
Qed.

Lemma wait_flag_stuck (flag : Z) (fuel : nat) :
  (forall n, Z.land (TWCR_in n) (Z.shiftl 1 flag) = 0) ->
  forall h, wait_flag TWCR_in flag fuel h = None.
Proof.
  intro Hlow. induction fuel as [|fuel IH]; intro h; cbn [wait_flag read_TWCR];
    [reflexivity|].
  rewrite Hlow. cbn [Z.eqb]. apply IH.
Qed.

Lemma twi_set_effect (k fuel : nat) (data : Z) (h : twi) :
  (forall i, (i < k)%nat ->
             Z.land (TWCR_in (control_reads h + i)%nat) (Z.shiftl 1 TWINT) = 0) ->
  Z.land (TWCR_in (control_reads h + k)%nat) (Z.shiftl 1 TWINT) <> 0 ->
  (k < fuel)%nat ->
  twi_set TWINT TWEN TWCR_in TWSR_in fuel data h =
  Some (set_result (Z.land (TWSR_in (status_reads h)) 0xF8),
        mkTwi (writes h ++ [(TWDR, u8 data);
                            (TWCR, u8 (Z.lor (Z.shiftl 1 TWINT) (Z.shiftl 1 TWEN)))])
              (control_reads h + k + 1) (S (status_reads h)) (nops h + k)
              (data_reads h)).
Proof.
  intros Hlow Hset Hf. unfold twi_set.
  rewrite (wait_flag_returns TWINT k); [| exact Hlow | exact Hset | exact Hf].
  cbn [write read_TWSR writes control_reads status_reads nops data_reads].
  rewrite <- app_assoc. reflexivity.
Qed.

End PeripheralFacts.

(** X26. [twi_set] writes the byte to the data register and then the
    control register with [TWINT] and [TWEN], polls the control register
    until a read shows [TWINT], one [NOP] per read that does not, and
    decides its result by one read of the status register masked with
    0xF8: 0x30 gives [TWI_None], 0x28 [TWI_Ack], 0x38 [TWI_Arbitration]
    and every other value [TWI_General] (enough fuel given: more than
    the number [k] of reads without [TWINT]). *)
Theorem twi_set_polls_then_decodes
    (TWINT TWEN : Z) (TWCR_in TWSR_in : nat -> Z) (k fuel : nat) (data : Z) (h : twi) :
  (forall i, (i < k)%nat ->
             Z.land (TWCR_in (control_reads h + i)%nat) (Z.shiftl 1 TWINT) = 0) ->
  Z.land (TWCR_in (control_reads h + k)%nat) (Z.shiftl 1 TWINT) <> 0 ->
  (k < fuel)%nat ->
  twi_set TWINT TWEN TWCR_in TWSR_in fuel data h =
  Some ((let status := Z.land (TWSR_in (status_reads h)) 0xF8 in
         if status =? 0x30 then TWI_None
         else if status =? 0x28 then TWI_Ack
         else if status =? 0x38 then TWI_Arbitration
         else TWI_General),
        mkTwi (writes h ++ [(TWDR, u8 data);
                            (TWCR, u8 (Z.lor (Z.shiftl 1 TWINT) (Z.shiftl 1 TWEN)))])
              (control_reads h + k + 1) (S (status_reads h)) (nops h + k)
              (data_reads h)).
Proof. exact (twi_set_effect TWINT TWEN TWCR_in TWSR_in k fuel data h). Qed.

Lemma twi_set_polls_then_decodes_witness :
  twi_set 7 2 late_flag (fun _ => 0x28) 3 0x40 twi_reset =
  Some (TWI_Ack, mkTwi [(TWDR, 0x40); (TWCR, 0x84)] 3 1 2 0).
Proof.
  apply (twi_set_polls_then_decodes 7 2 late_flag (fun _ => 0x28) 2 3 0x40 twi_reset).
  - intros i Hi. destruct i as [|[|i]]; [reflexivity | reflexivity | lia].
  - vm_compute. discriminate.
  - lia.
Defined.

(** X27. [twi_address] decodes the status with the [switch] of [twi_set],
    which knows the data codes only: when the status register shows one
    of the four codes [twi.h] names for the address phase (0x18, 0x20,
    0x40, 0x48), with any prescaler bits, the call returns [TWI_General],
    whatever the address and the operation. *)
Theorem twi_address_general_on_address_status
    (TWINT TWEN : Z) (TWCR_in TWSR_in : nat -> Z) (k fuel : nat)
    (address : Z) (operation : TWI_Operation) (h : twi) :
  (forall i, (i < k)%nat ->
             Z.land (TWCR_in (control_reads h + i)%nat) (Z.shiftl 1 TWINT) = 0) ->
  Z.land (TWCR_in (control_reads h + k)%nat) (Z.shiftl 1 TWINT) <> 0 ->
  (k < fuel)%nat ->
  In (Z.land (TWSR_in (status_reads h)) 0xF8) address_status_codes ->
  option_map fst (twi_address TWINT TWEN TWCR_in TWSR_in fuel address operation h)
  = Some TWI_General.
Proof.
  intros Hlow Hset Hf Hs. unfold twi_address.
  rewrite (twi_set_effect TWINT TWEN TWCR_in TWSR_in k) by assumption.
  cbn [option_map fst]. f_equal.
  unfold address_status_codes in Hs. cbn [In] in Hs.
  destruct Hs as [<-|[<-|[<-|[<-|[]]]]]; reflexivity.
Qed.

Lemma twi_address_general_on_address_status_witness :
  option_map fst (twi_address 7 2 late_flag (fun _ => 0x18) 3 0x3C TWI_Write twi_reset)
  = Some TWI_General.
Proof.
  apply (twi_address_general_on_address_status 7 2 late_flag (fun _ => 0x18) 2 3
           0x3C TWI_Write twi_reset).
  - intros i Hi. destruct i as [|[|i]]; [reflexivity | reflexivity | lia].
  - vm_compute. discriminate.
  - lia.
  - left. reflexivity.
Defined.

(** X28. [twi_status] packs two fields into one byte: bits 7 to 3 are
    the status code of the status register, bit 2 is bit 3 of the control
    register, and bits 1 and 0 are always clear, so the prescaler bits of
    the status register never show. *)
Theorem twi_status_packs_fields (TWCR_in TWSR_in : nat -> Z) (h : twi) :
  Z.land (fst (twi_status TWCR_in TWSR_in h)) 0xF8
  = Z.land (TWSR_in (status_reads h)) 0xF8 /\
  Z.testbit (fst (twi_status TWCR_in TWSR_in h)) 2
  = Z.testbit (TWCR_in (control_reads h)) 3 /\
  Z.testbit (fst (twi_status TWCR_in TWSR_in h)) 1 = false /\
  Z.testbit (fst (twi_status TWCR_in TWSR_in h)) 0 = false.
Proof.
  unfold twi_status, read_TWSR, read_TWCR. cbn [fst control_reads].
  split; [|split; [|split]].
  - rewrite Z.land_lor_distr_l.
    rewrite (Z.land_comm 0xF8 (TWSR_in _)), <- Z.land_assoc.
    rewrite (Z.land_comm 0x04 (Z.shiftr _ 1)), <- (Z.land_assoc (Z.shiftr _ 1)).
    change (Z.land 0xF8 0xF8) with 0xF8. change (Z.land 0x04 0xF8) with 0.
    rewrite Z.land_0_r, Z.lor_0_r. reflexivity.
  - rewrite Z.lor_spec, !Z.land_spec, Z.shiftr_spec by lia.
    change (Z.testbit 0xF8 2) with false. change (Z.testbit 0x04 2) with true.
    reflexivity.
  - rewrite Z.lor_spec, !Z.land_spec. reflexivity.
  - rewrite Z.lor_spec, !Z.land_spec. reflexivity.
Qed.

(** X29. The hardware driver has no time-out: when no read of the
    control register ever shows [TWINT], none of [twi_start], [twi_set],
    [twi_address] and [twi_get] returns, for any fuel. *)
Theorem twi_waits_without_timeout
    (TWINT TWEA TWSTA TWEN : Z) (TWCR_in TWSR_in TWDR_in : nat -> Z) (fuel : nat)
    (data address : Z) (operation : TWI_Operation)
    (acknowledge : TWI_Acknowledge) (h : twi) :
  (forall n, Z.land (TWCR_in n) (Z.shiftl 1 TWINT) = 0) ->
  twi_start TWINT TWSTA TWEN TWCR_in TWSR_in fuel h = None /\
  twi_set TWINT TWEN TWCR_in TWSR_in fuel data h = None /\
  twi_address TWINT TWEN TWCR_in TWSR_in fuel address operation h = None /\
  twi_get TWINT TWEA TWEN TWCR_in TWSR_in TWDR_in fuel acknowledge h = None.
Proof.
  intro Hlow. unfold twi_address, twi_start, twi_set, twi_get.
  rewrite !(wait_flag_stuck TWCR_in TWINT fuel Hlow). auto.
Qed.

Lemma twi_waits_without_timeout_witness :
  twi_start 7 5 2 no_flag (fun _ => 0x08) 100 twi_reset = None /\
  twi_set 7 2 no_flag (fun _ => 0x08) 100 0x40 twi_reset = None /\
  twi_address 7 2 no_flag (fun _ => 0x08) 100 0x3C TWI_Write twi_reset = None /\
  twi_get 7 6 2 no_flag (fun _ => 0x08) (fun _ => 0xA5) 100 TWI_ACK twi_reset = None.
Proof.
  apply (twi_waits_without_timeout 7 6 5 2 no_flag (fun _ => 0x08) (fun _ => 0xA5)
           100 0x40 0x3C TWI_Write TWI_ACK twi_reset).
  intro n. reflexivity.
Defined.

(** X30. [twi_stop] writes the control register with [TWINT], [TWEN] and
    [TWSTO] and then waits for a read of the control register that shows
    [TWSTO] set, not cleared: it returns at the first such read, after
    one [NOP] for each read before it. *)
Theorem twi_stop_waits_for_stop_bit_set
    (TWINT TWSTO TWEN : Z) (TWCR_in : nat -> Z) (k fuel : nat) (h : twi) :
  (forall i, (i < k)%nat ->
             Z.land (TWCR_in (control_reads h + i)%nat) (Z.shiftl 1 TWSTO) = 0) ->
  Z.land (TWCR_in (control_reads h + k)%nat) (Z.shiftl 1 TWSTO) <> 0 ->
  (k < fuel)%nat ->
  twi_stop TWINT TWSTO TWEN TWCR_in fuel h =
  Some (mkTwi (writes h
                 ++ [(TWCR, u8 (Z.lor (Z.lor (Z.shiftl 1 TWINT) (Z.shiftl 1 TWEN))
                                      (Z.shiftl 1 TWSTO)))])
              (control_reads h + k + 1) (status_reads h) (nops h + k) (data_reads h)).
Proof.
  intros Hlow Hset Hf. unfold twi_stop.
  rewrite (wait_flag_returns TWCR_in TWSTO k); [| exact Hlow | exact Hset | exact Hf].
  reflexivity.
Qed.

Lemma twi_stop_waits_for_stop_bit_set_witness :
  twi_stop 7 4 2 (fun n => if (n <? 1)%nat then 0x84 else 0x94) 2 twi_reset =
  Some (mkTwi [(TWCR, 0x94)] 2 0 1 0).
Proof.
  apply (twi_stop_waits_for_stop_bit_set 7 4 2
           (fun n => if (n <? 1)%nat then 0x84 else 0x94) 1 2 twi_reset).
  - intros i Hi. destruct i as [|i]; [reflexivity | lia].
  - vm_compute. discriminate.
  - lia.
Defined.
